(** * RAG service of decentradocs: a shallow embedding of
      [backend-express/src/services/ragService.js]

    The development follows the source file top to bottom: JavaScript
    strings and [String.prototype.slice]/[trim], the chunker
    [splitIntoChunks], [cosineSimilarity] on IEEE-754 doubles, the
    insertion-ordered [Map] used as vector store, and the two asynchronous
    operations [processDocument] and [queryDocuments], written in a small
    state-and-exception monad over the service and its external providers. *)

From Stdlib Require Import Ascii String DecimalString.
From Stdlib Require Import ZArith NArith List Bool Lia.
From Stdlib Require Import Sorting.Permutation Sorting.Sorted.
From Stdlib Require Import Floats.
Import ListNotations.

Local Open Scope Z_scope.

(* ================================================================= *)
(** ** JavaScript strings *)

(** A JavaScript string is a sequence of UTF-16 code units; [length],
    [slice] and [substring] all count code units. *)
Definition code_unit := N.
Definition jsstring := list code_unit.

(** ASCII literals of the source, as code units. *)
Definition lit (s : string) : jsstring :=
  map N_of_ascii (list_ascii_of_string s).

Definition jsstring_eq_dec : forall a b : jsstring, {a = b} + {a <> b} :=
  list_eq_dec N.eq_dec.

Definition jsstring_eqb (a b : jsstring) : bool :=
  if jsstring_eq_dec a b then true else false.

Definition js_length {A} (s : list A) : Z := Z.of_nat (length s).

(** [s.slice(start, end)] of ECMAScript (strings and arrays alike): negative
    indices count from the end, both are clamped to [0, length], and the
    result is empty when the clamped end does not exceed the clamped
    start. *)
Definition js_slice {A} (s : list A) (start end_ : Z) : list A :=
  let len := js_length s in
  let from := if start <? 0 then Z.max (len + start) 0 else Z.min start len in
  let to := if end_ <? 0 then Z.max (len + end_) 0 else Z.min end_ len in
  firstn (Z.to_nat (to - from)) (skipn (Z.to_nat from) s).

(** WhiteSpace and LineTerminator code units of ECMAScript, the ones
    [String.prototype.trim] strips. *)
Definition is_js_whitespace (c : code_unit) : bool :=
  let n := Z.of_N c in
  (n =? 9) || (n =? 10) || (n =? 11) || (n =? 12) || (n =? 13) ||
  (n =? 32) || (n =? 160) || (n =? 5760) ||
  ((8192 <=? n) && (n <=? 8202)) ||
  (n =? 8232) || (n =? 8233) || (n =? 8239) || (n =? 8287) ||
  (n =? 12288) || (n =? 65279).

Fixpoint trim_start (s : jsstring) : jsstring :=
  match s with
  | [] => []
  | c :: s' => if is_js_whitespace c then trim_start s' else s
  end.

Definition trim (s : jsstring) : jsstring :=
  rev (trim_start (rev (trim_start s))).

(* ================================================================= *)
(** ** The chunker *)

Section Chunker.

(** [this.chunkSize] and [this.chunkOverlap], integers read from the
    configuration with [parseInt]. *)
Variables chunkSize chunkOverlap : Z.

(** The [while] loop of [splitIntoChunks].  One unit of fuel is spent each
    time the loop condition is evaluated; [None] means the fuel ran out
    before the loop was left. *)
Fixpoint splitIntoChunks_loop (fuel : nat) (text : jsstring)
         (start : Z) (chunks : list jsstring) : option (list jsstring) :=
  match fuel with
  | O => None
  | S fuel' =>
      if start <? js_length text then
        let end_ := Z.min (start + chunkSize) (js_length text) in
        let chunks := chunks ++ [js_slice text start end_] in
        let start := start + (chunkSize - chunkOverlap) in
        (* Prevent infinite loop *)
        if start >=? js_length text then Some chunks
        else splitIntoChunks_loop fuel' text start chunks
      else Some chunks
  end.

Definition splitIntoChunks (fuel : nat) (text : jsstring)
  : option (list jsstring) :=
  splitIntoChunks_loop fuel text 0 [].

End Chunker.

(* ================================================================= *)
(** ** Numbers and cosine similarity *)

(** JavaScript numbers are IEEE-754 binary64 values: the primitive floats. *)
Definition number := float.

(** [v[i]] used as an operand of arithmetic: an index past the end reads
    [undefined], which [ToNumber] turns into NaN. *)
Definition js_index (v : list number) (i : nat) : number := nth i v nan.

Local Open Scope float_scope.

(** One iteration of the [for] loop of [cosineSimilarity], on the triple
    (dotProduct, normA, normB). *)
Definition cosine_step (a b : list number)
           (acc : number * number * number) (i : nat)
  : number * number * number :=
  let '(dotProduct, normA, normB) := acc in
  (dotProduct + js_index a i * js_index b i,
   normA + js_index a i * js_index a i,
   normB + js_index b i * js_index b i).

Definition cosineSimilarity (a b : list number) : number :=
  let '(dotProduct, normA, normB) :=
    fold_left (cosine_step a b) (seq 0 (length a)) (zero, zero, zero) in
  dotProduct / (sqrt normA * sqrt normB).

Local Close Scope float_scope.

(* ================================================================= *)
(** ** The insertion-ordered [Map] *)

(** A JavaScript [Map] keeps its entries in insertion order; [set] on a
    present key replaces the value where the entry stands, [set] on a new
    key appends.  Keys here are strings, compared by content. *)
Section JSMap.
Context {V : Type}.

Definition JSMap := list (jsstring * V).

Fixpoint map_get (m : JSMap) (k : jsstring) : option V :=
  match m with
  | [] => None
  | (k', v) :: m' => if jsstring_eqb k k' then Some v else map_get m' k
  end.

Fixpoint map_set (m : JSMap) (k : jsstring) (v : V) : JSMap :=
  match m with
  | [] => [(k, v)]
  | (k', v') :: m' =>
      if jsstring_eqb k k' then (k, v) :: m' else (k', v') :: map_set m' k v
  end.

Fixpoint map_delete (m : JSMap) (k : jsstring) : JSMap :=
  match m with
  | [] => []
  | (k', v') :: m' =>
      if jsstring_eqb k k' then m' else (k', v') :: map_delete m' k
  end.

Definition map_values (m : JSMap) : list V := map snd m.

Definition map_size (m : JSMap) : Z := js_length m.
End JSMap.
Arguments JSMap V : clear implicits.

(* ================================================================= *)
(** ** Records of the service *)

(** A thrown [Error]; only its [message] is ever read. *)
Record exn := Error { message : jsstring }.

(** What awaiting a promise of an external library gives. *)
Inductive Settled (A : Type) :=
| Fulfilled (a : A)
| Rejected (e : exn).
Arguments Fulfilled {A} a.
Arguments Rejected {A} e.

Definition Buffer := list Byte.byte.

Section Records.
(** The caller-supplied [metadata] object is carried along untouched. *)
Variable CallerMeta : Type.

(** [{...metadata, filename, blobId}] *)
Record Metadata := {
  md_caller : CallerMeta;
  md_filename : jsstring;
  md_blobId : jsstring
}.

(** An element of a document's array in [vectorStore]. *)
Record Chunk := {
  chunkIndex : nat;
  text : jsstring;
  embedding : list number;
  metadata : Metadata
}.

(** [{...chunk, score}] *)
Record ScoredChunk := {
  sc_chunk : Chunk;
  score : number
}.

(** The fields of the [RAGService] instance. *)
Record RAGService := {
  available : bool;
  vectorStore : JSMap (list Chunk);
  chunkSize : Z;
  chunkOverlap : Z;
  topK : Z;
  temperature : number
}.

(** Result of [processDocument]. *)
Record IngestResult := {
  ir_success : bool;
  ir_blobId : jsstring;
  ir_chunksCreated : Z;
  ir_textLength : Z;
  ir_error : option jsstring
}.

(** An element of [sources] in the result of [queryDocuments]. *)
Record Source := {
  src_blobId : jsstring;
  src_excerpt : jsstring;
  src_chunkIndex : nat;
  src_score : number
}.

Record QueryResult := {
  qr_answer : jsstring;
  qr_sources : list Source;
  qr_question : jsstring
}.

Record DeleteResult := {
  dr_success : bool;
  dr_deletedChunks : Z
}.
End Records.

Arguments Build_Metadata {CallerMeta}.
Arguments md_caller {CallerMeta}.
Arguments md_filename {CallerMeta}.
Arguments md_blobId {CallerMeta}.
Arguments Build_Chunk {CallerMeta}.
Arguments chunkIndex {CallerMeta}.
Arguments text {CallerMeta}.
Arguments embedding {CallerMeta}.
Arguments metadata {CallerMeta}.
Arguments Build_ScoredChunk {CallerMeta}.
Arguments sc_chunk {CallerMeta}.
Arguments score {CallerMeta}.
Arguments Build_RAGService {CallerMeta}.
Arguments available {CallerMeta}.
Arguments vectorStore {CallerMeta}.
Arguments chunkSize {CallerMeta}.
Arguments chunkOverlap {CallerMeta}.
Arguments topK {CallerMeta}.
Arguments temperature {CallerMeta}.

(** The part of [config] the service reads. *)
Record Config := {
  openaiApiKey : jsstring;
  cfg_chunkSize : Z;
  cfg_chunkOverlap : Z;
  similarityTopK : Z;
  llmTemperature : number
}.

(** [config] when the environment sets the API key only. *)
Definition default_config (key : jsstring) : Config :=
  {| openaiApiKey := key; cfg_chunkSize := 1000; cfg_chunkOverlap := 200;
     similarityTopK := 5; llmTemperature := 0x1.999999999999ap-4%float |}.

(** [new RAGService()]: an empty store, the settings of [config], and
    [available] set when there is an API key and [new OpenAI] does not
    throw. *)
Definition RAGService_new {CallerMeta} (config : Config)
           (openai_constructed : bool) : RAGService CallerMeta :=
  {| available := if js_length (openaiApiKey config) =? 0 then false
                  else openai_constructed;
     vectorStore := [];
     chunkSize := cfg_chunkSize config;
     chunkOverlap := cfg_chunkOverlap config;
     topK := similarityTopK config;
     temperature := llmTemperature config |}.

(** The request object of [openai.chat.completions.create]. *)
Record ChatRequest := {
  cr_model : jsstring;
  cr_system : jsstring;
  cr_user : jsstring;
  cr_temperature : number;
  cr_max_tokens : Z
}.

(** Calls that leave the process. *)
Inductive Call :=
| PdfParse (content : Buffer)
| Embedding (model input : jsstring)
| ChatCompletion (req : ChatRequest).

(** A call that was awaited, and whether its promise was fulfilled. *)
Record Event := {
  ev_call : Call;
  ev_fulfilled : bool
}.

Definition is_fulfilled {A} (r : Settled A) : bool :=
  match r with Fulfilled _ => true | Rejected _ => false end.

Definition is_embedding (e : Event) : bool :=
  match ev_call e with Embedding _ _ => true | _ => false end.

Definition is_completion (e : Event) : bool :=
  match ev_call e with ChatCompletion _ => true | _ => false end.

Definition is_rejected_embedding (e : Event) : bool :=
  is_embedding e && negb (ev_fulfilled e).

(* ================================================================= *)
(** ** Small helpers of the JavaScript runtime *)

(** [s.split('.').pop()]: what follows the last dot, or all of [s] when it
    has none. *)
Fixpoint until_dot (s : jsstring) : jsstring :=
  match s with
  | [] => []
  | c :: s' => if N.eqb c 46 then [] else c :: until_dot s'
  end.

Definition split_dot_pop (s : jsstring) : jsstring := rev (until_dot (rev s)).

(** [parts.join(sep)] *)
Fixpoint join (sep : jsstring) (parts : list jsstring) : jsstring :=
  match parts with
  | [] => []
  | [p] => p
  | p :: rest => p ++ sep ++ join sep rest
  end.

(** A non-negative integer inside a template literal. *)
Definition show_nat (n : nat) : jsstring :=
  lit (DecimalString.NilEmpty.string_of_uint (Nat.to_uint n)).

(** [xs.map((x, i) => f(x, i))], indices counted from [i]. *)
Fixpoint mapi_from {A B} (f : A -> nat -> B) (i : nat) (xs : list A) : list B :=
  match xs with
  | [] => []
  | x :: xs' => f x i :: mapi_from f (S i) xs'
  end.

Definition newline : jsstring := [10%N].

(** [Array.prototype.sort(comparefn)].  ECMAScript requires the sort to be
    stable and treats a NaN returned by [comparefn] as +0; an element moves
    behind another only when [comparefn] of the two is positive.  The model
    is the stable insertion sort with these rules. *)
Section JSSort.
Context {A : Type}.
Variable comparefn : A -> A -> number.

Fixpoint sort_insert (x : A) (sorted : list A) : list A :=
  match sorted with
  | [] => [x]
  | y :: ys =>
      if (zero <? comparefn x y)%float then y :: sort_insert x ys
      else x :: y :: ys
  end.

Fixpoint js_sort (xs : list A) : list A :=
  match xs with
  | [] => []
  | x :: xs' => sort_insert x (js_sort xs')
  end.
End JSSort.

(* ================================================================= *)
(** ** Outcomes of running an operation *)

(** An operation returns, throws, or is still inside a loop when the fuel
    given to it is spent. *)
Inductive Outcome (A : Type) :=
| Returned (a : A)
| Thrown (e : exn)
| OutOfFuel.
Arguments Returned {A} a.
Arguments Thrown {A} e.
Arguments OutOfFuel {A}.

(* ================================================================= *)
(** ** The service *)

Section Service.

(** The caller's metadata type and the world outside the process: the
    OpenAI endpoint, [pdf-parse], and the two string functions of the
    runtime the service relies on. *)
Variable CallerMeta : Type.
Variable Ext : Type.
Variable pdf : Buffer -> Ext -> Settled jsstring * Ext.
Variable embeddings_create : jsstring -> jsstring -> Ext -> Settled (list number) * Ext.
Variable chat_completions_create : ChatRequest -> Ext -> Settled jsstring * Ext.
Variable toString_utf8 : Buffer -> jsstring.
Variable toLowerCase : jsstring -> jsstring.

Abbreviation Chunk := (Chunk CallerMeta).
Abbreviation ScoredChunk := (ScoredChunk CallerMeta).
Abbreviation RAGService := (RAGService CallerMeta).

(** The singleton instance, the outside world, and the calls made so
    far (oldest first). *)
Record World := {
  svc : RAGService;
  ext : Ext;
  trace : list Event
}.

(** *** State and exceptions *)

Definition M (A : Type) := World -> Outcome A * World.

Definition ret {A} (a : A) : M A := fun w => (Returned a, w).

Definition bind {A B} (c : M A) (k : A -> M B) : M B :=
  fun w =>
    match c w with
    | (Returned a, w') => k a w'
    | (Thrown e, w') => (Thrown e, w')
    | (OutOfFuel, w') => (OutOfFuel, w')
    end.

Definition throw {A} (e : exn) : M A := fun w => (Thrown e, w).

(** [try { body } catch (error) { handler }] *)
Definition try_catch {A} (body : M A) (handler : exn -> M A) : M A :=
  fun w =>
    match body w with
    | (Thrown e, w') => handler e w'
    | r => r
    end.

Definition this : M RAGService := fun w => (Returned (svc w), w).

(** Awaiting a call to an external library: the call is logged, the
    outside world moves on, a rejected promise throws. *)
Definition await_ext {A} (c : Call) (call : Ext -> Settled A * Ext) : M A :=
  fun w =>
    let '(r, x) := call (ext w) in
    let w' := {| svc := svc w; ext := x;
                 trace := trace w ++ [{| ev_call := c;
                                         ev_fulfilled := is_fulfilled r |}] |} in
    match r with
    | Fulfilled a => (Returned a, w')
    | Rejected e => (Thrown e, w')
    end.

(** [this.vectorStore.set(blobId, documentChunks)] *)
Definition vectorStore_set (blobId : jsstring) (documentChunks : list Chunk)
  : M unit :=
  fun w =>
    let s := svc w in
    (Returned tt,
     {| svc := {| available := available s;
                  vectorStore := map_set (vectorStore s) blobId documentChunks;
                  chunkSize := chunkSize s;
                  chunkOverlap := chunkOverlap s;
                  topK := topK s;
                  temperature := temperature s |};
        ext := ext w; trace := trace w |}).

(** [this.vectorStore.delete(blobId)] *)
Definition vectorStore_delete (blobId : jsstring) : M unit :=
  fun w =>
    let s := svc w in
    (Returned tt,
     {| svc := {| available := available s;
                  vectorStore := map_delete (vectorStore s) blobId;
                  chunkSize := chunkSize s;
                  chunkOverlap := chunkOverlap s;
                  topK := topK s;
                  temperature := temperature s |};
        ext := ext w; trace := trace w |}).

(** A loop that exhausted its fuel. *)
Definition of_fuel {A} (r : option A) : M A :=
  fun w => match r with Some a => (Returned a, w) | None => (OutOfFuel, w) end.

Notation "x <- c ;; k" := (bind c (fun x => k))
  (at level 61, c at next level, right associativity).
Notation "c ;;; k" := (bind c (fun _ => k))
  (at level 61, right associativity).

(** *** [extractText] *)

(** The extensions the [switch] lists as plain text. *)
Definition plain_text_extensions : list jsstring :=
  [lit "txt"; lit "md"; lit "markdown"; lit "py"; lit "js"; lit "ts";
   lit "jsx"; lit "tsx"; lit "json"; lit "yaml"; lit "yml"; lit "html";
   lit "css"; lit "xml"; lit "csv"; lit "sql"; lit "sh"; lit "bash";
   lit "env"; lit "gitignore"; lit "dockerfile"].

Definition extractText (content : Buffer) (filename : jsstring) : M jsstring :=
  let extension := split_dot_pop (toLowerCase filename) in
  try_catch
    (if jsstring_eqb extension (lit "pdf") then
       pdfData_text <- await_ext (PdfParse content) (pdf content) ;;
       ret pdfData_text
     else if existsb (jsstring_eqb extension) plain_text_extensions then
       ret (toString_utf8 content)
     else
       (* Try to decode as text *)
       ret (toString_utf8 content))
    (fun error =>
       (* Fallback to raw text *)
       ret (toString_utf8 content)).

(** *** [getEmbedding] *)

Definition embedding_model : jsstring := lit "text-embedding-ada-002".

Definition not_available : exn := Error (lit "RAG Service not available").

Definition getEmbedding (input : jsstring) : M (list number) :=
  s <- this ;;
  if negb (available s) then throw not_available
  else
    await_ext (Embedding embedding_model input)
              (embeddings_create embedding_model input).

(** *** [processDocument] *)

Definition ingest_failure (blobId error : jsstring) : IngestResult :=
  {| ir_success := false; ir_blobId := blobId; ir_chunksCreated := 0;
     ir_textLength := 0; ir_error := Some error |}.

(** The [for] loop over [chunks], from index [i] on, pushing onto
    [documentChunks]. *)
Fixpoint embed_chunks (blobId filename : jsstring) (metadata : CallerMeta)
         (chunks : list jsstring) (i : nat) (documentChunks : list Chunk)
  : M (list Chunk) :=
  match chunks with
  | [] => ret documentChunks
  | chunk :: rest =>
      embedding <- getEmbedding chunk ;;
      embed_chunks blobId filename metadata rest (S i)
        (documentChunks ++
           [{| chunkIndex := i; text := chunk; embedding := embedding;
               metadata := {| md_caller := metadata; md_filename := filename;
                              md_blobId := blobId |} |}])
  end.

Definition processDocument (fuel : nat) (blobId : jsstring) (content : Buffer)
           (filename : jsstring) (metadata : CallerMeta) : M IngestResult :=
  s <- this ;;
  if negb (available s) then
    ret (ingest_failure blobId (lit "RAG Service not available"))
  else
    try_catch
      ((* Extract text from file *)
       text <- extractText content filename ;;
       if (js_length text =? 0) || (js_length (trim text) =? 0) then
         ret (ingest_failure blobId (lit "No text content extracted"))
       else
         (* Split into chunks *)
         chunks <- of_fuel (splitIntoChunks (chunkSize s) (chunkOverlap s) fuel text) ;;
         (* Process each chunk *)
         documentChunks <- embed_chunks blobId filename metadata chunks 0 [] ;;
         (* Store in memory *)
         vectorStore_set blobId documentChunks ;;;
         ret {| ir_success := true; ir_blobId := blobId;
                ir_chunksCreated := js_length chunks;
                ir_textLength := js_length text;
                ir_error := None |})
      (fun error => ret (ingest_failure blobId (message error))).

(** *** [queryDocuments] *)

Definition no_documents_answer : jsstring :=
  lit "I don't have any documents to search. Please upload some documents first.".

Definition systemPrompt : jsstring :=
  lit "You are a helpful assistant that answers questions based on the provided document context."
  ++ newline ++
  lit "Use only the information from the context to answer the question."
  ++ newline ++
  lit "If the context doesn't contain enough information to answer the question, say so."
  ++ newline ++
  lit "Always cite your sources by referring to [Source N] when using information from the context.".

Definition userPrompt (context question : jsstring) : jsstring :=
  lit "Context:" ++ newline ++ context ++ newline ++ newline ++
  lit "Question: " ++ question ++ newline ++ newline ++
  lit "Please provide a comprehensive answer based on the context above.".

(** Collecting the relevant chunks: the listed documents in the order given
    when [documentIds] is a non-empty array, every document of the store in
    insertion order otherwise. *)
Definition collect_chunks (store : JSMap (list Chunk))
           (documentIds : option (list jsstring)) : list Chunk :=
  let allChunks := [] in
  if match documentIds with
     | Some ids => 0 <? js_length ids
     | None => false
     end
  then
    (* Search specific documents *)
    fold_left
      (fun allChunks docId =>
         match map_get store docId with
         | Some chunks => allChunks ++ chunks
         | None => allChunks
         end)
      (match documentIds with Some ids => ids | None => [] end) allChunks
  else
    (* Search all documents *)
    fold_left (fun allChunks chunks => allChunks ++ chunks)
              (map_values store) allChunks.

Definition score_chunks (questionEmbedding : list number) (allChunks : list Chunk)
  : list ScoredChunk :=
  map (fun chunk =>
         {| sc_chunk := chunk;
            score := cosineSimilarity questionEmbedding (embedding chunk) |})
      allChunks.

(** [(a, b) => b.score - a.score] *)
Definition by_score (a b : ScoredChunk) : number := (score b - score a)%float.

(** Sort by score and get top K. *)
Definition top_chunks (questionEmbedding : list number) (allChunks : list Chunk)
           (topK : Z) : list ScoredChunk :=
  let scoredChunks := score_chunks questionEmbedding allChunks in
  let scoredChunks := js_sort by_score scoredChunks in
  js_slice scoredChunks 0 topK.

Definition build_context (topChunks : list ScoredChunk) : jsstring :=
  join (newline ++ newline)
       (mapi_from (fun chunk i =>
                     lit "[Source " ++ show_nat (i + 1) ++ lit "]: "
                     ++ text (sc_chunk chunk))
                  0 topChunks).

Definition format_source (chunk : ScoredChunk) : Source :=
  {| src_blobId := md_blobId (metadata (sc_chunk chunk));
     src_excerpt :=
       js_slice (text (sc_chunk chunk)) 0 200
       ++ (if 200 <? js_length (text (sc_chunk chunk)) then lit "..." else []);
     src_chunkIndex := chunkIndex (sc_chunk chunk);
     src_score := score chunk |}.

(** [topK] is [null] or a number; [topK || this.topK] falls back to the
    configured value on [null] and on zero. *)
Definition topK_or_default (s : RAGService) (topK_arg : option Z) : Z :=
  match topK_arg with
  | Some k => if k =? 0 then topK s else k
  | None => topK s
  end.

(** The request sent to [openai.chat.completions.create]. *)
Definition chat_request (s : RAGService) (context question : jsstring)
  : ChatRequest :=
  {| cr_model := lit "gpt-3.5-turbo";
     cr_system := systemPrompt;
     cr_user := userPrompt context question;
     cr_temperature := temperature s;
     cr_max_tokens := 1000 |}.

Definition queryDocuments (question : jsstring)
           (documentIds : option (list jsstring)) (topK_arg : option Z)
  : M QueryResult :=
  s <- this ;;
  if negb (available s) then throw not_available
  else
    let topK := topK_or_default s topK_arg in
    (* Get question embedding *)
    questionEmbedding <- getEmbedding question ;;
    (* Collect all relevant chunks *)
    s <- this ;;
    let allChunks := collect_chunks (vectorStore s) documentIds in
    if js_length allChunks =? 0 then
      ret {| qr_answer := no_documents_answer; qr_sources := [];
             qr_question := question |}
    else
      let topChunks := top_chunks questionEmbedding allChunks topK in
      (* Build context from top chunks *)
      let context := build_context topChunks in
      (* Generate answer using OpenAI *)
      answer <- await_ext (ChatCompletion (chat_request s context question))
                          (chat_completions_create
                             (chat_request s context question)) ;;
      (* Format sources *)
      ret {| qr_answer := answer;
             qr_sources := map format_source topChunks;
             qr_question := question |}.

(** *** [deleteDocument] and the statistics *)

Definition deleteDocument (blobId : jsstring) : M DeleteResult :=
  s <- this ;;
  let deletedChunks :=
    match map_get (vectorStore s) blobId with
    | Some chunks => js_length chunks
    | None => 0
    end in
  vectorStore_delete blobId ;;;
  ret {| dr_success := true; dr_deletedChunks := deletedChunks |}.

Definition getStoreStats : M (Z * Z) :=
  s <- this ;;
  let totalChunks :=
    fold_left (fun totalChunks chunks => totalChunks + js_length chunks)
              (map_values (vectorStore s)) 0 in
  ret (map_size (vectorStore s), totalChunks).

(** *** The service as its callers drive it *)

(** A call of one of the three methods that touch the store or the
    providers. *)
Inductive Request :=
| ReqProcess (fuel : nat) (blobId : jsstring) (content : Buffer)
             (filename : jsstring) (metadata : CallerMeta)
| ReqQuery (question : jsstring) (documentIds : option (list jsstring))
           (topK_arg : option Z)
| ReqDelete (blobId : jsstring).

Definition came_back {A} (r : Outcome A) : bool :=
  match r with OutOfFuel => false | _ => true end.

(** Serving a request: whether the call came back, and the world after. *)
Definition serve (req : Request) (w : World) : bool * World :=
  match req with
  | ReqProcess fuel blobId content filename metadata =>
      let '(r, w') := processDocument fuel blobId content filename metadata w in
      (came_back r, w')
  | ReqQuery question documentIds topK_arg =>
      let '(r, w') := queryDocuments question documentIds topK_arg w in
      (came_back r, w')
  | ReqDelete blobId =>
      let '(r, w') := deleteDocument blobId w in
      (came_back r, w')
  end.

(** Requests are served one after the other, as long as they come back. *)
Fixpoint serve_all (reqs : list Request) (w : World) : World :=
  match reqs with
  | [] => w
  | req :: rest =>
      let '(back, w') := serve req w in
      if back then serve_all rest w' else w'
  end.

End Service.

Arguments svc {CallerMeta Ext}.
Arguments ext {CallerMeta Ext}.
Arguments trace {CallerMeta Ext}.
Arguments Build_World {CallerMeta Ext}.
Arguments ret {CallerMeta Ext A}.
Arguments bind {CallerMeta Ext A B}.
Arguments throw {CallerMeta Ext A}.
Arguments try_catch {CallerMeta Ext A}.
Arguments this {CallerMeta Ext}.
Arguments await_ext {CallerMeta Ext A}.
Arguments vectorStore_set {CallerMeta Ext}.
Arguments vectorStore_delete {CallerMeta Ext}.
Arguments of_fuel {CallerMeta Ext A}.
Arguments extractText {CallerMeta Ext}.
Arguments getEmbedding {CallerMeta Ext}.
Arguments embed_chunks {CallerMeta Ext}.
Arguments processDocument {CallerMeta Ext}.
Arguments collect_chunks {CallerMeta}.
Arguments score_chunks {CallerMeta}.
Arguments by_score {CallerMeta}.
Arguments top_chunks {CallerMeta}.
Arguments build_context {CallerMeta}.
Arguments format_source {CallerMeta}.
Arguments queryDocuments {CallerMeta Ext}.
Arguments deleteDocument {CallerMeta Ext}.
Arguments getStoreStats {CallerMeta Ext}.
Arguments topK_or_default {CallerMeta}.
Arguments chat_request {CallerMeta}.
Arguments ReqProcess {CallerMeta}.
Arguments ReqQuery {CallerMeta}.
Arguments ReqDelete {CallerMeta}.
Arguments serve {CallerMeta Ext}.
Arguments serve_all {CallerMeta Ext}.

(* ================================================================= *)
(** ** Specification-side notions for the chunker *)

(** [ceil (a / b)] for a positive [b]. *)
Definition ceil_div (a b : Z) : Z := (a + b - 1) / b.

(** The chunks joined again, each but the first without its first
    [overlap] code units (all of it when it is shorter than that). *)
Definition remove_overlaps (overlap : Z) (chunks : list jsstring) : jsstring :=
  match chunks with
  | [] => []
  | c :: rest => c ++ concat (map (skipn (Z.to_nat overlap)) rest)
  end.

(** The [n] windows of the chunker from offset [start] on. *)
Fixpoint windows (size overlap : Z) (n : nat) (text : jsstring) (start : Z)
  : list jsstring :=
  match n with
  | O => []
  | S n' =>
      js_slice text start (Z.min (start + size) (js_length text))
      :: windows size overlap n' text (start + (size - overlap))
  end.

(** A text of [n] code units, all the digit zero. *)
Definition digits (n : nat) : jsstring := repeat 48%N n.

(* ================================================================= *)
(** ** Specification-side notions for the service *)

(** The calls awaited between two states of the world. *)
Definition new_events {CallerMeta Ext} (w w' : World CallerMeta Ext)
  : list Event :=
  skipn (length (trace w)) (trace w').

Definition is_fulfilled_embedding (e : Event) : bool :=
  is_embedding e && ev_fulfilled e.

(** The world after an awaited call [c] that settled as [r] and left the
    outside in state [x]. *)
Definition after_call {CallerMeta Ext A} (w : World CallerMeta Ext)
           (c : Call) (r : Settled A) (x : Ext) : World CallerMeta Ext :=
  {| svc := svc w; ext := x;
     trace := trace w ++ [{| ev_call := c; ev_fulfilled := is_fulfilled r |}] |}.

(** The service with another vector store. *)
Definition with_store {CallerMeta} (s : RAGService CallerMeta)
           (store : JSMap (list (Chunk CallerMeta))) : RAGService CallerMeta :=
  {| available := available s; vectorStore := store;
     chunkSize := chunkSize s; chunkOverlap := chunkOverlap s;
     topK := topK s; temperature := temperature s |}.

(** No chunk of the store has an empty text. *)
Definition store_texts_nonempty {CallerMeta}
           (store : JSMap (list (Chunk CallerMeta))) : Prop :=
  Forall (fun entry => Forall (fun c => text c <> []) (snd entry)) store.

(** The chunks stored under [docId], none when it is absent. *)
Definition chunks_of {CallerMeta} (store : JSMap (list (Chunk CallerMeta)))
           (docId : jsstring) : list (Chunk CallerMeta) :=
  match map_get store docId with
  | Some chunks => chunks
  | None => []
  end.

Definition is_stored {CallerMeta} (store : JSMap (list (Chunk CallerMeta)))
           (docId : jsstring) : bool :=
  match map_get store docId with
  | Some _ => true
  | None => false
  end.

(* ================================================================= *)
(** ** Specification-side notions for doubles *)

(** The place of a double that is not NaN in the order of the doubles, as
    a triple compared lexicographically: the sign class first, then the
    exponent and the mantissa, both negated for negative numbers.  The two
    zeros share a place. *)
Definition SFord (x : spec_float) : Z * Z * Z :=
  match x with
  | S754_infinity true => (-2, 0, 0)
  | S754_finite true m e => (-1, - e, - Zpos m)
  | S754_zero _ => (0, 0, 0)
  | S754_nan => (0, 0, 0)
  | S754_finite false m e => (1, e, Zpos m)
  | S754_infinity false => (2, 0, 0)
  end.

Definition lex_lt (p q : Z * Z * Z) : Prop :=
  let '(a, b, c) := p in
  let '(a', b', c') := q in
  a < a' \/ (a = a' /\ (b < b' \/ (b = b' /\ c < c'))).

(** The place of a number. *)
Definition place (x : number) : Z * Z * Z := SFord (Prim2SF x).

(** The comparator [comparefn] agrees with the places [rk] on the elements
    of [l]: it is positive exactly on the pairs that are out of order. *)
Definition consistent_on {A} (comparefn : A -> A -> number)
           (rk : A -> Z * Z * Z) (l : list A) : Prop :=
  forall x y, In x l -> In y l ->
    ((zero <? comparefn x y)%float = true <-> lex_lt (rk x) (rk y)).

(* ================================================================= *)
(** ** Scripted providers, for running the service on examples *)

(** The outside world as three queues of prepared replies; a call takes
    the next reply of its queue and is rejected when the queue is empty. *)
Record Script := {
  embedding_replies : list (Settled (list number));
  completion_replies : list (Settled jsstring);
  pdf_replies : list (Settled jsstring)
}.

Definition scripted_embeddings_create (model input : jsstring) (s : Script)
  : Settled (list number) * Script :=
  match embedding_replies s with
  | [] => (Rejected (Error (lit "Connection error.")), s)
  | r :: rest =>
      (r, {| embedding_replies := rest;
             completion_replies := completion_replies s;
             pdf_replies := pdf_replies s |})
  end.

Definition scripted_chat_completions_create (req : ChatRequest) (s : Script)
  : Settled jsstring * Script :=
  match completion_replies s with
  | [] => (Rejected (Error (lit "Connection error.")), s)
  | r :: rest =>
      (r, {| embedding_replies := embedding_replies s;
             completion_replies := rest;
             pdf_replies := pdf_replies s |})
  end.

Definition scripted_pdf (content : Buffer) (s : Script)
  : Settled jsstring * Script :=
  match pdf_replies s with
  | [] => (Rejected (Error (lit "Invalid PDF structure")), s)
  | r :: rest =>
      (r, {| embedding_replies := embedding_replies s;
             completion_replies := completion_replies s;
             pdf_replies := rest |})
  end.

(** [toString('utf-8')] and [toLowerCase] on ASCII input. *)
Definition ascii_toString (content : Buffer) : jsstring := map Byte.to_N content.

Definition ascii_toLowerCase (s : jsstring) : jsstring :=
  map (fun c => if (65 <=? c)%N && (c <=? 90)%N then (c + 32)%N else c) s.

Definition buffer_of (s : string) : Buffer :=
  map byte_of_ascii (list_ascii_of_string s).

(** The service on scripted providers. *)
Definition scripted_processDocument :=
  @processDocument unit Script scripted_pdf scripted_embeddings_create
                   ascii_toString ascii_toLowerCase.

Definition scripted_queryDocuments :=
  @queryDocuments unit Script scripted_embeddings_create
                  scripted_chat_completions_create.

Definition scripted_extractText :=
  @extractText unit Script scripted_pdf ascii_toString ascii_toLowerCase.

(** A freshly constructed service with the given chunk size and overlap. *)
Definition fresh_service (size overlap : Z) : RAGService unit :=
  RAGService_new
    {| openaiApiKey := lit "sk-test"; cfg_chunkSize := size;
       cfg_chunkOverlap := overlap; similarityTopK := 5;
       llmTemperature := 0x1.999999999999ap-4%float |} true.

(** A service facing the given replies, nothing awaited yet. *)
Definition scripted_world (s : RAGService unit)
           (embeddings : list (Settled (list number)))
           (completions : list (Settled jsstring)) : World unit Script :=
  {| svc := s;
     ext := {| embedding_replies := embeddings;
               completion_replies := completions;
               pdf_replies := [] |};
     trace := [] |}.

Definition fresh_world (size overlap : Z)
           (embeddings : list (Settled (list number)))
           (completions : list (Settled jsstring)) : World unit Script :=
  scripted_world (fresh_service size overlap) embeddings completions.

(** A stored chunk of the document [blob-1]. *)
Definition stored_chunk (i : nat) (t : string) (e : list number) : Chunk unit :=
  {| chunkIndex := i; text := lit t; embedding := e;
     metadata := {| md_caller := tt; md_filename := lit "notes.txt";
                    md_blobId := lit "blob-1" |} |}.

(** The default service holding one document of the given chunks. *)
Definition service_with (chunks : list (Chunk unit)) : RAGService unit :=
  with_store (fresh_service 1000 200) [(lit "blob-1", chunks)].

(* ================================================================= *)
(** ** The remaining methods of the service *)

(** Result of [getDocumentStats]. *)
Record DocumentStats := {
  ds_blobId : jsstring;
  ds_totalChunks : Z;
  ds_exists : bool
}.

(** [getDocumentStats]: an array is truthy even when it is empty, so
    [exists] tells whether the key is present. *)
Definition getDocumentStats {CallerMeta Ext} (blobId : jsstring)
  : M CallerMeta Ext DocumentStats :=
  bind this (fun s =>
    let chunks := map_get (vectorStore s) blobId in
    ret {| ds_blobId := blobId;
           ds_totalChunks := match chunks with
                             | Some chunks => js_length chunks
                             | None => 0
                             end;
           ds_exists := match chunks with
                        | Some _ => true
                        | None => false
                        end |}).

Definition isAvailable {CallerMeta Ext} : M CallerMeta Ext bool :=
  bind this (fun s => ret (available s)).

(** What every store built by the service satisfies: no document id occurs
    twice, and each document has at least one chunk, its chunks numbered
    from 0 in order and carrying the id of the document. *)
Definition document_well_formed {CallerMeta}
           (entry : jsstring * list (Chunk CallerMeta)) : Prop :=
  snd entry <> []
  /\ map chunkIndex (snd entry) = seq 0 (length (snd entry))
  /\ Forall (fun c => md_blobId (metadata c) = fst entry) (snd entry).

Definition store_well_formed {CallerMeta}
           (store : JSMap (list (Chunk CallerMeta))) : Prop :=
  NoDup (map fst store) /\ Forall document_well_formed store.

(** A number that is a zero or NaN. *)
Definition zero_or_nan (x : number) : Prop :=
  Prim2SF x = S754_nan \/ exists s, Prim2SF x = S754_zero s.

(* ================================================================= *)
(** ** The chunker under every setting [parseInt] can give *)

(** [config.chunkSize] and [config.chunkOverlap] are results of [parseInt]:
    an integer, an infinity (a setting of more than 308 digits) or NaN (a
    setting that is no number).  Sums and differences of such numbers are of
    the same kind. *)
Inductive JSInteger :=
| Integer (z : Z)
| PlusInfinity
| MinusInfinity
| NotANumber.

(** [a + b] *)
Definition js_add (a b : JSInteger) : JSInteger :=
  match a, b with
  | NotANumber, _ | _, NotANumber => NotANumber
  | PlusInfinity, MinusInfinity | MinusInfinity, PlusInfinity => NotANumber
  | PlusInfinity, _ | _, PlusInfinity => PlusInfinity
  | MinusInfinity, _ | _, MinusInfinity => MinusInfinity
  | Integer x, Integer y => Integer (x + y)
  end.

(** [a - b] *)
Definition js_sub (a b : JSInteger) : JSInteger :=
  match a, b with
  | NotANumber, _ | _, NotANumber => NotANumber
  | PlusInfinity, PlusInfinity | MinusInfinity, MinusInfinity => NotANumber
  | PlusInfinity, _ | _, MinusInfinity => PlusInfinity
  | MinusInfinity, _ | _, PlusInfinity => MinusInfinity
  | Integer x, Integer y => Integer (x - y)
  end.

(** [a < b]: false as soon as one side is NaN. *)
Definition js_ltb (a b : JSInteger) : bool :=
  match a, b with
  | NotANumber, _ | _, NotANumber => false
  | Integer x, Integer y => x <? y
  | _, MinusInfinity => false
  | MinusInfinity, _ => true
  | PlusInfinity, _ => false
  | Integer _, PlusInfinity => true
  end.

(** [a <= b]: false as soon as one side is NaN. *)
Definition js_leb (a b : JSInteger) : bool :=
  match a, b with
  | NotANumber, _ | _, NotANumber => false
  | Integer x, Integer y => x <=? y
  | MinusInfinity, _ => true
  | _, PlusInfinity => true
  | PlusInfinity, _ => false
  | Integer _, MinusInfinity => false
  end.

(** [a >= b] *)
Definition js_geb (a b : JSInteger) : bool := js_leb b a.

(** [Math.min(a, b)]: NaN as soon as one argument is NaN. *)
Definition Math_min (a b : JSInteger) : JSInteger :=
  match a, b with
  | NotANumber, _ | _, NotANumber => NotANumber
  | _, _ => if js_ltb a b then a else b
  end.

(** The position [slice] makes of an argument for a string of [len] code
    units: NaN counts as 0, a negative number counts from the end, and the
    result is clamped to [0, len]. *)
Definition relative_index (len : Z) (x : JSInteger) : Z :=
  match x with
  | NotANumber => 0
  | MinusInfinity => 0
  | PlusInfinity => len
  | Integer z => if z <? 0 then Z.max (len + z) 0 else Z.min z len
  end.

(** [s.slice(start, end)] for such arguments. *)
Definition js_slice_any {A} (s : list A) (start end_ : JSInteger) : list A :=
  let len := js_length s in
  let from := relative_index len start in
  let to := relative_index len end_ in
  firstn (Z.to_nat (to - from)) (skipn (Z.to_nat from) s).

(** A number that is not above zero: an integer that is not positive, or
    minus infinity. *)
Definition not_above_zero (x : JSInteger) : Prop :=
  match x with
  | Integer z => z <= 0
  | MinusInfinity => True
  | _ => False
  end.

Section ChunkerAnySetting.

Variables chunkSize chunkOverlap : JSInteger.

(** The [while] loop of [splitIntoChunks] once more, the settings and
    [start] being any of these numbers.  Integers are added exactly: a
    double holds every integer below 2^53, which no text length reaches, and
    a sum or difference that a double has to round lies on the same side of
    [text.length] and of zero as the exact one. *)
Fixpoint splitIntoChunks_any_loop (fuel : nat) (text : jsstring)
         (start : JSInteger) (chunks : list jsstring)
  : option (list jsstring) :=
  match fuel with
  | O => None
  | S fuel' =>
      if js_ltb start (Integer (js_length text)) then
        let end_ := Math_min (js_add start chunkSize)
                             (Integer (js_length text)) in
        let chunks := chunks ++ [js_slice_any text start end_] in
        let start := js_add start (js_sub chunkSize chunkOverlap) in
        (* Prevent infinite loop *)
        if js_geb start (Integer (js_length text)) then Some chunks
        else splitIntoChunks_any_loop fuel' text start chunks
      else Some chunks
  end.

Definition splitIntoChunks_any (fuel : nat) (text : jsstring)
  : option (list jsstring) :=
  splitIntoChunks_any_loop fuel text (Integer 0) [].

End ChunkerAnySetting.

(* ================================================================= *)
(** ** The routes that call the service *)

(** The metadata object the upload route hands to [processDocument]. *)
Record UploadMeta := {
  walletAddress : jsstring;
  isPublic : bool;
  uploadedAt : Z
}.

(** [req.file] as multer leaves it. *)
Record UploadedFile := {
  buffer : Buffer;
  originalname : jsstring
}.

(** What [walrusService.uploadBlob] resolves to. *)
Record WalrusResult := {
  wr_blobId : jsstring;
  wr_suiRefType : jsstring;
  wr_certifiedEpoch : Z
}.

(** [sui_transaction_data] of the upload response. *)
Record SuiTransactionData := {
  package_id : jsstring;
  module_name : jsstring;
  function_name : jsstring;
  arg_name : jsstring;
  arg_walrus_blob_id : jsstring;
  arg_is_public : bool;
  gas_budget : Z
}.

(** The JSON bodies the routes send. *)
Inductive Body :=
| ErrorBody (error message : jsstring)
| UploadBody (walrus_blob_id message : jsstring)
             (sui_transaction_data : option SuiTransactionData)
             (rag_processed : bool) (chunks_created : Z)
| DeleteBody (message blob_id : jsstring) (deleted_chunks : Z)
| StatsBody (blob_id : jsstring) (total_chunks : Z) (exists_ : bool)
| QueryBody (answer : jsstring) (sources : list Source) (question : jsstring).

(** A response: [res.status(code).json(body)], the status being 200 when
    [res.json] is called alone. *)
Record Response := {
  status : Z;
  body : Body
}.

(** [!value] for a request field that is a string or missing. *)
Definition missing (field : option jsstring) : bool :=
  match field with
  | Some value => js_length value =? 0
  | None => true
  end.

Section Routes.

Context {Ext : Type}.
Variable pdf : Buffer -> Ext -> Settled jsstring * Ext.
Variable embeddings_create : jsstring -> jsstring -> Ext -> Settled (list number) * Ext.
Variable chat_completions_create : ChatRequest -> Ext -> Settled jsstring * Ext.
Variable toString_utf8 : Buffer -> jsstring.
Variable toLowerCase : jsstring -> jsstring.

(** [walrusService.uploadBlob], [Date.now] and the two Sui settings of
    [config]. *)
Variable uploadBlob : Buffer -> Ext -> Settled WalrusResult * Ext.
Variable Date_now : Ext -> Z.
Variables suiPackageId suiModuleName : jsstring.

(** Awaiting a call that is not one of the calls of the service: the
    outside world moves on, a rejected promise throws. *)
Definition await_other {CallerMeta A} (call : Ext -> Settled A * Ext)
  : M CallerMeta Ext A :=
  fun w =>
    let '(r, x) := call (ext w) in
    let w' := {| svc := svc w; ext := x; trace := trace w |} in
    match r with
    | Fulfilled a => (Returned a, w')
    | Rejected e => (Thrown e, w')
    end.

(** [POST /upload-document] *)
Definition post_upload_document (fuel : nat) (file : option UploadedFile)
           (wallet_address is_public : option jsstring)
  : M UploadMeta Ext Response :=
  try_catch
    (let isPublic := match is_public with
                     | Some value => jsstring_eqb value (lit "true")
                     | None => false
                     end in
     match file with
     | None =>
         ret {| status := 400;
                body := ErrorBody (lit "No file provided")
                                  (lit "Please upload a file") |}
     | Some file =>
         if missing wallet_address then
           ret {| status := 400;
                  body := ErrorBody (lit "No wallet address provided")
                                    (lit "Please provide a wallet address") |}
         else
           let walletAddress := match wallet_address with
                                | Some value => value
                                | None => []
                                end in
           (* 1. Upload to Walrus *)
           bind (await_other (uploadBlob (buffer file))) (fun walrusResult =>
           (* 2. Process for RAG (if available) *)
           bind isAvailable (fun is_available =>
           bind (if is_available then
                   bind (fun w => (Returned (Date_now (ext w)), w)) (fun now =>
                   bind (processDocument pdf embeddings_create toString_utf8
                                         toLowerCase fuel
                                         (wr_blobId walrusResult) (buffer file)
                                         (originalname file)
                                         {| walletAddress := walletAddress;
                                            isPublic := isPublic;
                                            uploadedAt := now |})
                        (fun ragResult => ret (Some ragResult)))
                 else ret None) (fun ragResult =>
           (* 3. Prepare Sui transaction data for frontend to execute *)
           let suiTransactionData :=
             if js_length suiPackageId =? 0 then None
             else Some {| package_id := suiPackageId;
                          module_name := suiModuleName;
                          function_name := lit "mint_document";
                          arg_name := originalname file;
                          arg_walrus_blob_id := wr_blobId walrusResult;
                          arg_is_public := isPublic;
                          gas_budget := 10000000 |} in
           ret {| status := 200;
                  body := UploadBody
                            (wr_blobId walrusResult)
                            (lit "Document uploaded to Walrus. Please sign the Sui transaction to complete.")
                            suiTransactionData
                            match ragResult with
                            | Some r => ir_success r
                            | None => false
                            end
                            match ragResult with
                            | Some r => ir_chunksCreated r
                            | None => 0
                            end |})))
     end)
    (fun error =>
       ret {| status := 500;
              body := ErrorBody (lit "Upload failed") (message error) |}).

(** [DELETE /documents/:blobId] *)
Definition delete_documents {CallerMeta} (blobId : jsstring)
  : M CallerMeta Ext Response :=
  try_catch
    (bind (deleteDocument blobId) (fun result =>
     ret {| status := 200;
            body := DeleteBody (lit "Document embeddings deleted") blobId
                               (dr_deletedChunks result) |}))
    (fun error =>
       ret {| status := 500;
              body := ErrorBody (lit "Delete failed") (message error) |}).

(** [GET /stats/:blobId] *)
Definition get_stats {CallerMeta} (blobId : jsstring)
  : M CallerMeta Ext Response :=
  try_catch
    (bind (getDocumentStats blobId) (fun stats =>
     ret {| status := 200;
            body := StatsBody (ds_blobId stats) (ds_totalChunks stats)
                              (ds_exists stats) |}))
    (fun error =>
       ret {| status := 500;
              body := ErrorBody (lit "Failed to get stats") (message error) |}).

(** [POST /query]: [document_ids] is an array of ids, or [null] or
    missing; the route passes no [topK]. *)
Definition post_query {CallerMeta} (question : option jsstring)
           (document_ids : option (list jsstring))
  : M CallerMeta Ext Response :=
  try_catch
    (match question with
     | Some question_ =>
         if js_length question_ =? 0 then
           ret {| status := 400;
                  body := ErrorBody (lit "No question provided")
                                    (lit "Please provide a question") |}
         else
           bind isAvailable (fun is_available =>
           if negb is_available then
             ret {| status := 503;
                    body := ErrorBody
                              (lit "RAG service unavailable")
                              (lit "The AI query service is not configured. Please set OPENAI_API_KEY.") |}
           else
             bind (queryDocuments embeddings_create chat_completions_create
                                  question_ document_ids None)
                  (fun result =>
             ret {| status := 200;
                    body := QueryBody (qr_answer result) (qr_sources result)
                                      (qr_question result) |}))
     | None =>
         ret {| status := 400;
                body := ErrorBody (lit "No question provided")
                                  (lit "Please provide a question") |}
     end)
    (fun error =>
       ret {| status := 500;
              body := ErrorBody (lit "Query failed") (message error) |}).

End Routes.
(* ================================================================= *)
(** * Facts *)

(** ** Slices *)

Lemma js_length_nonneg {A} (s : list A) : 0 <= js_length s.
Proof. unfold js_length. lia. Qed.

Lemma js_slice_nonneg {A} (s : list A) (a b : Z) :
  0 <= a -> 0 <= b ->
  js_slice s a b =
  firstn (Z.to_nat (Z.min b (js_length s)) - Z.to_nat (Z.min a (js_length s)))
         (skipn (Z.to_nat (Z.min a (js_length s))) s).
Proof.
  intros Ha Hb. unfold js_slice.
  destruct (Z.ltb_spec a 0); [lia|].
  destruct (Z.ltb_spec b 0); [lia|].
  f_equal. pose proof (js_length_nonneg s). lia.
Qed.

Lemma js_slice_all {A} (s : list A) (b : Z) :
  js_length s <= b -> js_slice s 0 b = s.
Proof.
  intros Hb. pose proof (js_length_nonneg s) as Hl.
  rewrite js_slice_nonneg by lia.
  rewrite Z.min_r by lia. rewrite Z.min_l by lia.
  simpl. rewrite Nat.sub_0_r. unfold js_length.
  rewrite Nat2Z.id. apply firstn_all.
Qed.

Lemma js_slice_length {A} (s : list A) (a b : Z) :
  0 <= a -> a <= b -> b <= js_length s ->
  js_length (js_slice s a b) = b - a.
Proof.
  intros Ha Hab Hb. rewrite js_slice_nonneg by lia.
  rewrite !Z.min_l by lia. unfold js_length in *.
  rewrite length_firstn, length_skipn. lia.
Qed.

Lemma js_slice_empty {A} (s : list A) (a b : Z) :
  0 <= b -> b <= a -> js_slice s a b = [].
Proof.
  intros Hb Hba. rewrite js_slice_nonneg by lia.
  replace (Z.to_nat (Z.min b (js_length s)) - Z.to_nat (Z.min a (js_length s)))%nat
    with 0%nat by lia.
  reflexivity.
Qed.

Lemma firstn_plus {A} (p q : nat) (l : list A) :
  firstn (p + q) l = firstn p l ++ firstn q (skipn p l).
Proof.
  revert l. induction p as [|p IH]; intros l; [reflexivity|].
  destruct l as [|x l]; simpl.
  - now rewrite firstn_nil.
  - now rewrite IH.
Qed.

(** Two adjacent pieces make one. *)
Lemma firstn_skipn_glue {A} (s : list A) (a b c : nat) :
  (a <= b)%nat -> (b <= c)%nat ->
  firstn (b - a) (skipn a s) ++ firstn (c - b) (skipn b s)
  = firstn (c - a) (skipn a s).
Proof.
  intros Hab Hbc.
  replace (c - a)%nat with ((b - a) + (c - b))%nat by lia.
  rewrite firstn_plus. f_equal. rewrite skipn_skipn.
  replace (b - a + a)%nat with b by lia. reflexivity.
Qed.

Lemma js_slice_glue {A} (s : list A) (a b c : Z) :
  0 <= a -> a <= b -> b <= c ->
  js_slice s a b ++ js_slice s b c = js_slice s a c.
Proof.
  intros Ha Hab Hbc. rewrite !js_slice_nonneg by lia.
  apply firstn_skipn_glue; lia.
Qed.

(** Dropping a prefix of a slice moves its start, but not past its end. *)
Lemma skipn_js_slice {A} (s : list A) (a b : Z) (n : nat) :
  0 <= a -> a <= b -> b <= js_length s ->
  skipn n (js_slice s a b) = js_slice s (Z.min (a + Z.of_nat n) b) b.
Proof.
  intros Ha Hab Hb.
  rewrite !js_slice_nonneg by lia.
  rewrite !Z.min_l by lia.
  rewrite skipn_firstn_comm, skipn_skipn.
  destruct (Z.le_gt_cases (a + Z.of_nat n) b).
  - rewrite Z.min_l by lia. f_equal; [lia|]. f_equal. lia.
  - rewrite Z.min_r by lia. 
    replace (Z.to_nat b - Z.to_nat a - n)%nat with 0%nat by lia.
    replace (Z.to_nat b - Z.to_nat b)%nat with 0%nat by lia.
    reflexivity.
Qed.

(** ** The chunker *)

Lemma ceil_div_pos (a b : Z) : 0 < a -> 0 < b -> 0 < ceil_div a b.
Proof.
  intros Ha Hb. unfold ceil_div.
  apply Z.div_str_pos. lia.
Qed.

Lemma ceil_div_one (a b : Z) : 0 < a -> a <= b -> ceil_div a b = 1.
Proof.
  intros Ha Hb. unfold ceil_div.
  symmetry. apply Z.div_unique with (r := a - 1); lia.
Qed.

Lemma ceil_div_step (a b : Z) : 0 < b -> ceil_div (a - b) b = ceil_div a b - 1.
Proof.
  intros Hb. unfold ceil_div.
  replace (a - b + b - 1) with ((a + b - 1) + (-1) * b) by lia.
  rewrite Z.div_add by lia. lia.
Qed.

(** [ceil_div a b] is the least [n] with [a <= n * b]. *)
Lemma ceil_div_bounds (a b : Z) :
  0 < b -> (ceil_div a b - 1) * b < a <= ceil_div a b * b.
Proof.
  intros Hb. unfold ceil_div.
  pose proof (Z.div_mod (a + b - 1) b ltac:(lia)) as Hdm.
  pose proof (Z.mod_pos_bound (a + b - 1) b Hb) as Hm.
  nia.
Qed.

Section ChunkerFacts.

Variables size overlap : Z.
Variable text : jsstring.

Let stride := size - overlap.
Let len := js_length text.

Lemma length_windows (n : nat) (start : Z) :
  length (windows size overlap n text start) = n.
Proof.
  revert start. induction n as [|n IH]; intros start; simpl; [reflexivity|].
  now rewrite IH.
Qed.

Lemma nth_windows (n i : nat) (start : Z) :
  (i < n)%nat ->
  nth i (windows size overlap n text start) [] =
  js_slice text (start + Z.of_nat i * stride)
           (Z.min (start + Z.of_nat i * stride + size) len).
Proof.
  revert i start. induction n as [|n IH]; intros i start Hi; [lia|].
  destruct i as [|i]; simpl windows; cbn [nth].
  - f_equal; lia.
  - rewrite IH by lia. subst stride. f_equal; [lia|f_equal; lia].
Qed.

(** The loop appends the windows still to come, as many as the stride
    fits into what is left of the text, rounded up. *)
Lemma splitIntoChunks_loop_windows (fuel : nat) :
  0 < stride ->
  forall (start : Z) (chunks : list jsstring),
    start < len ->
    (Z.to_nat (ceil_div (len - start) stride) <= fuel)%nat ->
    splitIntoChunks_loop size overlap fuel text start chunks =
    Some (chunks ++ windows size overlap
                      (Z.to_nat (ceil_div (len - start) stride)) text start).
Proof.
  intros Hstride. induction fuel as [|fuel IH]; intros start chunks Hlt Hfuel.
  - pose proof (ceil_div_pos (len - start) stride ltac:(lia) Hstride). lia.
  - simpl. fold len. destruct (Z.ltb_spec start len); [|lia].
    fold stride. destruct (Z.geb_spec (start + stride) len) as [Hge|Hnext].
    + rewrite ceil_div_one by lia. reflexivity.
    + rewrite IH; [|lia|].
      * replace (len - (start + stride)) with (len - start - stride) by lia.
        rewrite ceil_div_step by lia.
        pose proof (ceil_div_pos (len - start) stride ltac:(lia) Hstride).
        replace (Z.to_nat (ceil_div (len - start) stride))
          with (S (Z.to_nat (ceil_div (len - start) stride - 1))) by lia.
        simpl. rewrite <- app_assoc. reflexivity.
      * replace (len - (start + stride)) with (len - start - stride) by lia.
        rewrite ceil_div_step by lia. lia.
Qed.

(** Whatever the fuel, a result of the loop is made of these windows. *)
Lemma splitIntoChunks_loop_sound (fuel : nat) :
  0 < stride ->
  forall (start : Z) (chunks result : list jsstring),
    start < len ->
    splitIntoChunks_loop size overlap fuel text start chunks = Some result ->
    result = chunks ++ windows size overlap
                         (Z.to_nat (ceil_div (len - start) stride)) text start.
Proof.
  intros Hstride. induction fuel as [|fuel IH]; intros start chunks result Hlt;
    [discriminate|].
  simpl. fold len. destruct (Z.ltb_spec start len); [|lia].
  fold stride. destruct (Z.geb_spec (start + stride) len) as [Hge|Hnext].
  - intros [= <-]. rewrite ceil_div_one by lia. reflexivity.
  - intros Hrun. apply IH in Hrun; [|lia]. subst result.
    replace (len - (start + stride)) with (len - start - stride) by lia.
    rewrite ceil_div_step by lia.
    pose proof (ceil_div_pos (len - start) stride ltac:(lia) Hstride).
    replace (Z.to_nat (ceil_div (len - start) stride))
      with (S (Z.to_nat (ceil_div (len - start) stride - 1))) by lia.
    simpl. rewrite <- app_assoc. reflexivity.
Qed.

(** An empty text gives no chunk, whatever the configuration. *)
Lemma splitIntoChunks_empty (fuel : nat) :
  len = 0 -> splitIntoChunks size overlap (S fuel) text = Some [].
Proof.
  intros H0. unfold splitIntoChunks. simpl. fold len. rewrite H0. reflexivity.
Qed.

(** With a stride that does not advance, the loop is never left. *)
Lemma splitIntoChunks_loop_diverges (fuel : nat) :
  stride <= 0 ->
  forall (start : Z) (chunks : list jsstring),
    start < len ->
    splitIntoChunks_loop size overlap fuel text start chunks = None.
Proof.
  intros Hstride. induction fuel as [|fuel IH]; intros start chunks Hlt;
    [reflexivity|].
  simpl. fold len. destruct (Z.ltb_spec start len); [|lia].
  fold stride. destruct (Z.geb_spec (start + stride) len); [lia|].
  apply IH. lia.
Qed.

(** The windows, each but the first cut by [overlap], tile the text from
    the end of the window before them. *)
Lemma windows_tile (n : nat) :
  0 <= overlap -> overlap < size ->
  forall start : Z,
    0 <= start ->
    concat (map (skipn (Z.to_nat overlap))
                (windows size overlap n text (start + stride)))
    = js_slice text (Z.min (start + size) len)
               (Z.min (start + Z.of_nat n * stride + size) len).
Proof.
  intros Ho Hs.
  assert (Hst : stride = size - overlap) by reflexivity.
  pose proof (js_length_nonneg text) as Hl. fold len in Hl.
  induction n as [|n IH]; intros start Hstart.
  - cbn [windows map concat]. rewrite Z.mul_0_l, Z.add_0_r.
    symmetry. apply js_slice_empty; [apply Z.min_glb; lia|apply Z.le_refl].
  - cbn [windows map concat]. fold stride. fold len.
    rewrite IH by lia.
    replace (start + Z.of_nat (S n) * stride + size)
      with (start + stride + Z.of_nat n * stride + size)
      by (rewrite Nat2Z.inj_succ; ring).
    assert (Hn : 0 <= Z.of_nat n * stride)
      by (apply Z.mul_nonneg_nonneg; lia).
    set (e0 := Z.min (start + size) len).
    set (e1 := Z.min (start + stride + size) len).
    set (e2 := Z.min (start + stride + Z.of_nat n * stride + size) len).
    assert (H0 : 0 <= e0) by (apply Z.min_glb; lia).
    assert (H01 : e0 <= e1) by (apply Z.min_le_compat_r; lia).
    assert (H12 : e1 <= e2) by (apply Z.min_le_compat_r; lia).
    assert (H2 : e2 <= len) by apply Z.le_min_r.
    destruct (Z.le_gt_cases (start + stride) len) as [Hin|Hpast].
    + rewrite skipn_js_slice;
        [|lia|apply Z.min_glb; lia|apply Z.le_min_r].
      rewrite Z2Nat.id by exact Ho.
      replace (Z.min (start + stride + overlap) e1) with e0.
      * apply js_slice_glue; assumption.
      * subst e0 e1.
        replace (start + stride + overlap) with (start + size) by lia.
        rewrite Z.min_assoc.
        now rewrite (Z.min_l (start + size) (start + stride + size)) by lia.
    + assert (He0 : e0 = len) by (apply Z.min_r; lia).
      rewrite (js_slice_empty text (start + stride) e1) by lia.
      rewrite skipn_nil. cbn [app].
      replace e1 with e0 by lia. reflexivity.
Qed.

End ChunkerFacts.

(** The chunks of a non-empty text under a stride that advances. *)
Lemma splitIntoChunks_windows (size overlap : Z) (text : jsstring) (fuel : nat) :
  0 < size - overlap -> 0 < js_length text ->
  (Z.to_nat (ceil_div (js_length text) (size - overlap)) <= fuel)%nat ->
  splitIntoChunks size overlap fuel text =
  Some (windows size overlap
                (Z.to_nat (ceil_div (js_length text) (size - overlap))) text 0).
Proof.
  intros Hstride Hlen Hfuel. unfold splitIntoChunks.
  rewrite splitIntoChunks_loop_windows; rewrite ?Z.sub_0_r; auto.
Qed.

Lemma splitIntoChunks_sound (size overlap : Z) (text : jsstring) (fuel : nat)
      (chunks : list jsstring) :
  0 < size - overlap -> 0 < js_length text ->
  splitIntoChunks size overlap fuel text = Some chunks ->
  chunks = windows size overlap
                   (Z.to_nat (ceil_div (js_length text) (size - overlap))) text 0.
Proof.
  intros Hstride Hlen Hrun. unfold splitIntoChunks in Hrun.
  apply splitIntoChunks_loop_sound in Hrun; auto.
  now rewrite Z.sub_0_r in Hrun.
Qed.

(** With a positive chunk size and a stride that advances, every window
    that starts inside the text is non-empty. *)
Lemma windows_nonempty (size overlap : Z) (text : jsstring) (n : nat) :
  0 < size -> 0 < size - overlap ->
  forall start : Z,
    0 <= start ->
    start + (Z.of_nat n - 1) * (size - overlap) < js_length text ->
    Forall (fun c => c <> []) (windows size overlap n text start).
Proof.
  intros Hsize Hstride. induction n as [|n IH]; intros start Hstart Hlast;
    [constructor|].
  cbn [windows]. constructor.
  - intros Hnil. apply (f_equal js_length) in Hnil.
    rewrite js_slice_length in Hnil by nia.
    cbn in Hnil. nia.
  - apply IH; nia.
Qed.

Lemma splitIntoChunks_nonempty (size overlap : Z) (text : jsstring)
      (fuel : nat) (chunks : list jsstring) :
  0 < size -> 0 < js_length text ->
  splitIntoChunks size overlap fuel text = Some chunks ->
  Forall (fun c => c <> []) chunks.
Proof.
  intros Hsize Hlen Hrun.
  destruct (Z.lt_ge_cases 0 (size - overlap)) as [Hstride|Hstride].
  - apply splitIntoChunks_sound in Hrun; auto. subst chunks.
    pose proof (ceil_div_bounds (js_length text) (size - overlap) Hstride).
    pose proof (ceil_div_pos (js_length text) (size - overlap) Hlen Hstride).
    apply windows_nonempty; auto; lia.
  - unfold splitIntoChunks in Hrun.
    rewrite splitIntoChunks_loop_diverges in Hrun; auto. discriminate.
Qed.

(** ** Claims on the chunker *)




(** C3 (as amended).  For a non-empty text and [0 <= overlap < size] the
    chunker returns [ceil (L / (size - overlap))] chunks, chunk [i] being
    the slice from [i * (size - overlap)] to that offset plus [size],
    clipped to [L]; the last chunk ends at [L]; and the chunks joined with
    the overlapping prefixes removed are the text. *)
Theorem splitIntoChunks_count_and_cover (size overlap : Z) (text : jsstring) :
  0 < js_length text -> 0 <= overlap -> overlap < size ->
  exists chunks : list jsstring,
    (forall fuel : nat,
        (length chunks <= fuel)%nat ->
        splitIntoChunks size overlap fuel text = Some chunks)
    /\ js_length chunks = ceil_div (js_length text) (size - overlap)
    /\ (forall i : nat,
           (i < length chunks)%nat ->
           nth i chunks [] =
           js_slice text (Z.of_nat i * (size - overlap))
                    (Z.min (Z.of_nat i * (size - overlap) + size)
                           (js_length text)))
    /\ Z.min ((js_length chunks - 1) * (size - overlap) + size) (js_length text)
       = js_length text
    /\ remove_overlaps overlap chunks = text.
Proof.
  intros Hpos Hov Hsize.
  pose proof (ceil_div_pos (js_length text) (size - overlap) Hpos ltac:(lia)) as Hn.
  pose proof (ceil_div_bounds (js_length text) (size - overlap) ltac:(lia)) as Hb.
  set (n := Z.to_nat (ceil_div (js_length text) (size - overlap))) in *.
  assert (Hsn : n = S (Nat.pred n)) by lia.
  exists (windows size overlap n text 0).
  assert (Hlen : js_length (windows size overlap n text 0)
                 = ceil_div (js_length text) (size - overlap)).
  { unfold js_length at 1. rewrite length_windows. lia. }
  split; [|split; [|split; [|split]]].
  - intros fuel Hfuel. rewrite length_windows in Hfuel.
    now apply splitIntoChunks_windows; [lia| |].
  - exact Hlen.
  - intros i Hi. rewrite length_windows in Hi.
    rewrite nth_windows by exact Hi. f_equal.
  - rewrite Hlen. lia.
  - rewrite Hsn. cbn [windows remove_overlaps].
    rewrite (windows_tile size overlap text (Nat.pred n) Hov Hsize 0 ltac:(lia)).
    rewrite js_slice_glue; [|lia|lia|].
    + rewrite Z.min_r by nia. apply js_slice_all. lia.
    + apply Z.min_le_compat_r. nia.
Qed.

(** C3 (as amended), on an example: 2500 code units under the default
    configuration. *)
Lemma splitIntoChunks_count_and_cover_witness :
  0 < js_length (digits 2500) /\ 0 <= 200 /\ 200 < 1000 /\
  exists chunks : list jsstring,
    (forall fuel : nat,
        (length chunks <= fuel)%nat ->
        splitIntoChunks 1000 200 fuel (digits 2500) = Some chunks)
    /\ js_length chunks = ceil_div (js_length (digits 2500)) (1000 - 200)
    /\ (forall i : nat,
           (i < length chunks)%nat ->
           nth i chunks [] =
           js_slice (digits 2500) (Z.of_nat i * (1000 - 200))
                    (Z.min (Z.of_nat i * (1000 - 200) + 1000)
                           (js_length (digits 2500))))
    /\ Z.min ((js_length chunks - 1) * (1000 - 200) + 1000)
             (js_length (digits 2500))
       = js_length (digits 2500)
    /\ remove_overlaps 200 chunks = digits 2500.
Proof.
  assert (H1 : 0 < js_length (digits 2500)) by reflexivity.
  assert (H2 : 0 <= 200) by discriminate.
  assert (H3 : 200 < 1000) by reflexivity.
  exact (conj H1 (conj H2 (conj H3
           (splitIntoChunks_count_and_cover 1000 200 (digits 2500) H1 H2 H3)))).
Defined.

(** C3, counterexample.  A text of 2500 code units under chunks of 1000
    with an overlap of 200 is cut into 4 chunks, of 1000, 1000, 900 and 100
    code units, while [ceil ((2500 - 200) / (1000 - 200))] is 3. *)
Lemma splitIntoChunks_count_2500 :
  0 < js_length (digits 2500) /\ 0 <= 200 < 1000 /\
  option_map (map js_length) (splitIntoChunks 1000 200 4 (digits 2500))
  = Some [1000; 1000; 900; 100] /\
  ceil_div (js_length (digits 2500) - 200) (1000 - 200) = 3 /\
  (forall (fuel : nat) (chunks : list jsstring),
      splitIntoChunks 1000 200 fuel (digits 2500) = Some chunks ->
      js_length chunks <> ceil_div (js_length (digits 2500) - 200) (1000 - 200)).
Proof.
  split; [reflexivity|]. split; [lia|].
  split; [vm_compute; reflexivity|]. split; [reflexivity|].
  intros fuel chunks Hrun.
  apply splitIntoChunks_sound in Hrun; [|reflexivity|reflexivity].
  subst chunks. unfold js_length at 1. rewrite length_windows.
  vm_compute. discriminate.
Qed.

(** ** IEEE-754 doubles *)

(** *** Digits and shifts of the specification *)

Lemma digits2_pos_bounds (m : positive) :
  2 ^ (Zpos (digits2_pos m) - 1) <= Zpos m < 2 ^ Zpos (digits2_pos m).
Proof.
  induction m as [m IH|m IH|]; cbn [digits2_pos].
  - rewrite Pos2Z.inj_succ.
    replace (Z.succ (Zpos (digits2_pos m)) - 1) with (Z.succ (Zpos (digits2_pos m) - 1)) by lia.
    rewrite !Z.pow_succ_r by lia. lia.
  - rewrite Pos2Z.inj_succ.
    replace (Z.succ (Zpos (digits2_pos m)) - 1) with (Z.succ (Zpos (digits2_pos m) - 1)) by lia.
    rewrite !Z.pow_succ_r by lia. lia.
  - cbn. lia.
Qed.

Lemma shr_1_m (mrs : shr_record) :
  0 <= shr_m mrs -> shr_m (shr_1 mrs) = shr_m mrs / 2.
Proof.
  destruct mrs as [m r s]. cbn [shr_m]. intros Hm.
  destruct m as [|[p|p|]|p]; cbn [shr_1 shr_m].
  - reflexivity.
  - apply Z.div_unique with (r := 1); lia.
  - apply Z.div_unique with (r := 0); lia.
  - reflexivity.
  - lia.
Qed.

Lemma iter_pos_shr_1 (p : positive) :
  forall mrs : shr_record,
    0 <= shr_m mrs ->
    shr_m (iter_pos shr_1 p mrs) = shr_m mrs / 2 ^ Zpos p.
Proof.
  induction p as [p IH|p IH|]; intros mrs Hm; cbn [iter_pos].
  - assert (H1 : 0 <= shr_m (shr_1 mrs)).
    { rewrite shr_1_m by exact Hm. apply Z.div_pos; lia. }
    assert (H2 : 0 <= shr_m (iter_pos shr_1 p (shr_1 mrs))).
    { rewrite IH by exact H1. apply Z.div_pos; lia. }
    rewrite IH by exact H2. rewrite IH by exact H1. rewrite shr_1_m by exact Hm.
    rewrite !Z.div_div by lia. f_equal.
    replace (Zpos p~1) with (1 + Zpos p + Zpos p) by lia.
    rewrite !Z.pow_add_r by lia. change (2 ^ 1) with 2. ring.
  - assert (H2 : 0 <= shr_m (iter_pos shr_1 p mrs)).
    { rewrite IH by exact Hm. apply Z.div_pos; lia. }
    rewrite IH by exact H2. rewrite IH by exact Hm.
    rewrite !Z.div_div by lia. f_equal.
    replace (Zpos p~0) with (Zpos p + Zpos p) by lia.
    rewrite !Z.pow_add_r by lia. ring.
  - rewrite shr_1_m by exact Hm. reflexivity.
Qed.

Lemma shr_record_of_loc_m (m : Z) (l : location) :
  shr_m (shr_record_of_loc m l) = m.
Proof. destruct l as [|[| |]]; reflexivity. Qed.

(** Above the least exponent, shifting to the canonical exponent keeps a
    positive mantissa positive. *)
Lemma shr_fexp_pos (m e : Z) (l : location) :
  0 < m -> emin <= e ->
  0 < shr_m (fst (shr_fexp prec emax m e l))
  /\ emin <= snd (shr_fexp prec emax m e l).
Proof.
  intros Hm He. unfold shr_fexp, shr.
  destruct m as [|m|m]; try lia. cbn [Zdigits2].
  pose proof (digits2_pos_bounds m) as Hd.
  unfold fexp.
  destruct (Z.max (Zpos (digits2_pos m) + e - prec) (emin) - e)
    as [|p|p] eqn:Hn; cbn [fst snd]; rewrite ?shr_record_of_loc_m; try lia.
  rewrite iter_pos_shr_1 by (rewrite shr_record_of_loc_m; lia).
  rewrite shr_record_of_loc_m.
  assert (Hp : Zpos p = Zpos (digits2_pos m) - prec) by lia.
  split; [|lia].
  apply Z.div_str_pos. split; [lia|].
  apply Z.le_trans with (2 ^ (Zpos (digits2_pos m) - 1)); [|lia].
  apply Z.pow_le_mono_r; [lia|]. unfold prec in Hp. lia.
Qed.

Lemma round_nearest_even_pos (m : Z) (l : location) :
  0 < m -> 0 < round_nearest_even m l.
Proof.
  intros Hm. destruct l as [|[| |]]; cbn; try lia.
  destruct (Z.even m); lia.
Qed.

(** Rounding a positive mantissa above the least exponent never gives a
    zero or a NaN: the result is finite or infinite, with the sign asked. *)
Lemma binary_round_aux_sign (s : bool) (m e : Z) (l : location) :
  0 < m -> emin <= e ->
  (exists m' e', binary_round_aux prec emax s m e l = S754_finite s m' e')
  \/ binary_round_aux prec emax s m e l = S754_infinity s.
Proof.
  intros Hm He. unfold binary_round_aux.
  destruct (shr_fexp_pos m e l Hm He) as [H1 H1e].
  destruct (shr_fexp prec emax m e l) as [mrs' e'] eqn:E1. cbn [fst snd] in *.
  pose proof (round_nearest_even_pos (shr_m mrs') (loc_of_shr_record mrs') H1) as H2.
  destruct (shr_fexp_pos _ e' loc_Exact H2 H1e) as [H3 _].
  destruct (shr_fexp prec emax _ e' loc_Exact) as [mrs'' e''] eqn:E2.
  cbn [fst snd] in *.
  destruct (shr_m mrs'') as [|m''|m'']; try lia.
  destruct (e'' <=? emax - prec); [left; eauto|now right].
Qed.

Lemma shl_align_fst (m : positive) (e e' : Z) :
  e' <= e -> Zpos (fst (shl_align m e e')) = Zpos m * 2 ^ (e - e').
Proof.
  intros He. unfold shl_align.
  destruct (e' - e) as [|d|d] eqn:Hd; cbn [fst]; try lia.
  - replace (e - e') with 0 by lia. lia.
  - replace (e - e') with (Zpos d) by lia. clear.
    induction d as [|d IH] using Pos.peano_ind.
    + cbn. lia.
    + rewrite Pos.iter_succ, Pos2Z.inj_xO, IH, Pos2Z.inj_succ, Z.pow_succ_r by lia.
      lia.
Qed.

Lemma shl_align_snd (m : positive) (e e' : Z) :
  snd (shl_align m e e') = Z.min e e'.
Proof.
  unfold shl_align. destruct (e' - e) as [|d|d] eqn:Hd; cbn [snd]; lia.
Qed.

Lemma binary_round_sign (s : bool) (m : positive) (e : Z) :
  emin <= e ->
  (exists m' e', binary_round prec emax s m e = S754_finite s m' e')
  \/ binary_round prec emax s m e = S754_infinity s.
Proof.
  intros He. unfold binary_round.
  pose proof (shl_align_snd m e (fexp prec emax (Zpos (digits2_pos m) + e))) as Hs.
  destruct (shl_align m e _) as [mz ez]. cbn [snd] in Hs.
  apply binary_round_aux_sign; [lia|].
  subst ez. unfold fexp. lia.
Qed.

(** *** The order of the doubles *)

Lemma SFltb_ord (x y : spec_float) :
  x <> S754_nan -> y <> S754_nan ->
  (SFltb x y = true <-> lex_lt (SFord x) (SFord y)).
Proof.
  intros Hx Hy. unfold SFltb, lex_lt.
  destruct x as [sx|sx| |sx mx ex], y as [sy|sy| |sy my ey];
    try congruence;
    try (destruct sx); try (destruct sy); cbn;
    try (split; [discriminate|lia]); try (split; [lia|reflexivity]).
  - rewrite Pos.compare_cont_spec. cbn [Pos.switch_Eq].
    destruct (Z.compare_spec ex ey), (Pos.compare_spec mx my); cbn;
      split; try discriminate; try reflexivity; lia.
  - rewrite Pos.compare_cont_spec. cbn [Pos.switch_Eq].
    destruct (Z.compare_spec ex ey), (Pos.compare_spec mx my); cbn;
      split; try discriminate; try reflexivity; lia.
Qed.

Lemma SFeqb_ord (x y : spec_float) :
  x <> S754_nan -> y <> S754_nan ->
  (SFeqb x y = true <-> SFord x = SFord y).
Proof.
  intros Hx Hy. unfold SFeqb.
  destruct x as [sx|sx| |sx mx ex], y as [sy|sy| |sy my ey];
    try congruence;
    try (destruct sx); try (destruct sy); cbn;
    try (split; [discriminate|congruence]);
    try (split; [reflexivity|reflexivity]).
  - rewrite Pos.compare_cont_spec. cbn [Pos.switch_Eq].
    destruct (Z.compare_spec ex ey), (Pos.compare_spec mx my); cbn;
      split; try discriminate; try reflexivity; intros [=]; try lia;
      subst; reflexivity.
  - rewrite Pos.compare_cont_spec. cbn [Pos.switch_Eq].
    destruct (Z.compare_spec ex ey), (Pos.compare_spec mx my); cbn;
      split; try discriminate; try reflexivity; intros [=]; try lia;
      subst; reflexivity.
Qed.

Lemma SFleb_ord (x y : spec_float) :
  x <> S754_nan -> y <> S754_nan ->
  (SFleb x y = true <-> ~ lex_lt (SFord y) (SFord x)).
Proof.
  intros Hx Hy. unfold SFleb, lex_lt.
  destruct x as [sx|sx| |sx mx ex], y as [sy|sy| |sy my ey];
    try congruence;
    try (destruct sx); try (destruct sy); cbn;
    try (split; [discriminate|lia]); try (split; [lia|reflexivity]).
  - rewrite Pos.compare_cont_spec. cbn [Pos.switch_Eq].
    destruct (Z.compare_spec ex ey), (Pos.compare_spec mx my); cbn;
      split; try discriminate; try reflexivity; lia.
  - rewrite Pos.compare_cont_spec. cbn [Pos.switch_Eq].
    destruct (Z.compare_spec ex ey), (Pos.compare_spec mx my); cbn;
      split; try discriminate; try reflexivity; lia.
Qed.

(** *** The sign of a difference *)

Lemma canonical_mantissa_bounds (m : positive) (e : Z) :
  canonical_mantissa prec emax m e = true ->
  emin <= e /\ Zpos m < 2 ^ prec /\ (emin < e -> 2 ^ (prec - 1) <= Zpos m).
Proof.
  unfold canonical_mantissa, fexp. intros H%Z.eqb_eq.
  pose proof (digits2_pos_bounds m) as Hd.
  split; [lia|]. split.
  - apply Z.lt_le_trans with (2 ^ Zpos (digits2_pos m)); [lia|].
    apply Z.pow_le_mono_r; lia.
  - intros He. replace (Zpos (digits2_pos m)) with prec in Hd by lia. lia.
Qed.

(** Canonical mantissas are compared by their exponents first. *)
Lemma canonical_magnitude_lt (m1 m2 : positive) (e1 e2 : Z) :
  canonical_mantissa prec emax m1 e1 = true ->
  canonical_mantissa prec emax m2 e2 = true ->
  (Zpos m1 * 2 ^ (e1 - Z.min e2 e1) < Zpos m2 * 2 ^ (e2 - Z.min e2 e1)
   <-> e1 < e2 \/ (e1 = e2 /\ Zpos m1 < Zpos m2)).
Proof.
  intros H1 H2.
  destruct (canonical_mantissa_bounds _ _ H1) as [He1 [Hu1 Hl1]].
  destruct (canonical_mantissa_bounds _ _ H2) as [He2 [Hu2 Hl2]].
  assert (Hp : 2 ^ prec = 2 * 2 ^ (prec - 1)) by reflexivity.
  destruct (Z.lt_trichotomy e1 e2) as [Hlt|[Heq|Hgt]].
  - rewrite Z.min_r by lia. rewrite Z.sub_diag, Z.mul_1_r.
    assert (2 ^ 1 <= 2 ^ (e2 - e1)) by (apply Z.pow_le_mono_r; lia).
    change (2 ^ 1) with 2 in *.
    specialize (Hl2 ltac:(lia)). split; [intros _; now left|intros _]. nia.
  - subst e2. rewrite Z.min_id, Z.sub_diag, !Z.mul_1_r. lia.
  - rewrite Z.min_l by lia. rewrite Z.sub_diag, Z.mul_1_r.
    assert (2 ^ 1 <= 2 ^ (e1 - e2)) by (apply Z.pow_le_mono_r; lia).
    change (2 ^ 1) with 2 in *.
    specialize (Hl1 ltac:(lia)). split; [intros Hlt; nia|lia].
Qed.

Lemma binary_normalize_pos (d e : Z) :
  emin <= e ->
  SFltb (S754_zero false) (binary_normalize prec emax d e false) = (0 <? d).
Proof.
  intros He. destruct d as [|d|d]; cbn [binary_normalize]; [reflexivity| |].
  - destruct (binary_round_sign false d e He) as [[m' [e' ->]]| ->]; reflexivity.
  - destruct (binary_round_sign true d e He) as [[m' [e' ->]]| ->]; reflexivity.
Qed.

(** For two doubles that are not NaN, [y - x] is positive exactly when [x]
    is below [y]: a difference that is not zero is never rounded to zero. *)
Lemma SFsub_pos (x y : spec_float) :
  valid_binary x = true -> valid_binary y = true ->
  x <> S754_nan -> y <> S754_nan ->
  (SFltb (S754_zero false) (SF64sub y x) = true <-> lex_lt (SFord x) (SFord y)).
Proof.
  intros Vx Vy Hx Hy.
  destruct x as [sx|sx| |sx mx ex], y as [sy|sy| |sy my ey];
    try congruence.
  9: {
    cbn [valid_binary] in Vx, Vy. unfold bounded in Vx, Vy.
    apply andb_prop in Vx as [Cx _]. apply andb_prop in Vy as [Cy _].
    destruct (canonical_mantissa_bounds _ _ Cx) as [Hex _].
    destruct (canonical_mantissa_bounds _ _ Cy) as [Hey _].
    pose proof (canonical_magnitude_lt mx my ex ey Cx Cy) as Hxy.
    pose proof (canonical_magnitude_lt my mx ey ex Cy Cx) as Hyx.
    rewrite (Z.min_comm ex ey) in Hyx.
    unfold SF64sub, SFsub.
    rewrite binary_normalize_pos by lia.
    rewrite !shl_align_fst by lia.
    rewrite Z.ltb_lt.
    set (X := Zpos mx * 2 ^ (ex - Z.min ey ex)) in *.
    set (Y := Zpos my * 2 ^ (ey - Z.min ey ex)) in *.
    assert (0 < X) by (subst X; apply Z.mul_pos_pos; [lia|apply Z.pow_pos_nonneg; lia]).
    assert (0 < Y) by (subst Y; apply Z.mul_pos_pos; [lia|apply Z.pow_pos_nonneg; lia]).
    unfold lex_lt. destruct sx, sy; cbn [SFord cond_Zopp]; lia. }
  all: try (destruct sx); try (destruct sy); cbn;
    unfold lex_lt; cbn; split; try discriminate; try reflexivity; lia.
Qed.

(** *** Primitive doubles *)

Lemma SFeqb_refl (s : spec_float) : s <> S754_nan -> SFeqb s s = true.
Proof. intros Hs. now apply SFeqb_ord. Qed.

Lemma Prim2SF_nan_iff (x : number) :
  is_nan x = true <-> Prim2SF x = S754_nan.
Proof.
  unfold is_nan. rewrite eqb_spec. split.
  - intros H. destruct (Prim2SF x) eqn:E; try reflexivity;
      rewrite SFeqb_refl in H by discriminate; discriminate.
  - intros ->. reflexivity.
Qed.

Lemma Prim2SF_not_nan (x : number) :
  is_nan x = false -> Prim2SF x <> S754_nan.
Proof.
  intros H E. apply Prim2SF_nan_iff in E. congruence.
Qed.

Lemma ltb_place (x y : number) :
  is_nan x = false -> is_nan y = false ->
  ((x <? y)%float = true <-> lex_lt (place x) (place y)).
Proof.
  intros Hx Hy. rewrite ltb_spec.
  apply SFltb_ord; now apply Prim2SF_not_nan.
Qed.

Lemma leb_place (x y : number) :
  is_nan x = false -> is_nan y = false ->
  ((x <=? y)%float = true <-> ~ lex_lt (place y) (place x)).
Proof.
  intros Hx Hy. rewrite leb_spec.
  apply SFleb_ord; now apply Prim2SF_not_nan.
Qed.

Lemma eqb_place (x y : number) :
  is_nan x = false -> is_nan y = false ->
  ((x =? y)%float = true <-> place x = place y).
Proof.
  intros Hx Hy. rewrite eqb_spec.
  apply SFeqb_ord; now apply Prim2SF_not_nan.
Qed.

Lemma eqb_not_nan (x y : number) :
  (x =? y)%float = true -> is_nan x = false /\ is_nan y = false.
Proof.
  rewrite eqb_spec. unfold SFeqb. intros H.
  split; apply not_true_is_false; intros E%Prim2SF_nan_iff;
    rewrite E in H; [|destruct (Prim2SF x)]; discriminate.
Qed.

(** The comparator [b - a] is positive exactly when [a] is below [b]. *)
Lemma sub_pos_place (x y : number) :
  is_nan x = false -> is_nan y = false ->
  ((zero <? y - x)%float = true <-> lex_lt (place x) (place y)).
Proof.
  intros Hx Hy. rewrite ltb_spec, sub_spec.
  change (Prim2SF zero) with (S754_zero false).
  apply SFsub_pos; auto using Prim2SF_valid, Prim2SF_not_nan.
Qed.

(** *** NaN is contagious *)

Lemma add_nan_r (x y : number) : is_nan y = true -> is_nan (x + y)%float = true.
Proof.
  rewrite !Prim2SF_nan_iff, add_spec. intros ->.
  unfold SF64add, SFadd. now destruct (Prim2SF x).
Qed.

Lemma add_nan_l (x y : number) : is_nan x = true -> is_nan (x + y)%float = true.
Proof.
  rewrite !Prim2SF_nan_iff, add_spec. intros ->. reflexivity.
Qed.

Lemma mul_nan_r (x y : number) : is_nan y = true -> is_nan (x * y)%float = true.
Proof.
  rewrite !Prim2SF_nan_iff, mul_spec. intros ->.
  unfold SF64mul, SFmul. now destruct (Prim2SF x).
Qed.

Lemma div_nan_r (x y : number) : is_nan y = true -> is_nan (x / y)%float = true.
Proof.
  rewrite !Prim2SF_nan_iff, div_spec. intros ->.
  unfold SF64div, SFdiv. now destruct (Prim2SF x).
Qed.

Lemma sqrt_nan (x : number) : is_nan x = true -> is_nan (sqrt x) = true.
Proof.
  rewrite !Prim2SF_nan_iff, sqrt_spec. intros ->. reflexivity.
Qed.

(** ** Cosine similarity *)

Lemma fold_left_ext_in {A B} (f g : A -> B -> A) (l : list B) :
  (forall acc i, In i l -> f acc i = g acc i) ->
  forall acc, fold_left f l acc = fold_left g l acc.
Proof.
  induction l as [|i l IH]; intros Hfg acc; [reflexivity|].
  cbn. rewrite Hfg by now left. apply IH. intros; apply Hfg; now right.
Qed.

Lemma nth_firstn_lt {A} (l : list A) (d : A) (i n : nat) :
  (i < n)%nat -> nth i (firstn n l) d = nth i l d.
Proof.
  revert i l. induction n as [|n IH]; intros i l Hi; [lia|].
  destruct l as [|x l]; [reflexivity|].
  destruct i as [|i]; [reflexivity|]. cbn. apply IH. lia.
Qed.

(** Components of the stored vector past the length of the query vector
    are never read. *)
Lemma cosineSimilarity_ignores_tail (a b : list number) :
  cosineSimilarity a b = cosineSimilarity a (firstn (length a) b).
Proof.
  unfold cosineSimilarity.
  rewrite (fold_left_ext_in (cosine_step a b)
                            (cosine_step a (firstn (length a) b))); [reflexivity|].
  intros [[d na] nb] i Hi%in_seq. unfold cosine_step, js_index.
  rewrite nth_firstn_lt by lia. reflexivity.
Qed.

Lemma cosine_step_nan_stays (a b : list number) (l : list nat) :
  forall acc,
    is_nan (snd acc) = true ->
    is_nan (snd (fold_left (cosine_step a b) l acc)) = true.
Proof.
  induction l as [|i l IH]; intros [[d na] nb] Hnan; [exact Hnan|].
  cbn [fold_left]. apply IH. cbn. now apply add_nan_l.
Qed.

Lemma cosine_step_nan_hit (a b : list number) (l : list nat) :
  In (length b) l ->
  forall acc, is_nan (snd (fold_left (cosine_step a b) l acc)) = true.
Proof.
  induction l as [|i l IH]; intros Hin [[d na] nb]; [contradiction|].
  cbn [fold_left]. destruct Hin as [->|Hin]; [|now apply IH].
  apply cosine_step_nan_stays. cbn. apply add_nan_r, mul_nan_r.
  unfold js_index. rewrite nth_overflow by lia. reflexivity.
Qed.

(** A stored vector shorter than the query vector gives NaN. *)
Lemma cosineSimilarity_short_nan (a b : list number) :
  (length b < length a)%nat -> is_nan (cosineSimilarity a b) = true.
Proof.
  intros Hlen. unfold cosineSimilarity.
  pose proof (cosine_step_nan_hit a b (seq 0 (length a))
                ltac:(apply in_seq; lia) (zero, zero, zero)) as Hnan.
  destruct (fold_left _ _ _) as [[d na] nb]. cbn [snd] in Hnan.
  apply div_nan_r, mul_nan_r, sqrt_nan, Hnan.
Qed.

(** ** Sorting *)

Lemma lex_lt_asym (p q : Z * Z * Z) : lex_lt p q -> ~ lex_lt q p.
Proof. destruct p as [[a b] c], q as [[a' b'] c']. unfold lex_lt. lia. Qed.

Lemma lex_lt_irrefl (p : Z * Z * Z) : ~ lex_lt p p.
Proof. destruct p as [[a b] c]. unfold lex_lt. lia. Qed.

Lemma lex_lt_negtrans (p q r : Z * Z * Z) :
  ~ lex_lt p q -> ~ lex_lt q r -> ~ lex_lt p r.
Proof.
  destruct p as [[a b] c], q as [[a' b'] c'], r as [[a'' b''] c''].
  unfold lex_lt. lia.
Qed.

Section SortFacts.

Context {A : Type}.
Variable comparefn : A -> A -> number.
Variable rk : A -> Z * Z * Z.

Lemma sort_insert_perm (x : A) (s : list A) :
  Permutation (sort_insert comparefn x s) (x :: s).
Proof.
  induction s as [|y s IH]; cbn [sort_insert]; [reflexivity|].
  destruct (zero <? comparefn x y)%float; [|reflexivity].
  rewrite IH. apply perm_swap.
Qed.

Lemma js_sort_perm (l : list A) : Permutation (js_sort comparefn l) l.
Proof.
  induction l as [|x l IH]; cbn [js_sort]; [reflexivity|].
  rewrite sort_insert_perm. now constructor.
Qed.

Lemma sort_insert_sorted (x : A) (s : list A) :
  consistent_on comparefn rk (x :: s) ->
  StronglySorted (fun a b => ~ lex_lt (rk a) (rk b)) s ->
  StronglySorted (fun a b => ~ lex_lt (rk a) (rk b)) (sort_insert comparefn x s).
Proof.
  intros Hc Hs. induction Hs as [|y s Hs IH Hy]; cbn [sort_insert].
  - repeat constructor.
  - destruct (zero <? comparefn x y)%float eqn:Ht.
    + apply Hc in Ht; [|now left|now right; left].
      constructor.
      * apply IH. intros a b Ha Hb. apply Hc; cbn in *; tauto.
      * eapply Permutation_Forall.
        -- symmetry. apply sort_insert_perm.
        -- constructor; [now apply lex_lt_asym|exact Hy].
    + assert (Hxy : ~ lex_lt (rk x) (rk y)).
      { intros Hlt. apply Hc in Hlt; [congruence|now left|now right; left]. }
      constructor; [now constructor|].
      constructor; [exact Hxy|].
      eapply Forall_impl; [|exact Hy]. cbv beta. intros z Hyz.
      now apply lex_lt_negtrans with (rk y).
Qed.

Lemma consistent_on_perm (l l' : list A) :
  Permutation l l' -> consistent_on comparefn rk l -> consistent_on comparefn rk l'.
Proof.
  intros Hp Hc x y Hx Hy.
  apply Hc; apply (Permutation_in _ (Permutation_sym Hp)); assumption.
Qed.

Lemma consistent_on_tail (x : A) (l : list A) :
  consistent_on comparefn rk (x :: l) -> consistent_on comparefn rk l.
Proof. intros Hc a b Ha Hb. apply Hc; now right. Qed.

Lemma js_sort_sorted (l : list A) :
  consistent_on comparefn rk l ->
  StronglySorted (fun a b => ~ lex_lt (rk a) (rk b)) (js_sort comparefn l).
Proof.
  induction l as [|x l IH]; intros Hc; cbn [js_sort]; [constructor|].
  apply sort_insert_sorted.
  - apply consistent_on_perm with (x :: l); [|exact Hc].
    constructor. symmetry. apply js_sort_perm.
  - apply IH. now apply consistent_on_tail in Hc.
Qed.

(** Elements that tie under [p] keep their order. *)
Lemma sort_insert_stable (p : A -> bool) (x : A) (s : list A) :
  (forall y, In y s -> p x = true -> p y = true ->
             (zero <? comparefn x y)%float = false) ->
  filter p (sort_insert comparefn x s) = filter p (x :: s).
Proof.
  induction s as [|y s IH]; intros Htie; [reflexivity|].
  cbn [sort_insert].
  destruct (zero <? comparefn x y)%float eqn:Ht; [|reflexivity].
  cbn [filter]. rewrite IH by (intros; apply Htie; auto; now right).
  cbn [filter].
  destruct (p x) eqn:Hpx, (p y) eqn:Hpy; try reflexivity.
  rewrite Htie in Ht by (auto; now left). discriminate.
Qed.

Lemma js_sort_stable (p : A -> bool) (l : list A) :
  (forall x y, In x l -> In y l -> p x = true -> p y = true ->
               (zero <? comparefn x y)%float = false) ->
  filter p (js_sort comparefn l) = filter p l.
Proof.
  induction l as [|x l IH]; intros Htie; [reflexivity|].
  cbn [js_sort]. rewrite sort_insert_stable.
  - cbn [filter]. rewrite IH; [reflexivity|].
    intros a b Ha Hb. apply Htie; now right.
  - intros y Hy. apply Htie; [now left|right].
    eapply Permutation_in; [apply js_sort_perm|exact Hy].
Qed.

End SortFacts.

(** ** Running the service *)

Section ServiceFacts.

Context {CallerMeta Ext : Type}.
Variable pdf : Buffer -> Ext -> Settled jsstring * Ext.
Variable embeddings_create : jsstring -> jsstring -> Ext -> Settled (list number) * Ext.
Variable chat_completions_create : ChatRequest -> Ext -> Settled jsstring * Ext.
Variable toString_utf8 : Buffer -> jsstring.
Variable toLowerCase : jsstring -> jsstring.

Implicit Types w : World CallerMeta Ext.

Lemma new_events_app w w' (evs : list Event) :
  trace w' = trace w ++ evs -> new_events w w' = evs.
Proof.
  intros H. unfold new_events. rewrite H.
  rewrite skipn_app, skipn_all, Nat.sub_diag. reflexivity.
Qed.

Lemma new_events_same w : new_events w w = [].
Proof. apply new_events_app. now rewrite app_nil_r. Qed.

Lemma await_ext_run {A} (c : Call) (call : Ext -> Settled A * Ext) w :
  await_ext c call w =
  (match fst (call (ext w)) with
   | Fulfilled a => Returned a
   | Rejected e => Thrown e
   end,
   after_call w c (fst (call (ext w))) (snd (call (ext w)))).
Proof.
  unfold await_ext, after_call. destruct (call (ext w)) as [[a|e] x]; reflexivity.
Qed.

(** [extractText] always returns: the parser's text for a [.pdf] name when
    the parser fulfils, the decoded bytes in every other case. *)
Lemma extractText_run (content : Buffer) (filename : jsstring) w :
  extractText pdf toString_utf8 toLowerCase content filename w =
  if jsstring_eqb (split_dot_pop (toLowerCase filename)) (lit "pdf") then
    (Returned match fst (pdf content (ext w)) with
              | Fulfilled pdfData_text => pdfData_text
              | Rejected _ => toString_utf8 content
              end,
     after_call w (PdfParse content)
                (fst (pdf content (ext w))) (snd (pdf content (ext w))))
  else (Returned (toString_utf8 content), w).
Proof.
  unfold extractText, try_catch.
  destruct (jsstring_eqb _ (lit "pdf")).
  - unfold bind. rewrite await_ext_run.
    destruct (fst (pdf content (ext w))); reflexivity.
  - destruct (existsb _ _); reflexivity.
Qed.

Lemma extractText_returns (content : Buffer) (filename : jsstring) w :
  exists (t : jsstring) (w1 : World CallerMeta Ext) (evs : list Event),
    extractText pdf toString_utf8 toLowerCase content filename w
    = (Returned t, w1)
    /\ svc w1 = svc w /\ trace w1 = trace w ++ evs
    /\ existsb is_embedding evs = false.
Proof.
  rewrite extractText_run. destruct (jsstring_eqb _ _).
  - eexists _, _, [_]. repeat split.
  - eexists _, _, []. repeat split. now rewrite app_nil_r.
Qed.

Lemma getEmbedding_run (input : jsstring) w :
  getEmbedding embeddings_create input w =
  if available (svc w) then
    (match fst (embeddings_create embedding_model input (ext w)) with
     | Fulfilled a => Returned a
     | Rejected e => Thrown e
     end,
     after_call w (Embedding embedding_model input)
                (fst (embeddings_create embedding_model input (ext w)))
                (snd (embeddings_create embedding_model input (ext w))))
  else (Thrown not_available, w).
Proof.
  unfold getEmbedding, bind, this. cbn.
  destruct (available (svc w)); cbn; [|reflexivity].
  apply await_ext_run.
Qed.

(** The loop over the chunks either embeds them all, in order, or stops at
    the first rejected call. *)
Lemma embed_chunks_run (blobId filename : jsstring) (metadata : CallerMeta)
      (chunks : list jsstring) :
  forall (i : nat) (done : list (Chunk CallerMeta)) w r w',
    available (svc w) = true ->
    embed_chunks embeddings_create blobId filename metadata chunks i done w
    = (r, w') ->
    svc w' = svc w /\
    exists evs : list Event,
      trace w' = trace w ++ evs /\
      match r with
      | Returned documentChunks =>
          map text documentChunks = map text done ++ chunks
          /\ forallb is_fulfilled_embedding evs = true
          /\ map ev_call evs = map (Embedding embedding_model) chunks
      | Thrown e =>
          exists (pre : list Event) (last : Event),
          evs = pre ++ [last]
          /\ forallb is_fulfilled_embedding pre = true
          /\ is_rejected_embedding last = true
      | OutOfFuel => False
      end.
Proof.
  induction chunks as [|chunk rest IH]; intros i done w r w' Hav Hrun.
  - cbn in Hrun. injection Hrun as <- <-. split; [reflexivity|].
    exists []. rewrite !app_nil_r. repeat split.
  - cbn [embed_chunks] in Hrun. unfold bind in Hrun.
    rewrite getEmbedding_run, Hav in Hrun.
    destruct (embeddings_create embedding_model chunk (ext w)) as [[emb|e] x] eqn:Hcall;
      cbn [fst snd] in Hrun.
    + apply IH in Hrun; [|exact Hav].
      destruct Hrun as [Hsvc [evs [Htr Hr]]]. cbn in Hsvc, Htr.
      split; [exact Hsvc|].
      eexists (_ :: evs). rewrite <- app_assoc in Htr. split; [exact Htr|].
      destruct r as [dcs|e|]; [| |exact Hr].
      * destruct Hr as [Htext [Hall Hcalls]]. repeat split.
        -- rewrite Htext, map_app, <- app_assoc. reflexivity.
        -- cbn. exact Hall.
        -- cbn. now rewrite Hcalls.
      * destruct Hr as [pre [last [-> [Hpre Hlast]]]].
        eexists (_ :: pre), last. repeat split; [|exact Hlast].
        cbn. exact Hpre.
    + injection Hrun as <- <-. split; [reflexivity|].
      eexists [_]. split; [reflexivity|].
      exists [], {| ev_call := Embedding embedding_model chunk; ev_fulfilled := false |}.
      repeat split.
Qed.

Lemma trim_empty (t : jsstring) : js_length t = 0 -> js_length (trim t) = 0.
Proof.
  destruct t; [reflexivity|]. unfold js_length. cbn [length]. lia.
Qed.

Lemma existsb_rejected_fulfilled (evs : list Event) :
  forallb is_fulfilled_embedding evs = true ->
  existsb is_rejected_embedding evs = false.
Proof.
  induction evs as [|ev evs IH]; [reflexivity|]. cbn.
  intros [Hev Hall]%andb_prop. rewrite (IH Hall), orb_false_r.
  unfold is_fulfilled_embedding in Hev. unfold is_rejected_embedding.
  apply andb_prop in Hev as [-> ->]. reflexivity.
Qed.

Lemma existsb_rejected_not_embedding (evs : list Event) :
  existsb is_embedding evs = false ->
  existsb is_rejected_embedding evs = false.
Proof.
  induction evs as [|ev evs IH]; [reflexivity|]. cbn.
  intros [Hev Hall]%orb_false_elim. rewrite (IH Hall), orb_false_r.
  unfold is_rejected_embedding. now rewrite Hev.
Qed.

(** The five ways [processDocument] can go.  The store is written in the
    last one only, after every chunk has been embedded. *)
Lemma processDocument_cases (fuel : nat) (blobId : jsstring) (content : Buffer)
      (filename : jsstring) (metadata : CallerMeta) w r w' :
  processDocument pdf embeddings_create toString_utf8 toLowerCase
                  fuel blobId content filename metadata w = (r, w') ->
  exists evs : list Event,
    trace w' = trace w ++ evs /\
    ((* the service is not available *)
      (available (svc w) = false /\ w' = w
       /\ r = Returned (ingest_failure blobId (lit "RAG Service not available")))
     \/
     (available (svc w) = true /\
      exists (t : jsstring) (w1 : World CallerMeta Ext),
        extractText pdf toString_utf8 toLowerCase content filename w
        = (Returned t, w1) /\
        ((* nothing but white space was extracted *)
          (js_length (trim t) = 0 /\ w' = w1
           /\ existsb is_embedding evs = false
           /\ r = Returned (ingest_failure blobId (lit "No text content extracted")))
         \/
         (* the chunker does not come back *)
         (js_length (trim t) <> 0
          /\ splitIntoChunks (chunkSize (svc w)) (chunkOverlap (svc w)) fuel t = None
          /\ w' = w1 /\ existsb is_embedding evs = false /\ r = OutOfFuel)
         \/
         (js_length (trim t) <> 0 /\
          exists chunks : list jsstring,
            splitIntoChunks (chunkSize (svc w)) (chunkOverlap (svc w)) fuel t
            = Some chunks /\
            ((* an embedding call is rejected *)
              (exists (e : exn) (pre : list Event) (last : Event),
                  svc w' = svc w /\ evs = pre ++ [last]
                  /\ is_rejected_embedding last = true
                  /\ r = Returned (ingest_failure blobId (message e)))
             \/
             (* every chunk is embedded, then the document is stored *)
             (exists documentChunks : list (Chunk CallerMeta),
                 map text documentChunks = chunks
                 /\ existsb is_rejected_embedding evs = false
                 /\ svc w' = with_store (svc w)
                                        (map_set (vectorStore (svc w)) blobId
                                                 documentChunks)
                 /\ r = Returned {| ir_success := true; ir_blobId := blobId;
                                    ir_chunksCreated := js_length chunks;
                                    ir_textLength := js_length t;
                                    ir_error := None |})))))).
Proof.
  unfold processDocument. unfold bind at 1. unfold this at 1. cbn beta iota.
  destruct (available (svc w)) eqn:Hav; cbn [negb].
  - (* available *)
    destruct (extractText_returns content filename w)
      as [t [w1 [evs1 [Hext [Hsvc1 [Htr1 Hemb1]]]]]].
    unfold try_catch, bind at 1. rewrite Hext.
    destruct ((js_length t =? 0) || (js_length (trim t) =? 0)) eqn:Hblank.
    + (* blank *)
      cbn. intros [= <- <-]. exists evs1. split; [exact Htr1|]. right.
      split; [reflexivity|]. exists t, w1. split; [reflexivity|]. left.
      repeat split; auto.
      apply orb_prop in Hblank as [H0|H0]; apply Z.eqb_eq in H0; auto.
      now apply trim_empty.
    + apply orb_false_elim in Hblank as [_ Hne]. apply Z.eqb_neq in Hne.
      unfold bind at 1.
      destruct (splitIntoChunks (chunkSize (svc w)) (chunkOverlap (svc w)) fuel t)
        as [chunks|] eqn:Hsplit; cbn [of_fuel].
      * unfold bind at 1.
        destruct (embed_chunks embeddings_create blobId filename metadata chunks
                               0 [] w1) as [r2 w2] eqn:Hembed.
        apply embed_chunks_run in Hembed; [|now rewrite Hsvc1].
        destruct Hembed as [Hsvc2 [evs2 [Htr2 Hr2]]].
        destruct r2 as [dcs|e|]; [| |contradiction].
        -- destruct Hr2 as [Htext [Hall Hcalls]].
           cbn. intros [= <- <-]. exists (evs1 ++ evs2). cbn.
           split; [now rewrite Htr2, Htr1, <- app_assoc|]. right.
           split; [reflexivity|]. exists t, w1. split; [reflexivity|].
           right. right. split; [exact Hne|]. exists chunks.
           split; [exact Hsplit|]. right. exists dcs.
           repeat split; auto.
           ++ rewrite existsb_app.
              rewrite (existsb_rejected_not_embedding _ Hemb1).
              now apply existsb_rejected_fulfilled.
           ++ unfold with_store. rewrite Hsvc2, Hsvc1. reflexivity.
        -- destruct Hr2 as [pre [last [-> [Hpre Hlast]]]].
           cbn. intros [= <- <-]. exists (evs1 ++ pre ++ [last]).
           split; [now rewrite Htr2, Htr1, <- app_assoc|]. right.
           split; [reflexivity|]. exists t, w1. split; [reflexivity|].
           right. right. split; [exact Hne|]. exists chunks.
           split; [exact Hsplit|]. left. exists e, (evs1 ++ pre), last.
           repeat split; auto.
           ++ now rewrite Hsvc2, Hsvc1.
           ++ now rewrite app_assoc.
      * cbn. intros [= <- <-]. exists evs1. split; [exact Htr1|]. right.
        split; [reflexivity|]. exists t, w1. split; [reflexivity|].
        right. left. repeat split; auto.
  - (* not available *)
    cbn. intros [= <- <-]. exists []. split; [now rewrite app_nil_r|].
    left. repeat split.
Qed.

(** What is left of the service when [processDocument] is over: the service
    as it was, or the service with the document stored, and then the text
    was not empty and every chunk of it has its record. *)
Lemma processDocument_service (fuel : nat) (blobId : jsstring) (content : Buffer)
      (filename : jsstring) (metadata : CallerMeta) w r w' :
  processDocument pdf embeddings_create toString_utf8 toLowerCase
                  fuel blobId content filename metadata w = (r, w') ->
  svc w' = svc w
  \/ exists (t : jsstring) (chunks : list jsstring)
            (documentChunks : list (Chunk CallerMeta)),
      0 < js_length t
      /\ splitIntoChunks (chunkSize (svc w)) (chunkOverlap (svc w)) fuel t
         = Some chunks
      /\ map text documentChunks = chunks
      /\ svc w' = with_store (svc w)
                             (map_set (vectorStore (svc w)) blobId
                                      documentChunks).
Proof.
  intros Hrun.
  destruct (processDocument_cases _ _ _ _ _ _ _ _ Hrun) as [evs [Htr Hcases]].
  destruct Hcases as [[Hav [-> ->]]|[Hav [t [w1 [Hext Hcases]]]]];
    [now left|].
  pose proof (extractText_returns content filename w) as Hret.
  rewrite Hext in Hret.
  destruct Hret as [t' [w1' [evs1 [[= <- <-] [Hsvc1 _]]]]].
  destruct Hcases as [[Hblank [-> _]]
                     |[[Hne [Hsplit [-> _]]]
                      |[Hne [chunks [Hsplit
                          [[e [pre [last [Hsvc _]]]]
                          |[dcs [Htext [Hnorej [Hsvc ->]]]]]]]]]];
    [now left|now left|now left|].
  right. exists t, chunks, dcs. repeat split; auto.
  pose proof (js_length_nonneg t).
  destruct (Z.eq_dec (js_length t) 0) as [H0|H0]; [|lia].
  now apply trim_empty in H0.
Qed.

(** [queryDocuments], step by step. *)
Lemma queryDocuments_run (question : jsstring)
      (documentIds : option (list jsstring)) (topK_arg : option Z) w :
  queryDocuments embeddings_create chat_completions_create
                 question documentIds topK_arg w =
  if available (svc w) then
    let r := fst (embeddings_create embedding_model question (ext w)) in
    let w1 := after_call w (Embedding embedding_model question) r
                         (snd (embeddings_create embedding_model question (ext w))) in
    match r with
    | Rejected e => (Thrown e, w1)
    | Fulfilled questionEmbedding =>
        let allChunks := collect_chunks (vectorStore (svc w)) documentIds in
        if js_length allChunks =? 0 then
          (Returned {| qr_answer := no_documents_answer; qr_sources := [];
                       qr_question := question |}, w1)
        else
          let topChunks :=
            top_chunks questionEmbedding allChunks
                       (topK_or_default (svc w) topK_arg) in
          let req := chat_request (svc w) (build_context topChunks) question in
          let r2 := fst (chat_completions_create req (ext w1)) in
          (match r2 with
           | Fulfilled answer =>
               Returned {| qr_answer := answer;
                           qr_sources := map format_source topChunks;
                           qr_question := question |}
           | Rejected e => Thrown e
           end,
           after_call w1 (ChatCompletion req) r2
                      (snd (chat_completions_create req (ext w1))))
    end
  else (Thrown not_available, w).
Proof.
  unfold queryDocuments. unfold bind at 1. unfold this at 1. cbn beta iota.
  destruct (available (svc w)) eqn:Hav; cbn [negb]; [|reflexivity].
  unfold bind at 1. rewrite getEmbedding_run, Hav.
  destruct (fst (embeddings_create embedding_model question (ext w)))
    as [qe|e]; [|reflexivity].
  unfold bind at 1. unfold this at 1. cbn beta iota. cbn [after_call svc].
  destruct (js_length (collect_chunks (vectorStore (svc w)) documentIds) =? 0);
    [reflexivity|].
  unfold bind. rewrite await_ext_run. cbn [svc after_call].
  destruct (fst (chat_completions_create _ _)); reflexivity.
Qed.

(** A query leaves the service as it is. *)
Lemma queryDocuments_service (question : jsstring)
      (documentIds : option (list jsstring)) (topK_arg : option Z) w :
  svc (snd (queryDocuments embeddings_create chat_completions_create
                           question documentIds topK_arg w)) = svc w.
Proof.
  rewrite queryDocuments_run.
  destruct (available (svc w)); [|reflexivity]. cbv zeta.
  destruct (fst (embeddings_create _ _ _)); [|reflexivity].
  destruct (_ =? 0); reflexivity.
Qed.

Lemma deleteDocument_run (blobId : jsstring) w :
  deleteDocument blobId w =
  (Returned {| dr_success := true;
               dr_deletedChunks :=
                 match map_get (vectorStore (svc w)) blobId with
                 | Some chunks => js_length chunks
                 | None => 0
                 end |},
   {| svc := with_store (svc w) (map_delete (vectorStore (svc w)) blobId);
      ext := ext w; trace := trace w |}).
Proof. reflexivity. Qed.

End ServiceFacts.

(** ** Claims on ingestion *)

Section IngestionClaims.

Context {CallerMeta Ext : Type}.
Variable pdf : Buffer -> Ext -> Settled jsstring * Ext.
Variable embeddings_create : jsstring -> jsstring -> Ext -> Settled (list number) * Ext.
Variable chat_completions_create : ChatRequest -> Ext -> Settled jsstring * Ext.
Variable toString_utf8 : Buffer -> jsstring.
Variable toLowerCase : jsstring -> jsstring.

Implicit Types w : World CallerMeta Ext.

(** C1.  When an embedding call is rejected while a document is ingested,
    the service, and with it the vector store, is as it was before and the
    result reports a failure with zero chunks.  Besides, whatever happens the
    store after the call is either the store before it or that store with
    the document set to one chunk record for every chunk of the text, all of
    them embedded: no partial list is ever written. *)
Theorem processDocument_atomic (fuel : nat) (blobId : jsstring)
        (content : Buffer) (filename : jsstring) (metadata : CallerMeta)
        w r w' :
  processDocument pdf embeddings_create toString_utf8 toLowerCase
                  fuel blobId content filename metadata w = (r, w') ->
  (existsb is_rejected_embedding (new_events w w') = true ->
   vectorStore (svc w') = vectorStore (svc w)
   /\ exists error : jsstring,
       r = Returned {| ir_success := false; ir_blobId := blobId;
                       ir_chunksCreated := 0; ir_textLength := 0;
                       ir_error := Some error |})
  /\ (vectorStore (svc w') = vectorStore (svc w)
      \/ exists (t : jsstring) (chunks : list jsstring)
                (documentChunks : list (Chunk CallerMeta)),
          splitIntoChunks (chunkSize (svc w)) (chunkOverlap (svc w)) fuel t
          = Some chunks
          /\ map text documentChunks = chunks
          /\ existsb is_rejected_embedding (new_events w w') = false
          /\ vectorStore (svc w')
             = map_set (vectorStore (svc w)) blobId documentChunks).
Proof.
  intros Hrun.
  destruct (processDocument_cases _ _ _ _ _ _ _ _ _ _ _ _ Hrun)
    as [evs [Htr Hcases]].
  rewrite (new_events_app _ _ _ Htr).
  destruct Hcases as [[Hav [-> ->]]|[Hav [t [w1 [Hext Hcases]]]]].
  - (* not available *)
    split; [|now left].
    intros Hrej. split; [reflexivity|]. eexists. reflexivity.
  - pose proof (extractText_returns pdf toString_utf8 toLowerCase
                                    content filename w) as Hret.
    rewrite Hext in Hret.
    destruct Hret as [t' [w1' [evs1 [[= <- <-] [Hsvc1 _]]]]].
    destruct Hcases as [[Hblank [-> [Hnoemb ->]]]
                       |[[Hne [Hsplit [-> [Hnoemb ->]]]]
                        |[Hne [chunks [Hsplit
                            [[e [pre [last [Hsvc [-> [Hlast ->]]]]]]
                            |[dcs [Htext [Hnorej [Hsvc ->]]]]]]]]]].
    + rewrite (existsb_rejected_not_embedding _ Hnoemb).
      split; [discriminate|]. left. now rewrite Hsvc1.
    + rewrite (existsb_rejected_not_embedding _ Hnoemb).
      split; [discriminate|]. left. now rewrite Hsvc1.
    + split; [|left; now rewrite Hsvc].
      intros _. split; [now rewrite Hsvc|]. eexists. reflexivity.
    + rewrite Hnorej. split; [discriminate|]. right.
      exists t, chunks, dcs. rewrite Hsvc. repeat split; auto.
Qed.

Lemma store_texts_nonempty_set (store : JSMap (list (Chunk CallerMeta)))
      (k : jsstring) (chunks : list (Chunk CallerMeta)) :
  store_texts_nonempty store ->
  Forall (fun c => text c <> []) chunks ->
  store_texts_nonempty (map_set store k chunks).
Proof.
  intros Hstore Hchunks. induction Hstore as [|[k' v'] store Hv Hstore IH].
  - repeat constructor. exact Hchunks.
  - cbn [map_set]. destruct (jsstring_eqb k k'); constructor; auto.
Qed.

Lemma store_texts_nonempty_delete (store : JSMap (list (Chunk CallerMeta)))
      (k : jsstring) :
  store_texts_nonempty store ->
  store_texts_nonempty (map_delete store k).
Proof.
  intros Hstore. induction Hstore as [|[k' v'] store Hv Hstore IH].
  - constructor.
  - cbn [map_delete]. destruct (jsstring_eqb k k'); [exact Hstore|].
    constructor; auto.
Qed.

(** Serving a request keeps the chunk size and the property that no stored
    chunk is empty. *)
Lemma serve_texts_nonempty (req : Request CallerMeta) w :
  0 < chunkSize (svc w) ->
  store_texts_nonempty (vectorStore (svc w)) ->
  chunkSize (svc (snd (serve pdf embeddings_create chat_completions_create
                             toString_utf8 toLowerCase req w)))
  = chunkSize (svc w)
  /\ store_texts_nonempty
       (vectorStore (svc (snd (serve pdf embeddings_create
                                     chat_completions_create
                                     toString_utf8 toLowerCase req w)))).
Proof.
  intros Hsize Hstore. destruct req as [fuel blobId content filename metadata
                                       |question documentIds topK_arg
                                       |blobId]; cbn [serve].
  - destruct (processDocument _ _ _ _ _ _ _ _ _ w) as [r w'] eqn:Hrun.
    cbn [snd].
    destruct (processDocument_service _ _ _ _ _ _ _ _ _ _ _ _ Hrun)
      as [->|[t [chunks [dcs [Hlen [Hsplit [Htext ->]]]]]]]; [now split|].
    cbn [with_store chunkSize vectorStore]. split; [reflexivity|].
    apply store_texts_nonempty_set; [exact Hstore|].
    apply splitIntoChunks_nonempty in Hsplit; auto.
    subst chunks. clear -Hsplit.
    induction dcs as [|c dcs IH]; [constructor|].
    inversion Hsplit; subst. constructor; auto.
  - pose proof (queryDocuments_service embeddings_create chat_completions_create
                                       question documentIds topK_arg w) as Hq.
    destruct (queryDocuments _ _ _ _ _ w) as [r w']. cbn [snd] in *.
    rewrite Hq. now split.
  - rewrite deleteDocument_run. cbn [snd svc with_store chunkSize vectorStore].
    split; [reflexivity|]. now apply store_texts_nonempty_delete.
Qed.

Lemma serve_all_texts_nonempty (reqs : list (Request CallerMeta)) :
  forall w,
    0 < chunkSize (svc w) ->
    store_texts_nonempty (vectorStore (svc w)) ->
    store_texts_nonempty
      (vectorStore (svc (serve_all pdf embeddings_create chat_completions_create
                                   toString_utf8 toLowerCase reqs w))).
Proof.
  induction reqs as [|req reqs IH]; intros w Hsize Hstore; [exact Hstore|].
  cbn [serve_all].
  destruct (serve_texts_nonempty req w Hsize Hstore) as [Hsize' Hstore'].
  destruct (serve _ _ _ _ _ req w) as [back w']. cbn [snd] in *.
  destruct back; [|exact Hstore'].
  apply IH; [now rewrite Hsize'|exact Hstore'].
Qed.


(** C9.  [extractText] returns for every buffer and file name, never
    throwing: for a name whose extension is [pdf] it gives the parser's text
    when the parser fulfils and the decoded bytes when it rejects, and for
    every other name the decoded bytes.  So an available service refuses a
    document only because the extracted text is blank or because an
    embedding call is rejected. *)
Theorem extractText_total (content : Buffer) (filename : jsstring) w :
  extractText pdf toString_utf8 toLowerCase content filename w =
  (if jsstring_eqb (split_dot_pop (toLowerCase filename)) (lit "pdf") then
     (Returned match fst (pdf content (ext w)) with
               | Fulfilled pdfData_text => pdfData_text
               | Rejected _ => toString_utf8 content
               end,
      after_call w (PdfParse content)
                 (fst (pdf content (ext w))) (snd (pdf content (ext w))))
   else (Returned (toString_utf8 content), w))
  /\ forall (fuel : nat) (blobId : jsstring) (metadata : CallerMeta)
            (res : IngestResult) (w' : World CallerMeta Ext),
      available (svc w) = true ->
      processDocument pdf embeddings_create toString_utf8 toLowerCase
                      fuel blobId content filename metadata w
      = (Returned res, w') ->
      ir_success res = false ->
      (exists (t : jsstring) (w1 : World CallerMeta Ext),
          extractText pdf toString_utf8 toLowerCase content filename w
          = (Returned t, w1)
          /\ js_length (trim t) = 0
          /\ ir_error res = Some (lit "No text content extracted"))
      \/ (exists (pre : list Event) (last : Event),
             new_events w w' = pre ++ [last]
             /\ is_rejected_embedding last = true).
Proof.
  split; [apply extractText_run|].
  intros fuel blobId metadata res w' Hav Hrun Hfail.
  destruct (processDocument_cases _ _ _ _ _ _ _ _ _ _ _ _ Hrun)
    as [evs [Htr Hcases]].
  rewrite (new_events_app _ _ _ Htr).
  destruct Hcases as [[Hav' _]|[_ [t [w1 [Hext Hcases]]]]]; [congruence|].
  destruct Hcases as [[Hblank [-> [_ [= ->]]]]
                     |[[_ [_ [_ [_ Hr]]]]
                      |[Hne [chunks [Hsplit
                          [[e [pre [last [Hsvc [-> [Hlast _]]]]]]
                          |[dcs [_ [_ [_ [= ->]]]]]]]]]]].
  - left. exists t, w1. repeat split; auto.
  - discriminate.
  - right. exists pre, last. now split.
  - discriminate.
Qed.

End IngestionClaims.

(** C1, on an example: chunks of 4 with an overlap of 1 cut the 13 code
    units of the file into 5 chunks, and the third embedding call is
    rejected. *)
Lemma processDocument_atomic_witness :
  let w := fresh_world 4 1
             [Fulfilled [1; 0]%float; Fulfilled [0; 1]%float;
              Rejected (Error (lit "Rate limit reached"))] [] in
  let run := scripted_processDocument 9 (lit "blob-1")
               (buffer_of "abcdefghijklm") (lit "notes.txt") tt w in
  existsb is_rejected_embedding (new_events w (snd run)) = true
  /\ vectorStore (svc (snd run)) = vectorStore (svc w)
  /\ fst run = Returned {| ir_success := false; ir_blobId := lit "blob-1";
                           ir_chunksCreated := 0; ir_textLength := 0;
                           ir_error := Some (lit "Rate limit reached") |}.
Proof.
  intros w run.
  assert (Hrun : scripted_processDocument 9 (lit "blob-1")
                   (buffer_of "abcdefghijklm") (lit "notes.txt") tt w
                 = (fst run, snd run)) by (vm_compute; reflexivity).
  assert (Hrej : existsb is_rejected_embedding (new_events w (snd run)) = true)
    by (vm_compute; reflexivity).
  destruct (processDocument_atomic _ _ _ _ _ _ _ _ _ _ _ _ Hrun)
    as [Hatomic _].
  destruct (Hatomic Hrej) as [Hstore _].
  split; [exact Hrej|]. split; [exact Hstore|].
  vm_compute. reflexivity.
Defined.

(** ** Gathering and ranking *)

Section RetrievalFacts.

Context {CallerMeta : Type}.

Implicit Types store : JSMap (list (Chunk CallerMeta)).

Lemma fold_left_push_all {B} (f : B -> list (Chunk CallerMeta)) (l : list B) :
  forall acc, fold_left (fun allChunks x => allChunks ++ f x) l acc
              = acc ++ flat_map f l.
Proof.
  induction l as [|x l IH]; intros acc; cbn; [now rewrite app_nil_r|].
  now rewrite IH, app_assoc.
Qed.

Lemma collect_chunks_all store :
  collect_chunks store None = concat (map_values store).
Proof.
  unfold collect_chunks.
  rewrite (fold_left_push_all (fun chunks => chunks)). cbn [app].
  now rewrite flat_map_concat_map, map_id.
Qed.

Lemma collect_chunks_empty_filter store :
  collect_chunks store (Some []) = collect_chunks store None.
Proof. reflexivity. Qed.

Lemma flat_map_chunks_of_stored store (ids : list jsstring) :
  flat_map (chunks_of store) ids
  = flat_map (chunks_of store) (filter (is_stored store) ids).
Proof.
  induction ids as [|id ids IH]; [reflexivity|]. cbn [flat_map filter].
  rewrite IH. unfold is_stored at 2.
  destruct (map_get store id) eqn:E; [reflexivity|].
  unfold chunks_of at 1. now rewrite E.
Qed.

Lemma collect_chunks_filter store (id : jsstring) (ids : list jsstring) :
  collect_chunks store (Some (id :: ids))
  = flat_map (chunks_of store) (id :: ids).
Proof.
  unfold collect_chunks.
  replace (0 <? js_length (id :: ids)) with true
    by (symmetry; apply Z.ltb_lt; unfold js_length; cbn [length]; lia).
  cbv iota beta.
  transitivity (fold_left (fun allChunks docId => allChunks ++ chunks_of store docId)
                          (id :: ids) []).
  - apply fold_left_ext_in. intros acc docId _. unfold chunks_of.
    destruct (map_get store docId); [reflexivity|now rewrite app_nil_r].
  - now rewrite fold_left_push_all.
Qed.

Lemma js_slice_firstn {A} (l : list A) (k : Z) :
  0 < k -> js_slice l 0 k = firstn (Z.to_nat (Z.min k (js_length l))) l.
Proof.
  intros Hk. pose proof (js_length_nonneg l).
  rewrite js_slice_nonneg by lia.
  rewrite (Z.min_l 0) by lia. cbn [Z.to_nat skipn]. now rewrite Nat.sub_0_r.
Qed.

Lemma score_chunks_not_nan (qe : list number) (chunks : list (Chunk CallerMeta)) :
  forallb (fun c => negb (is_nan (cosineSimilarity qe (embedding c)))) chunks
  = true ->
  forall c, In c (score_chunks qe chunks) -> is_nan (score c) = false.
Proof.
  intros Hall c Hin. unfold score_chunks in Hin.
  apply in_map_iff in Hin as [chunk [<- Hin]]. cbn [score].
  rewrite forallb_forall in Hall. apply negb_true_iff. now apply Hall.
Qed.

Lemma by_score_consistent (l : list (ScoredChunk CallerMeta)) :
  (forall c, In c l -> is_nan (score c) = false) ->
  consistent_on by_score (fun c => place (score c)) l.
Proof.
  intros Hnan x y Hx Hy. unfold by_score.
  apply sub_pos_place; now apply Hnan.
Qed.

Lemma by_score_ties (v : number) (x y : ScoredChunk CallerMeta) :
  (score x =? v)%float = true -> (score y =? v)%float = true ->
  (zero <? by_score x y)%float = false.
Proof.
  intros Hx Hy.
  destruct (eqb_not_nan _ _ Hx) as [Hnx Hnv].
  destruct (eqb_not_nan _ _ Hy) as [Hny _].
  apply eqb_place in Hx; auto. apply eqb_place in Hy; auto.
  apply not_true_is_false. intros Ht.
  apply sub_pos_place in Ht; auto.
  rewrite Hx, <- Hy in Ht. now apply lex_lt_irrefl in Ht.
Qed.

(** The ranking of scores none of which is NaN: a stable sort in
    descending order, cut after [k]. *)
Lemma top_chunks_ranked (qe : list number) (chunks : list (Chunk CallerMeta))
      (k : Z) :
  0 < k ->
  forallb (fun c => negb (is_nan (cosineSimilarity qe (embedding c)))) chunks
  = true ->
  exists ranked : list (ScoredChunk CallerMeta),
    Permutation ranked (score_chunks qe chunks)
    /\ StronglySorted (fun a b => (score b <=? score a)%float = true) ranked
    /\ (forall v : number,
           filter (fun c => (score c =? v)%float) ranked
           = filter (fun c => (score c =? v)%float) (score_chunks qe chunks))
    /\ top_chunks qe chunks k
       = firstn (Z.to_nat (Z.min k (js_length chunks))) ranked.
Proof.
  intros Hk Hall.
  pose proof (score_chunks_not_nan qe chunks Hall) as Hnan.
  set (scored := score_chunks qe chunks) in *.
  exists (js_sort by_score scored).
  pose proof (js_sort_perm by_score scored) as Hperm.
  split; [exact Hperm|]. split; [|split].
  - pose proof (js_sort_sorted by_score (fun c => place (score c)) scored
                               (by_score_consistent scored Hnan)) as Hsorted.
    assert (Hnan' : forall c, In c (js_sort by_score scored) ->
                              is_nan (score c) = false).
    { intros c Hc. apply Hnan. eapply Permutation_in; eauto. }
    revert Hsorted Hnan'. generalize (js_sort by_score scored) as s.
    intros s Hsorted. induction Hsorted as [|a s Hs IH Ha]; intros Hn;
      constructor.
    + apply IH. intros c Hc. apply Hn. now right.
    + rewrite Forall_forall in *. intros b Hb.
      apply leb_place; [apply Hn; now right|apply Hn; now left|].
      now apply Ha.
  - intros v. apply js_sort_stable. intros x y _ _. apply by_score_ties.
  - unfold top_chunks. fold scored. rewrite js_slice_firstn by exact Hk.
    f_equal. f_equal. f_equal. unfold js_length.
    rewrite (Permutation_length Hperm). subst scored. unfold score_chunks.
    now rewrite length_map.
Qed.

End RetrievalFacts.

(** ** Claims on queries *)

Section QueryClaims.

Context {CallerMeta Ext : Type}.
Variable embeddings_create : jsstring -> jsstring -> Ext -> Settled (list number) * Ext.
Variable chat_completions_create : ChatRequest -> Ext -> Settled jsstring * Ext.

Implicit Types w : World CallerMeta Ext.

(** C4 (as amended).  [cosineSimilarity] does not compare the two
    dimensions: it reads the indices of the query vector only.  Components of
    a longer stored vector are ignored, a shorter stored vector gives the
    score NaN, and in neither case does the query abort: an available service
    whose provider calls are all fulfilled returns a result. *)
Theorem cosineSimilarity_no_dimension_check (a b : list number) :
  cosineSimilarity a b = cosineSimilarity a (firstn (length a) b)
  /\ ((length b < length a)%nat -> is_nan (cosineSimilarity a b) = true)
  /\ forall (question : jsstring) (documentIds : option (list jsstring))
            (topK_arg : option Z) w,
      available (svc w) = true ->
      forallb ev_fulfilled
              (new_events w (snd (queryDocuments embeddings_create
                                                 chat_completions_create
                                                 question documentIds topK_arg w)))
      = true ->
      exists res : QueryResult,
        fst (queryDocuments embeddings_create chat_completions_create
                            question documentIds topK_arg w)
        = Returned res.
Proof.
  split; [apply cosineSimilarity_ignores_tail|].
  split; [apply cosineSimilarity_short_nan|].
  intros question documentIds topK_arg w Hav. rewrite queryDocuments_run, Hav.
  cbv zeta.
  destruct (fst (embeddings_create embedding_model question (ext w))) as [qe|e].
  - destruct (js_length (collect_chunks (vectorStore (svc w)) documentIds) =? 0).
    + intros _. eexists. reflexivity.
    + cbn [fst snd].
      destruct (fst (chat_completions_create _ _)) as [answer|e].
      * intros _. eexists. reflexivity.
      * rewrite (new_events_app w _ [_; _]) by (cbn; now rewrite <- app_assoc).
        cbn. discriminate.
  - cbn [snd]. rewrite (new_events_app w _ [_]) by reflexivity.
    cbn. discriminate.
Qed.

(** C5.  When no score is NaN, the chunks behind the sources of an answer
    are the first [min k n] of the [n] candidates sorted by descending cosine
    similarity, candidates of equal score staying in the order in which they
    were gathered; with [k] at least [n] they are all the candidates. *)
Theorem queryDocuments_ranking (question : jsstring)
        (documentIds : option (list jsstring)) (k : Z) w
        (qe : list number) (x : Ext) :
  available (svc w) = true ->
  embeddings_create embedding_model question (ext w) = (Fulfilled qe, x) ->
  collect_chunks (vectorStore (svc w)) documentIds <> [] ->
  0 < k ->
  forallb (fun c => negb (is_nan (cosineSimilarity qe (embedding c))))
          (collect_chunks (vectorStore (svc w)) documentIds) = true ->
  exists ranked : list (ScoredChunk CallerMeta),
    Permutation ranked
                (score_chunks qe (collect_chunks (vectorStore (svc w)) documentIds))
    /\ StronglySorted (fun a b => (score b <=? score a)%float = true) ranked
    /\ (forall v : number,
           filter (fun c => (score c =? v)%float) ranked
           = filter (fun c => (score c =? v)%float)
                    (score_chunks qe (collect_chunks (vectorStore (svc w))
                                                     documentIds)))
    /\ top_chunks qe (collect_chunks (vectorStore (svc w)) documentIds) k
       = firstn (Z.to_nat (Z.min k (js_length
                   (collect_chunks (vectorStore (svc w)) documentIds)))) ranked
    /\ (js_length (collect_chunks (vectorStore (svc w)) documentIds) <= k ->
        top_chunks qe (collect_chunks (vectorStore (svc w)) documentIds) k
        = ranked)
    /\ forall (res : QueryResult) (w' : World CallerMeta Ext),
        queryDocuments embeddings_create chat_completions_create
                       question documentIds (Some k) w = (Returned res, w') ->
        qr_sources res
        = map format_source
              (firstn (Z.to_nat (Z.min k (js_length
                         (collect_chunks (vectorStore (svc w)) documentIds))))
                      ranked).
Proof.
  intros Hav Hemb Hcand Hk Hnan.
  set (candidates := collect_chunks (vectorStore (svc w)) documentIds) in *.
  destruct (top_chunks_ranked qe candidates k Hk Hnan)
    as [ranked [Hperm [Hsorted [Hstable Htop]]]].
  exists ranked. repeat split; auto.
  - intros Hall. rewrite Htop. rewrite Z.min_r by exact Hall.
    apply firstn_all2. unfold js_length. rewrite Nat2Z.id.
    rewrite (Permutation_length Hperm). unfold score_chunks.
    now rewrite length_map.
  - intros res w'. rewrite queryDocuments_run, Hav, Hemb. cbv zeta.
    cbn [fst snd]. fold candidates.
    destruct (js_length candidates =? 0) eqn:Hlen.
    + apply Z.eqb_eq in Hlen. destruct candidates; [contradiction|].
      unfold js_length in Hlen. cbn [length] in Hlen. lia.
    + assert (Hk' : topK_or_default (svc w) (Some k) = k).
      { unfold topK_or_default. destruct (Z.eqb_spec k 0); [lia|reflexivity]. }
      rewrite Hk'.
      destruct (fst (chat_completions_create _ _)); [|discriminate].
      intros [= <- _]. cbn [qr_sources]. now rewrite Htop.
Qed.

(** C6.  A query that finds no candidate chunk makes no completion call
    and can return nothing but the fixed answer with no sources; it does
    return it when the service is available and the embedding of the
    question is fulfilled. *)
Theorem queryDocuments_no_candidates (question : jsstring)
        (documentIds : option (list jsstring)) (topK_arg : option Z) w :
  collect_chunks (vectorStore (svc w)) documentIds = [] ->
  existsb is_completion
          (new_events w (snd (queryDocuments embeddings_create
                                             chat_completions_create
                                             question documentIds topK_arg w)))
  = false
  /\ (forall res : QueryResult,
         fst (queryDocuments embeddings_create chat_completions_create
                             question documentIds topK_arg w) = Returned res ->
         res = {| qr_answer := no_documents_answer; qr_sources := [];
                  qr_question := question |})
  /\ (available (svc w) = true ->
      forall (qe : list number) (x : Ext),
        embeddings_create embedding_model question (ext w) = (Fulfilled qe, x) ->
        queryDocuments embeddings_create chat_completions_create
                       question documentIds topK_arg w
        = (Returned {| qr_answer := no_documents_answer; qr_sources := [];
                       qr_question := question |},
           after_call w (Embedding embedding_model question)
                      (Fulfilled qe) x)).
Proof.
  intros Hnone. rewrite queryDocuments_run, Hnone. cbv zeta.
  change (js_length [] =? 0) with true. cbv iota. split; [|split].
  - destruct (available (svc w)); [|now rewrite new_events_same].
    destruct (fst (embeddings_create embedding_model question (ext w)));
      cbn [snd]; now rewrite (new_events_app w _ [_]) by reflexivity.
  - intros res. destruct (available (svc w)); [|discriminate].
    destruct (fst (embeddings_create embedding_model question (ext w)));
      cbn [fst]; [|discriminate]. now intros [= <-].
  - intros -> qe x ->. reflexivity.
Qed.


(** C10.  An available service awaits the embedding of the question first
    and awaits no other embedding; when there is no candidate chunk it is the
    only call of the query. *)
Theorem queryDocuments_embeds_first (question : jsstring)
        (documentIds : option (list jsstring)) (topK_arg : option Z) w :
  available (svc w) = true ->
  exists (first : Event) (rest : list Event),
    new_events w (snd (queryDocuments embeddings_create chat_completions_create
                                      question documentIds topK_arg w))
    = first :: rest
    /\ ev_call first = Embedding embedding_model question
    /\ existsb is_embedding rest = false
    /\ (collect_chunks (vectorStore (svc w)) documentIds = [] -> rest = []).
Proof.
  intros Hav. rewrite queryDocuments_run, Hav. cbv zeta.
  destruct (fst (embeddings_create embedding_model question (ext w))) as [qe|e].
  - destruct (js_length (collect_chunks (vectorStore (svc w)) documentIds) =? 0)
      eqn:Hlen; cbn [snd].
    + eexists _, []. rewrite (new_events_app w _ [_]) by reflexivity.
      repeat split.
    + eexists _, [_].
      rewrite (new_events_app w _ [_; _]) by (cbn; now rewrite <- app_assoc).
      repeat split. intros Hnone. rewrite Hnone in Hlen. discriminate.
  - cbn [snd]. eexists _, []. rewrite (new_events_app w _ [_]) by reflexivity.
    repeat split.
Qed.

End QueryClaims.

(** ** The claims on examples *)


(** C5, on an example: three chunks of scores 1, 0 and about 0.707 and
    [k = 2]. *)
Lemma queryDocuments_ranking_witness :
  let chunks := [stored_chunk 0 "alpha" [1; 0]%float;
                 stored_chunk 1 "beta" [0; 1]%float;
                 stored_chunk 2 "gamma" [1; 1]%float] in
  let w := scripted_world (service_with chunks)
                          [Fulfilled [1; 0]%float]
                          [Fulfilled (lit "An answer.")] in
  map (fun c => chunkIndex (sc_chunk c))
      (top_chunks [1; 0]%float (collect_chunks (vectorStore (svc w)) None) 2)
  = [0; 2]%nat
  /\ exists ranked : list (ScoredChunk unit),
      Permutation ranked
                  (score_chunks [1; 0]%float
                                (collect_chunks (vectorStore (svc w)) None))
      /\ StronglySorted (fun a b => (score b <=? score a)%float = true) ranked
      /\ top_chunks [1; 0]%float (collect_chunks (vectorStore (svc w)) None) 2
         = firstn 2 ranked.
Proof.
  intros chunks w. split; [vm_compute; reflexivity|].
  assert (Hav : available (svc w) = true) by reflexivity.
  assert (Hemb : scripted_embeddings_create embedding_model (lit "What is alpha?")
                                            (ext w)
                 = (Fulfilled [1; 0]%float,
                    {| embedding_replies := [];
                       completion_replies := [Fulfilled (lit "An answer.")];
                       pdf_replies := [] |})) by reflexivity.
  assert (Hcand : collect_chunks (vectorStore (svc w)) None <> [])
    by (vm_compute; discriminate).
  assert (Hk : 0 < 2) by reflexivity.
  assert (Hnan : forallb (fun c => negb (is_nan (cosineSimilarity
                                                   [1; 0]%float (embedding c))))
                         (collect_chunks (vectorStore (svc w)) None) = true)
    by (vm_compute; reflexivity).
  destruct (queryDocuments_ranking scripted_embeddings_create
                                   scripted_chat_completions_create
                                   (lit "What is alpha?") None 2 w _ _
                                   Hav Hemb Hcand Hk Hnan)
    as [ranked [Hperm [Hsorted [_ [Htop _]]]]].
  exists ranked. split; [exact Hperm|]. split; [exact Hsorted|exact Htop].
Defined.

(** C6, on an example: a question put to a fresh service. *)
Lemma queryDocuments_no_candidates_witness :
  let w := fresh_world 1000 200 [Fulfilled [1; 0]%float] [] in
  collect_chunks (vectorStore (svc w)) None = []
  /\ scripted_queryDocuments (lit "What is alpha?") None None w
     = (Returned {| qr_answer := no_documents_answer; qr_sources := [];
                    qr_question := lit "What is alpha?" |},
        after_call w (Embedding embedding_model (lit "What is alpha?"))
                   (Fulfilled [1; 0]%float)
                   {| embedding_replies := []; completion_replies := [];
                      pdf_replies := [] |})
  /\ existsb is_completion
             (new_events w (snd (scripted_queryDocuments (lit "What is alpha?")
                                                         None None w)))
     = false.
Proof.
  intros w.
  assert (Hnone : collect_chunks (vectorStore (svc w)) None = [])
    by reflexivity.
  destruct (queryDocuments_no_candidates scripted_embeddings_create
                                         scripted_chat_completions_create
                                         (lit "What is alpha?") None None w Hnone)
    as [Hcalls [_ Hanswer]].
  split; [exact Hnone|]. split; [|exact Hcalls].
  apply Hanswer; reflexivity.
Defined.

(** C10, on an example: the same question costs a fresh service one
    embedding call. *)
Lemma queryDocuments_embeds_first_witness :
  let w := fresh_world 1000 200 [Fulfilled [1; 0]%float] [] in
  available (svc w) = true
  /\ exists (first : Event) (rest : list Event),
      new_events w (snd (scripted_queryDocuments (lit "What is alpha?")
                                                 None None w))
      = first :: rest
      /\ ev_call first = Embedding embedding_model (lit "What is alpha?")
      /\ existsb is_embedding rest = false
      /\ (collect_chunks (vectorStore (svc w)) None = [] -> rest = []).
Proof.
  intros w.
  assert (Hav : available (svc w) = true) by reflexivity.
  split; [exact Hav|].
  exact (queryDocuments_embeds_first scripted_embeddings_create
                                     scripted_chat_completions_create
                                     (lit "What is alpha?") None None w Hav).
Defined.

(** C4, counterexample.  A query vector of 2 components against a stored
    vector of 3, and against a stored vector of 1: both queries return an
    answer with a scored source, the first with score 1, the second with
    score NaN. *)
Lemma queryDocuments_dimension_mismatch_returns :
  let longer := scripted_world
                  (service_with [stored_chunk 0 "alpha" [1; 0; 5]%float])
                  [Fulfilled [1; 0]%float] [Fulfilled (lit "An answer.")] in
  let shorter := scripted_world
                   (service_with [stored_chunk 0 "alpha" [1]%float])
                   [Fulfilled [1; 0]%float] [Fulfilled (lit "An answer.")] in
  (exists (res : QueryResult) (w' : World unit Script),
      scripted_queryDocuments (lit "What is alpha?") None None longer
      = (Returned res, w')
      /\ qr_answer res = lit "An answer."
      /\ map src_score (qr_sources res) = [1%float])
  /\ (exists (res : QueryResult) (w' : World unit Script),
         scripted_queryDocuments (lit "What is alpha?") None None shorter
         = (Returned res, w')
         /\ qr_answer res = lit "An answer."
         /\ map src_score (qr_sources res) = [nan]).
Proof.
  intros longer shorter. split.
  - eexists _, _. split; [vm_compute; reflexivity|]. split; reflexivity.
  - eexists _, _. split; [vm_compute; reflexivity|]. split; reflexivity.
Qed.

(** C5, counterexample.  A stored vector of zeros scores NaN against any
    question.  The comparator then gives NaN for that chunk against the
    other, which the sort takes for "equal", so the two candidates stay in
    the order in which they were gathered and [topK = 1] returns the chunk of
    score NaN, leaving out the chunk of score 1; and no arrangement of the
    two candidates is in descending order of score. *)
Lemma queryDocuments_ranking_nan_first :
  let chunks := [stored_chunk 0 "alpha" [0; 0]%float;
                 stored_chunk 1 "beta" [1; 0]%float] in
  let w := scripted_world (service_with chunks)
                          [Fulfilled [1; 0]%float]
                          [Fulfilled (lit "An answer.")] in
  available (svc w) = true
  /\ collect_chunks (vectorStore (svc w)) None = chunks
  /\ map (fun c => cosineSimilarity [1; 0]%float (embedding c)) chunks
     = [nan; 1%float]
  /\ (exists (res : QueryResult) (w' : World unit Script),
         scripted_queryDocuments (lit "What is alpha?") None (Some 1) w
         = (Returned res, w')
         /\ map src_chunkIndex (qr_sources res) = [0%nat]
         /\ map src_score (qr_sources res) = [nan])
  /\ (forall ranked : list (ScoredChunk unit),
         Permutation ranked (score_chunks [1; 0]%float chunks) ->
         ~ StronglySorted (fun a b => (score b <=? score a)%float = true)
                          ranked).
Proof.
  intros chunks w. split; [reflexivity|]. split; [reflexivity|].
  split; [vm_compute; reflexivity|]. split.
  - eexists _, _. split; [vm_compute; reflexivity|]. split; reflexivity.
  - intros ranked Hperm Hsorted.
    assert (Hcases : ranked = score_chunks [1; 0]%float chunks
                     \/ ranked = rev (score_chunks [1; 0]%float chunks)).
    { apply Permutation_sym in Hperm.
      apply Permutation_length_2_inv in Hperm. exact Hperm. }
    destruct Hcases as [-> | ->];
      inversion Hsorted as [|a l _ Hfirst]; subst;
      inversion Hfirst as [|b l' Hab _]; subst;
      vm_compute in Hab; discriminate Hab.
Qed.


(* ================================================================= *)
(** * Further facts *)

(** ** More on the chunker *)

Lemma firstn_js_slice {A} (s : list A) (a b : Z) (n : nat) :
  0 <= a -> a <= b -> b <= js_length s ->
  firstn n (js_slice s a b) = js_slice s a (Z.min (a + Z.of_nat n) b).
Proof.
  intros Ha Hab Hb.
  assert (Hm : a <= Z.min (a + Z.of_nat n) b) by (apply Z.min_glb; lia).
  assert (Hm' : Z.min (a + Z.of_nat n) b <= b) by apply Z.le_min_r.
  rewrite <- (js_slice_glue s a (Z.min (a + Z.of_nat n) b) b) by assumption.
  destruct (Z.le_gt_cases (a + Z.of_nat n) b) as [Hle|Hgt].
  - rewrite Z.min_l by exact Hle.
    assert (Hlen : length (js_slice s a (a + Z.of_nat n)) = n).
    { apply Nat2Z.inj. fold (js_length (js_slice s a (a + Z.of_nat n))).
      rewrite js_slice_length; lia. }
    rewrite firstn_app, Hlen, Nat.sub_diag, firstn_O, app_nil_r.
    apply firstn_all2. lia.
  - rewrite Z.min_r by lia. rewrite (js_slice_empty s b b) by lia.
    rewrite app_nil_r. apply firstn_all2.
    apply Nat2Z.inj_le. fold (js_length (js_slice s a b)).
    rewrite js_slice_length; lia.
Qed.

Lemma windows_lengths (size overlap : Z) (text : jsstring) (n : nat) :
  0 < size -> 0 < size - overlap ->
  forall start : Z,
    0 <= start ->
    start + (Z.of_nat n - 1) * (size - overlap) < js_length text ->
    Forall (fun c => 0 < js_length c <= size)
           (windows size overlap n text start).
Proof.
  intros Hsize Hstride. induction n as [|n IH]; intros start Hstart Hlast;
    [constructor|].
  cbn [windows]. constructor.
  - assert (Hs : start < js_length text) by nia.
    assert (Hm : start < Z.min (start + size) (js_length text))
      by (apply Z.min_glb_lt; lia).
    assert (Hm' : Z.min (start + size) (js_length text) <= start + size)
      by apply Z.le_min_l.
    rewrite js_slice_length; [lia|lia|lia|apply Z.le_min_r].
  - apply IH; nia.
Qed.

(** X1.  With a positive chunk size, every chunk the chunker returns has at
    least one and at most [chunkSize] code units. *)
Theorem splitIntoChunks_chunk_lengths (size overlap : Z) (fuel : nat)
        (text : jsstring) (chunks : list jsstring) :
  0 < size ->
  splitIntoChunks size overlap fuel text = Some chunks ->
  Forall (fun c => 0 < js_length c <= size) chunks.
Proof.
  intros Hsize Hrun. pose proof (js_length_nonneg text) as Hl.
  destruct (Z.eq_dec (js_length text) 0) as [H0|H0].
  - destruct fuel as [|fuel]; [discriminate|].
    rewrite splitIntoChunks_empty in Hrun by exact H0.
    injection Hrun as <-. constructor.
  - destruct (Z.lt_ge_cases 0 (size - overlap)) as [Hstride|Hstride].
    + apply splitIntoChunks_sound in Hrun; [|exact Hstride|lia]. subst chunks.
      pose proof (ceil_div_bounds (js_length text) (size - overlap) Hstride).
      pose proof (ceil_div_pos (js_length text) (size - overlap)
                               ltac:(lia) Hstride).
      apply windows_lengths; auto; lia.
    + unfold splitIntoChunks in Hrun.
      rewrite splitIntoChunks_loop_diverges in Hrun by lia. discriminate.
Qed.

Lemma splitIntoChunks_chunk_lengths_witness :
  0 < 1000
  /\ splitIntoChunks 1000 200 2 (digits 900) = Some [digits 900; digits 100]
  /\ Forall (fun c => 0 < js_length c <= 1000) [digits 900; digits 100].
Proof.
  assert (H1 : 0 < 1000) by reflexivity.
  assert (H2 : splitIntoChunks 1000 200 2 (digits 900)
               = Some [digits 900; digits 100]) by (vm_compute; reflexivity).
  exact (conj H1 (conj H2 (splitIntoChunks_chunk_lengths _ _ _ _ _ H1 H2))).
Defined.

(** X2.  A chunk of full size and the chunk after it share exactly
    [chunkOverlap] code units: what is left of the first after a stride is
    the beginning of the second. *)
Theorem splitIntoChunks_consecutive_overlap (size overlap : Z) (fuel : nat)
        (text : jsstring) (chunks : list jsstring) (i : nat) :
  0 <= overlap -> overlap < size ->
  splitIntoChunks size overlap fuel text = Some chunks ->
  (S i < length chunks)%nat ->
  Z.of_nat i * (size - overlap) + size <= js_length text ->
  skipn (Z.to_nat (size - overlap)) (nth i chunks [])
  = firstn (Z.to_nat overlap) (nth (S i) chunks [])
  /\ js_length (firstn (Z.to_nat overlap) (nth (S i) chunks [])) = overlap.
Proof.
  intros Ho Hs Hrun Hi Hfull. pose proof (js_length_nonneg text) as Hl.
  assert (Hlen : 0 < js_length text) by nia.
  apply splitIntoChunks_sound in Hrun; [|lia|exact Hlen]. subst chunks.
  rewrite length_windows in Hi.
  rewrite !nth_windows by lia. rewrite !Z.add_0_l.
  rewrite Nat2Z.inj_succ.
  set (a := Z.of_nat i * (size - overlap)) in *.
  assert (Ha : 0 <= a) by (subst a; apply Z.mul_nonneg_nonneg; lia).
  replace (Z.succ (Z.of_nat i) * (size - overlap)) with (a + (size - overlap))
    by (subst a; ring).
  rewrite (Z.min_l (a + size)) by exact Hfull.
  assert (Hm : a + size <= Z.min (a + (size - overlap) + size) (js_length text))
    by (apply Z.min_glb; lia).
  assert (Hm' : Z.min (a + (size - overlap) + size) (js_length text)
                <= js_length text) by apply Z.le_min_r.
  rewrite skipn_js_slice by lia.
  rewrite firstn_js_slice by lia.
  rewrite !Z2Nat.id by lia.
  rewrite (Z.min_l (a + (size - overlap)) (a + size)) by lia.
  replace (a + (size - overlap) + overlap) with (a + size) by ring.
  rewrite (Z.min_l (a + size)) by exact Hm.
  split; [reflexivity|]. rewrite js_slice_length; lia.
Qed.

Lemma splitIntoChunks_consecutive_overlap_witness :
  0 <= 1 /\ 1 < 4
  /\ splitIntoChunks 4 1 9 (lit "abcdefghijklm")
     = Some [lit "abcd"; lit "defg"; lit "ghij"; lit "jklm"; lit "m"]
  /\ skipn (Z.to_nat (4 - 1)) (lit "defg") = firstn (Z.to_nat 1) (lit "ghij").
Proof.
  assert (H1 : 0 <= 1) by discriminate.
  assert (H2 : 1 < 4) by reflexivity.
  assert (H3 : splitIntoChunks 4 1 9 (lit "abcdefghijklm")
               = Some [lit "abcd"; lit "defg"; lit "ghij"; lit "jklm"; lit "m"])
    by (vm_compute; reflexivity).
  assert (H4 : (2 < length [lit "abcd"; lit "defg"; lit "ghij"; lit "jklm";
                            lit "m"])%nat) by (cbn; lia).
  assert (H5 : Z.of_nat 1 * (4 - 1) + 4 <= js_length (lit "abcdefghijklm"))
    by (vm_compute; discriminate).
  exact (conj H1 (conj H2 (conj H3
           (proj1 (splitIntoChunks_consecutive_overlap 4 1 9 _ _ 1
                     H1 H2 H3 H4 H5))))).
Defined.

(** On integer settings the chunker over all numbers is the chunker of the
    service. *)
Lemma splitIntoChunks_any_loop_integer (size overlap : Z) (text : jsstring)
      (fuel : nat) :
  forall (start : Z) (chunks : list jsstring),
    splitIntoChunks_any_loop (Integer size) (Integer overlap) fuel text
                             (Integer start) chunks
    = splitIntoChunks_loop size overlap fuel text start chunks.
Proof.
  induction fuel as [|fuel IH]; intros start chunks; [reflexivity|].
  cbn [splitIntoChunks_any_loop splitIntoChunks_loop js_ltb js_add js_sub].
  destruct (start <? js_length text); [|reflexivity].
  cbn [Math_min js_ltb js_geb js_leb].
  replace (js_slice_any text (Integer start)
             (if start + size <? js_length text
              then Integer (start + size) else Integer (js_length text)))
    with (js_slice text start (Z.min (start + size) (js_length text))).
  - rewrite <- Z.geb_leb.
    destruct (start + (size - overlap) >=? js_length text); [reflexivity|].
    apply IH.
  - unfold Z.min. rewrite Z.ltb_compare.
    destruct (start + size ?= js_length text) eqn:E; try reflexivity.
    apply Z.compare_eq in E. now rewrite E.
Qed.

Lemma js_add_not_above_zero (a b : JSInteger) :
  not_above_zero a -> not_above_zero b -> not_above_zero (js_add a b).
Proof.
  destruct a, b; cbn; try tauto. lia.
Qed.

Lemma js_sub_not_above_zero (size overlap : JSInteger) :
  js_leb size overlap = true ->
  js_sub size overlap <> NotANumber ->
  not_above_zero (js_sub size overlap).
Proof.
  destruct size, overlap; cbn; try discriminate; try tauto; try congruence.
  intros H _. apply Z.leb_le in H. lia.
Qed.

(** With a stride that is not above zero, [start] never gets past the
    beginning of a text that is not empty. *)
Lemma splitIntoChunks_any_loop_diverges (size overlap : JSInteger)
      (text : jsstring) (fuel : nat) :
  0 < js_length text ->
  not_above_zero (js_sub size overlap) ->
  forall (start : JSInteger) (chunks : list jsstring),
    not_above_zero start ->
    splitIntoChunks_any_loop size overlap fuel text start chunks = None.
Proof.
  intros Hlen Hstride. induction fuel as [|fuel IH]; intros start chunks Hstart;
    [reflexivity|].
  cbn [splitIntoChunks_any_loop].
  assert (Hlt : forall x, not_above_zero x ->
                          js_ltb x (Integer (js_length text)) = true
                          /\ js_geb x (Integer (js_length text)) = false).
  { intros [z| | |]; cbn; try tauto. intros Hz. split.
    - apply Z.ltb_lt. lia.
    - apply Z.leb_gt. lia. }
  pose proof (js_add_not_above_zero _ _ Hstart Hstride) as Hnext.
  destruct (Hlt _ Hstart) as [-> _]. destruct (Hlt _ Hnext) as [_ ->].
  now apply IH.
Qed.



(** ** More on cosine similarity *)

Lemma SFmul_comm (x y : spec_float) : SF64mul x y = SF64mul y x.
Proof.
  unfold SF64mul, SFmul.
  destruct x as [sx|sx| |sx mx ex], y as [sy|sy| |sy my ey];
    try reflexivity; try (now rewrite xorb_comm).
  now rewrite xorb_comm, Pos.mul_comm, Z.add_comm.
Qed.

Lemma mul_comm (x y : number) : (x * y)%float = (y * x)%float.
Proof.
  apply Prim2SF_inj. rewrite !mul_spec. apply SFmul_comm.
Qed.

(** Exchanging the two vectors exchanges the two norms. *)
Lemma cosine_fold_swap (a b : list number) (l : list nat) :
  forall d na nb,
    fold_left (cosine_step b a) l (d, nb, na)
    = let '(d', na', nb') := fold_left (cosine_step a b) l (d, na, nb) in
      (d', nb', na').
Proof.
  induction l as [|i l IH]; intros d na nb; [reflexivity|].
  cbn [fold_left]. unfold cosine_step at 2 4.
  rewrite (mul_comm (js_index b i) (js_index a i)). apply IH.
Qed.

(** X4.  On two vectors of the same length the similarity does not depend
    on which of them is the query. *)
Theorem cosineSimilarity_symmetric (a b : list number) :
  length a = length b ->
  cosineSimilarity a b = cosineSimilarity b a.
Proof.
  intros Hlen. unfold cosineSimilarity. rewrite <- Hlen.
  rewrite (cosine_fold_swap a b).
  destruct (fold_left (cosine_step a b) _ _) as [[d na] nb].
  now rewrite mul_comm.
Qed.

Lemma cosineSimilarity_symmetric_witness :
  length [1; 2; 2]%float = length [3; 0; 4]%float
  /\ cosineSimilarity [1; 2; 2]%float [3; 0; 4]%float
     = cosineSimilarity [3; 0; 4]%float [1; 2; 2]%float.
Proof.
  assert (H : length [1; 2; 2]%float = length [3; 0; 4]%float) by reflexivity.
  exact (conj H (cosineSimilarity_symmetric _ _ H)).
Defined.

Lemma is_zero_spec (x : number) :
  is_zero x = true -> exists s, Prim2SF x = S754_zero s.
Proof.
  unfold is_zero. rewrite eqb_spec.
  change (Prim2SF zero) with (S754_zero false). unfold SFeqb.
  destruct (Prim2SF x) as [s|s| |s m e]; try discriminate; [eauto| |];
    destruct s; discriminate.
Qed.

Lemma zero_or_nan_add (x y : number) :
  zero_or_nan x -> zero_or_nan y -> zero_or_nan (x + y)%float.
Proof.
  unfold zero_or_nan. rewrite add_spec. unfold SF64add, SFadd.
  intros [Hx|[sx Hx]] [Hy|[sy Hy]]; rewrite Hx; try rewrite Hy; auto.
  right. destruct sx, sy; eauto.
Qed.

Lemma zero_or_nan_mul (x y : number) :
  zero_or_nan x -> zero_or_nan (x * y)%float.
Proof.
  unfold zero_or_nan. rewrite mul_spec. unfold SF64mul, SFmul.
  intros [Hx|[sx Hx]]; rewrite Hx;
    destruct (Prim2SF y) as [sy|sy| |sy my ey]; eauto.
Qed.

Lemma zero_or_nan_sqrt (x : number) :
  zero_or_nan x -> zero_or_nan (sqrt x).
Proof.
  unfold zero_or_nan. rewrite sqrt_spec. unfold SF64sqrt, SFsqrt.
  intros [Hx|[sx Hx]]; rewrite Hx; eauto.
Qed.

Lemma zero_or_nan_div (x y : number) :
  zero_or_nan x -> zero_or_nan y -> is_nan (x / y)%float = true.
Proof.
  unfold zero_or_nan. rewrite Prim2SF_nan_iff, div_spec.
  unfold SF64div, SFdiv.
  intros [Hx|[sx Hx]] [Hy|[sy Hy]]; rewrite Hx; try rewrite Hy; reflexivity.
Qed.

Lemma cosine_fold_zero (a b : list number) (l : list nat) :
  (forall i, In i l -> is_zero (js_index a i) = true) ->
  forall d na nb,
    zero_or_nan d -> zero_or_nan na ->
    zero_or_nan (fst (fst (fold_left (cosine_step a b) l (d, na, nb))))
    /\ zero_or_nan (snd (fst (fold_left (cosine_step a b) l (d, na, nb)))).
Proof.
  induction l as [|i l IH]; intros Hz d na nb Hd Hna; [now split|].
  cbn [fold_left]. unfold cosine_step at 2 4.
  assert (Hi : zero_or_nan (js_index a i)).
  { right. apply is_zero_spec, Hz. now left. }
  apply IH.
  - intros j Hj. apply Hz. now right.
  - apply zero_or_nan_add; [exact Hd|now apply zero_or_nan_mul].
  - apply zero_or_nan_add; [exact Hna|now apply zero_or_nan_mul].
Qed.

(** X5.  A query vector all of whose components are zero, the empty
    vector among them, scores NaN against every stored vector: the division
    by the zero norm is not guarded. *)
Theorem cosineSimilarity_zero_query (a b : list number) :
  forallb is_zero a = true ->
  is_nan (cosineSimilarity a b) = true.
Proof.
  intros Hz. unfold cosineSimilarity.
  assert (Hzero : zero_or_nan zero) by (right; exists false; reflexivity).
  destruct (cosine_fold_zero a b (seq 0 (length a))) with
    (d := zero) (na := zero) (nb := zero) as [Hd Hna]; auto.
  { intros i Hi%in_seq. unfold js_index.
    rewrite forallb_forall in Hz. apply Hz, nth_In. lia. }
  destruct (fold_left _ _ _) as [[d na] nb]. cbn [fst snd] in *.
  apply zero_or_nan_div; [exact Hd|].
  now apply zero_or_nan_mul, zero_or_nan_sqrt.
Qed.

Lemma cosineSimilarity_zero_query_witness :
  forallb is_zero [0; 0]%float = true
  /\ is_nan (cosineSimilarity [0; 0]%float [1; 2]%float) = true.
Proof.
  assert (H : forallb is_zero [0; 0]%float = true) by reflexivity.
  exact (conj H (cosineSimilarity_zero_query _ _ H)).
Defined.

(** ** The store *)

Lemma jsstring_eqb_eq (a b : jsstring) : jsstring_eqb a b = true <-> a = b.
Proof.
  unfold jsstring_eqb. destruct (jsstring_eq_dec a b); split;
    congruence.
Qed.

Lemma jsstring_eqb_refl (a : jsstring) : jsstring_eqb a a = true.
Proof. now apply jsstring_eqb_eq. Qed.

Lemma jsstring_eqb_neq (a b : jsstring) : a <> b -> jsstring_eqb a b = false.
Proof.
  intros H. apply not_true_is_false. now rewrite jsstring_eqb_eq.
Qed.

Section MapFacts.

Context {V : Type}.
Implicit Types m : JSMap V.

Lemma map_get_set_same m (k : jsstring) (v : V) :
  map_get (map_set m k v) k = Some v.
Proof.
  induction m as [|[k' v'] m IH]; cbn.
  - now rewrite jsstring_eqb_refl.
  - destruct (jsstring_eqb k k') eqn:E; cbn.
    + now rewrite jsstring_eqb_refl.
    + now rewrite E.
Qed.

Lemma map_get_set_other m (k k' : jsstring) (v : V) :
  k' <> k -> map_get (map_set m k v) k' = map_get m k'.
Proof.
  intros Hne. induction m as [|[k'' v''] m IH]; cbn.
  - now rewrite jsstring_eqb_neq.
  - destruct (jsstring_eqb k k'') eqn:E; cbn.
    + apply jsstring_eqb_eq in E. subst k''.
      now rewrite jsstring_eqb_neq.
    + now rewrite IH.
Qed.

Lemma map_get_none_keys m (k : jsstring) :
  map_get m k = None <-> ~ In k (map fst m).
Proof.
  induction m as [|[k' v'] m IH]; cbn; [tauto|].
  destruct (jsstring_eqb k k') eqn:E.
  - apply jsstring_eqb_eq in E. subst k'. split; [discriminate|tauto].
  - rewrite IH. split; [|tauto].
    intros Hn [Heq|Hin]; [|tauto]. subst k'.
    now rewrite jsstring_eqb_refl in E.
Qed.

(** [set] keeps the order of the keys: a new key goes to the end. *)
Lemma map_set_keys m (k : jsstring) (v : V) :
  map fst (map_set m k v)
  = match map_get m k with
    | Some _ => map fst m
    | None => map fst m ++ [k]
    end.
Proof.
  induction m as [|[k' v'] m IH]; cbn; [reflexivity|].
  destruct (jsstring_eqb k k') eqn:E; cbn.
  - apply jsstring_eqb_eq in E. now subst k'.
  - rewrite IH. now destruct (map_get m k).
Qed.

Lemma map_set_NoDup m (k : jsstring) (v : V) :
  NoDup (map fst m) -> NoDup (map fst (map_set m k v)).
Proof.
  intros Hnd. rewrite map_set_keys. destruct (map_get m k) eqn:E; [exact Hnd|].
  apply map_get_none_keys in E.
  apply NoDup_app; [exact Hnd|repeat constructor; intros []|].
  intros x Hx [<-|[]]. contradiction.
Qed.

Lemma map_delete_keys_incl m (k k' : jsstring) :
  In k' (map fst (map_delete m k)) -> In k' (map fst m).
Proof.
  induction m as [|[k'' v''] m IH]; cbn; [tauto|].
  destruct (jsstring_eqb k k''); cbn; tauto.
Qed.

Lemma map_delete_NoDup m (k : jsstring) :
  NoDup (map fst m) -> NoDup (map fst (map_delete m k)).
Proof.
  induction m as [|[k' v'] m IH]; cbn; [auto|].
  intros Hnd. inversion Hnd as [|? ? Hnotin Hnd']; subst.
  destruct (jsstring_eqb k k'); cbn; [exact Hnd'|].
  constructor; [|now apply IH].
  intros Hin. now apply map_delete_keys_incl in Hin.
Qed.

Lemma map_get_delete_same m (k : jsstring) :
  NoDup (map fst m) -> map_get (map_delete m k) k = None.
Proof.
  induction m as [|[k' v'] m IH]; cbn; [reflexivity|].
  intros Hnd. inversion Hnd as [|? ? Hnotin Hnd']; subst.
  destruct (jsstring_eqb k k') eqn:E; cbn.
  - apply jsstring_eqb_eq in E. subst k'. now apply map_get_none_keys.
  - rewrite E. now apply IH.
Qed.

Lemma map_get_delete_other m (k k' : jsstring) :
  k' <> k -> map_get (map_delete m k) k' = map_get m k'.
Proof.
  intros Hne. induction m as [|[k'' v''] m IH]; cbn; [reflexivity|].
  destruct (jsstring_eqb k k'') eqn:E; cbn.
  - apply jsstring_eqb_eq in E. subst k''. now rewrite jsstring_eqb_neq.
  - now rewrite IH.
Qed.

Lemma map_delete_absent m (k : jsstring) :
  map_get m k = None -> map_delete m k = m.
Proof.
  induction m as [|[k' v'] m IH]; cbn; [reflexivity|].
  destruct (jsstring_eqb k k'); [discriminate|].
  intros H. now rewrite IH.
Qed.

Lemma map_get_In m (k : jsstring) (v : V) :
  map_get m k = Some v -> In (k, v) m.
Proof.
  induction m as [|[k' v'] m IH]; cbn; [discriminate|].
  destruct (jsstring_eqb k k') eqn:E.
  - apply jsstring_eqb_eq in E. subst k'. intros [= ->]. now left.
  - intros H. right. now apply IH.
Qed.

Lemma map_set_Forall (P : jsstring * V -> Prop) m (k : jsstring) (v : V) :
  Forall P m -> P (k, v) -> Forall P (map_set m k v).
Proof.
  intros Hm Hv. induction Hm as [|[k' v'] m Hkv Hm IH]; cbn.
  - now repeat constructor.
  - destruct (jsstring_eqb k k'); constructor; auto.
Qed.

Lemma map_delete_Forall (P : jsstring * V -> Prop) m (k : jsstring) :
  Forall P m -> Forall P (map_delete m k).
Proof.
  intros Hm. induction Hm as [|[k' v'] m Hkv Hm IH]; cbn; [constructor|].
  destruct (jsstring_eqb k k'); [exact Hm|]. constructor; auto.
Qed.

End MapFacts.

(** ** Ingestion, deletion and statistics *)

Section StoreClaims.

Context {CallerMeta Ext : Type}.
Variable pdf : Buffer -> Ext -> Settled jsstring * Ext.
Variable embeddings_create : jsstring -> jsstring -> Ext -> Settled (list number) * Ext.
Variable chat_completions_create : ChatRequest -> Ext -> Settled jsstring * Ext.
Variable toString_utf8 : Buffer -> jsstring.
Variable toLowerCase : jsstring -> jsstring.

Implicit Types w : World CallerMeta Ext.

(** The records the loop over the chunks builds: numbered from [i] on, each
    with the metadata of the document. *)
Lemma embed_chunks_records (blobId filename : jsstring) (metadata_ : CallerMeta)
      (chunks : list jsstring) :
  forall (i : nat) (done : list (Chunk CallerMeta)) w
         (documentChunks : list (Chunk CallerMeta)) w',
    embed_chunks embeddings_create blobId filename metadata_ chunks i done w
    = (Returned documentChunks, w') ->
    map chunkIndex documentChunks
    = map chunkIndex done ++ seq i (length chunks)
    /\ map metadata documentChunks
       = map metadata done
         ++ repeat {| md_caller := metadata_; md_filename := filename;
                      md_blobId := blobId |} (length chunks).
Proof.
  induction chunks as [|chunk rest IH]; intros i done w dcs w' Hrun.
  - cbn in Hrun. injection Hrun as <- _. cbn. now rewrite !app_nil_r.
  - cbn [embed_chunks] in Hrun. unfold bind in Hrun.
    destruct (getEmbedding embeddings_create chunk w) as [[emb|e|] w1];
      try discriminate.
    apply IH in Hrun. destruct Hrun as [Hidx Hmd].
    rewrite Hidx, Hmd, !map_app, <- !app_assoc. split; reflexivity.
Qed.

(** A successful ingestion, in full. *)
Lemma processDocument_success (fuel : nat) (blobId : jsstring) (content : Buffer)
      (filename : jsstring) (metadata_ : CallerMeta) w (res : IngestResult) w' :
  processDocument pdf embeddings_create toString_utf8 toLowerCase
                  fuel blobId content filename metadata_ w = (Returned res, w') ->
  ir_success res = true ->
  exists (t : jsstring) (w1 : World CallerMeta Ext) (chunks : list jsstring)
         (documentChunks : list (Chunk CallerMeta)),
    extractText pdf toString_utf8 toLowerCase content filename w
    = (Returned t, w1)
    /\ splitIntoChunks (chunkSize (svc w)) (chunkOverlap (svc w)) fuel t
       = Some chunks
    /\ 0 < js_length t
    /\ embed_chunks embeddings_create blobId filename metadata_ chunks 0 [] w1
       = (Returned documentChunks,
          {| svc := svc w; ext := ext w'; trace := trace w' |})
    /\ svc w' = with_store (svc w)
                           (map_set (vectorStore (svc w)) blobId documentChunks)
    /\ res = {| ir_success := true; ir_blobId := blobId;
                ir_chunksCreated := js_length chunks;
                ir_textLength := js_length t; ir_error := None |}.
Proof.
  unfold processDocument. unfold bind at 1. unfold this at 1. cbn beta iota.
  destruct (available (svc w)) eqn:Hav; cbn [negb];
    [|cbn; intros [= <- _]; discriminate].
  destruct (extractText_returns pdf toString_utf8 toLowerCase content filename w)
    as [t [w1 [evs1 [Hext [Hsvc1 [Htr1 Hemb1]]]]]].
  unfold try_catch, bind at 1. rewrite Hext.
  destruct ((js_length t =? 0) || (js_length (trim t) =? 0)) eqn:Hblank;
    [cbn; intros [= <- _]; discriminate|].
  apply orb_false_elim in Hblank as [Hne _]. apply Z.eqb_neq in Hne.
  pose proof (js_length_nonneg t) as Hl.
  unfold bind at 1.
  destruct (splitIntoChunks (chunkSize (svc w)) (chunkOverlap (svc w)) fuel t)
    as [chunks|] eqn:Hsplit; cbn [of_fuel]; [|discriminate].
  unfold bind at 1.
  destruct (embed_chunks embeddings_create blobId filename metadata_ chunks
                         0 [] w1) as [r2 w2] eqn:Hembed.
  pose proof Hembed as Hrun.
  apply embed_chunks_run in Hrun; [|now rewrite Hsvc1].
  destruct Hrun as [Hsvc2 _].
  destruct r2 as [dcs|e|]; [|cbn; intros [= <- _]; discriminate|discriminate].
  destruct w2 as [s2 x2 tr2]. cbn [svc] in Hsvc2. subst s2.
  rewrite Hsvc1 in Hembed.
  cbn. intros [= <- <-] _. exists t, w1, chunks, dcs. cbn.
  rewrite Hsvc1. repeat split; auto; lia.
Qed.

Lemma filter_embedding_app (evs1 evs2 : list Event) :
  existsb is_embedding evs1 = false ->
  forallb is_fulfilled_embedding evs2 = true ->
  filter is_embedding (evs1 ++ evs2) = evs2.
Proof.
  intros H1 H2. rewrite filter_app.
  assert (E1 : filter is_embedding evs1 = []).
  { induction evs1 as [|ev evs1 IH]; [reflexivity|]. cbn in *.
    apply orb_false_elim in H1 as [-> H1]. now apply IH. }
  assert (E2 : filter is_embedding evs2 = evs2).
  { induction evs2 as [|ev evs2 IH]; [reflexivity|]. cbn in *.
    apply andb_prop in H2 as [Hev H2]. unfold is_fulfilled_embedding in Hev.
    apply andb_prop in Hev as [-> _]. now rewrite IH. }
  now rewrite E1, E2.
Qed.

(** What a successful ingestion leaves in the store. *)
Lemma processDocument_success_records (fuel : nat) (blobId : jsstring)
        (content : Buffer) (filename : jsstring) (metadata_ : CallerMeta)
        w (res : IngestResult) w' :
  processDocument pdf embeddings_create toString_utf8 toLowerCase
                  fuel blobId content filename metadata_ w = (Returned res, w') ->
  ir_success res = true ->
  exists (t : jsstring) (w1 : World CallerMeta Ext) (chunks : list jsstring)
         (documentChunks : list (Chunk CallerMeta)),
    extractText pdf toString_utf8 toLowerCase content filename w
    = (Returned t, w1)
    /\ splitIntoChunks (chunkSize (svc w)) (chunkOverlap (svc w)) fuel t
       = Some chunks
    /\ chunks <> []
    /\ map_get (vectorStore (svc w')) blobId = Some documentChunks
    /\ map text documentChunks = chunks
    /\ map chunkIndex documentChunks = seq 0 (length chunks)
    /\ Forall (fun c => metadata c = {| md_caller := metadata_;
                                        md_filename := filename;
                                        md_blobId := blobId |}) documentChunks
    /\ ir_chunksCreated res = js_length documentChunks
    /\ ir_textLength res = js_length t
    /\ ir_error res = None.
Proof.
  intros Hrun Hok.
  destruct (processDocument_success _ _ _ _ _ _ _ _ Hrun Hok)
    as [t [w1 [chunks [dcs [Hext [Hsplit [Hlen [Hembed [Hsvc ->]]]]]]]]].
  exists t, w1, chunks, dcs.
  pose proof (extractText_returns pdf toString_utf8 toLowerCase content filename w)
    as Hret.
  rewrite Hext in Hret.
  destruct Hret as [t' [w1' [evs1 [[= <- <-] [Hsvc1 [Htr1 Hemb1]]]]]].
  assert (Hav : available (svc w1) = true).
  { rewrite Hsvc1. unfold processDocument, bind, this in Hrun. cbn in Hrun.
    destruct (available (svc w)); [reflexivity|].
    cbn in Hrun. now injection Hrun as <- _. }
  destruct (embed_chunks_records _ _ _ _ _ _ _ _ _ Hembed) as [Hidx Hmd].
  destruct (embed_chunks_run _ _ _ _ _ _ _ _ _ _ Hav Hembed)
    as [_ [evs2 [Htr2 [Htext [Hall Hcalls]]]]].
  cbn [map app] in Hidx, Hmd, Htext. cbn [trace] in Htr2.
  assert (Hcount : length dcs = length chunks)
    by (rewrite <- Htext; now rewrite length_map).
  split; [exact Hext|]. split; [exact Hsplit|]. split.
  { intros ->. destruct (Z.lt_ge_cases 0 (chunkSize (svc w) - chunkOverlap (svc w)))
      as [Hstride|Hstride].
    - apply splitIntoChunks_sound in Hsplit; auto.
      apply (f_equal (@length _)) in Hsplit. rewrite length_windows in Hsplit.
      pose proof (ceil_div_pos (js_length t) _ Hlen Hstride). cbn in Hsplit. lia.
    - unfold splitIntoChunks in Hsplit.
      rewrite splitIntoChunks_loop_diverges in Hsplit by lia. discriminate. }
  split; [rewrite Hsvc; cbn; apply map_get_set_same|].
  split; [exact Htext|]. split; [exact Hidx|]. split.
  { apply Forall_forall. intros c Hc.
    apply (in_map metadata) in Hc. rewrite Hmd in Hc.
    now apply repeat_spec in Hc. }
  split; [cbn; unfold js_length; now rewrite Hcount|].
  split; reflexivity.
Qed.

(** X6.  After a successful ingestion the document is stored as one record
    for every chunk of the extracted text, in order: the records carry the
    chunks as texts, the indices 0, 1, 2, ..., and the file name, document id
    and caller metadata of the call.  The result counts these records and the
    code units of the text, and the embedding calls made are one for each
    chunk, in order. *)
Theorem processDocument_stores_all_chunks (fuel : nat) (blobId : jsstring)
        (content : Buffer) (filename : jsstring) (metadata_ : CallerMeta)
        w (res : IngestResult) w' :
  processDocument pdf embeddings_create toString_utf8 toLowerCase
                  fuel blobId content filename metadata_ w = (Returned res, w') ->
  ir_success res = true ->
  exists (t : jsstring) (w1 : World CallerMeta Ext) (chunks : list jsstring)
         (documentChunks : list (Chunk CallerMeta)),
    extractText pdf toString_utf8 toLowerCase content filename w
    = (Returned t, w1)
    /\ splitIntoChunks (chunkSize (svc w)) (chunkOverlap (svc w)) fuel t
       = Some chunks
    /\ chunks <> []
    /\ map_get (vectorStore (svc w')) blobId = Some documentChunks
    /\ map text documentChunks = chunks
    /\ map chunkIndex documentChunks = seq 0 (length chunks)
    /\ Forall (fun c => metadata c = {| md_caller := metadata_;
                                        md_filename := filename;
                                        md_blobId := blobId |}) documentChunks
    /\ ir_chunksCreated res = js_length documentChunks
    /\ ir_textLength res = js_length t
    /\ ir_error res = None
    /\ map ev_call (filter is_embedding (new_events w w'))
       = map (Embedding embedding_model) chunks.
Proof.
  intros Hrun Hok.
  destruct (processDocument_success_records _ _ _ _ _ _ _ _ Hrun Hok)
    as [t [w1 [chunks [dcs [Hext [Hsplit [Hne [Hget [Htext [Hidx [Hmd
         [Hcount [Hlen Herr]]]]]]]]]]]]].
  exists t, w1, chunks, dcs.
  repeat (split; [assumption|]).
  destruct (processDocument_success _ _ _ _ _ _ _ _ Hrun Hok)
    as [t' [w1' [chunks' [dcs' [Hext' [Hsplit' [_ [Hembed _]]]]]]]].
  rewrite Hext in Hext'. injection Hext' as <- <-.
  rewrite Hsplit in Hsplit'. injection Hsplit' as <-.
  destruct (extractText_returns pdf toString_utf8 toLowerCase content filename w)
    as [t' [w1' [evs1 [Hext' [Hsvc1 [Htr1 Hemb1]]]]]].
  rewrite Hext in Hext'. injection Hext' as <- <-.
  assert (Hav : available (svc w1) = true).
  { rewrite Hsvc1. unfold processDocument, bind, this in Hrun. cbn in Hrun.
    destruct (available (svc w)); [reflexivity|].
    cbn in Hrun. now injection Hrun as <- _. }
  destruct (embed_chunks_run _ _ _ _ _ _ _ _ _ _ Hav Hembed)
    as [_ [evs2 [Htr2 [_ [Hall Hcalls]]]]].
  cbn [trace] in Htr2.
  rewrite (new_events_app w w' (evs1 ++ evs2))
    by (now rewrite Htr2, Htr1, <- app_assoc).
  now rewrite filter_embedding_app.
Qed.

(** X7.  Whatever comes of it, an ingestion leaves every other document
    as it was and keeps the order of the documents: the ids are the same as
    before, or the same followed by the new id when it was not stored yet. *)
Theorem processDocument_keeps_other_documents (fuel : nat) (blobId : jsstring)
        (content : Buffer) (filename : jsstring) (metadata_ : CallerMeta)
        w (r : Outcome IngestResult) w' :
  processDocument pdf embeddings_create toString_utf8 toLowerCase
                  fuel blobId content filename metadata_ w = (r, w') ->
  (forall docId : jsstring,
      docId <> blobId ->
      map_get (vectorStore (svc w')) docId = map_get (vectorStore (svc w)) docId)
  /\ (map fst (vectorStore (svc w')) = map fst (vectorStore (svc w))
      \/ (map_get (vectorStore (svc w)) blobId = None
          /\ map fst (vectorStore (svc w'))
             = map fst (vectorStore (svc w)) ++ [blobId])).
Proof.
  intros Hrun.
  destruct (processDocument_service _ _ _ _ _ _ _ _ _ _ _ _ Hrun)
    as [->|[t [chunks [dcs [_ [_ [_ ->]]]]]]]; [split; [reflexivity|now left]|].
  cbn [with_store vectorStore]. split.
  - intros docId Hne. now apply map_get_set_other.
  - rewrite map_set_keys.
    destruct (map_get (vectorStore (svc w)) blobId); [now left|now right].
Qed.

Lemma with_store_same (s : RAGService CallerMeta) :
  with_store s (vectorStore s) = s.
Proof. now destruct s. Qed.

(** X8.  [deleteDocument] always succeeds and reports how many chunks the
    document had, 0 when it was not stored.  Afterwards the document is gone,
    the statistics of it say so, every other document is as before, and
    deleting it again reports 0 and changes nothing. *)
Theorem deleteDocument_removes (blobId : jsstring) w :
  NoDup (map fst (vectorStore (svc w))) ->
  exists w' : World CallerMeta Ext,
    deleteDocument blobId w
    = (Returned {| dr_success := true;
                   dr_deletedChunks :=
                     js_length (chunks_of (vectorStore (svc w)) blobId) |}, w')
    /\ map_get (vectorStore (svc w')) blobId = None
    /\ getDocumentStats blobId w'
       = (Returned {| ds_blobId := blobId; ds_totalChunks := 0;
                      ds_exists := false |}, w')
    /\ (forall docId : jsstring,
           docId <> blobId ->
           map_get (vectorStore (svc w')) docId
           = map_get (vectorStore (svc w)) docId)
    /\ deleteDocument blobId w'
       = (Returned {| dr_success := true; dr_deletedChunks := 0 |}, w').
Proof.
  intros Hnd. rewrite deleteDocument_run. eexists. split.
  - unfold chunks_of. destruct (map_get (vectorStore (svc w)) blobId);
      reflexivity.
  - cbn [svc with_store vectorStore].
    pose proof (map_get_delete_same (vectorStore (svc w)) blobId Hnd) as Hgone.
    split; [exact Hgone|]. split; [|split].
    + unfold getDocumentStats, bind, this, ret. cbn [svc with_store vectorStore].
      now rewrite Hgone.
    + intros docId Hne. now apply map_get_delete_other.
    + rewrite deleteDocument_run. cbn [svc ext trace with_store vectorStore].
      rewrite Hgone. rewrite (map_delete_absent _ _ Hgone). reflexivity.
Qed.

Lemma fold_left_total_chunks {A} (l : list (list A)) :
  forall acc : Z,
    fold_left (fun totalChunks chunks => totalChunks + js_length chunks) l acc
    = acc + js_length (concat l).
Proof.
  induction l as [|c l IH]; intros acc; cbn [fold_left concat].
  - unfold js_length. cbn. lia.
  - rewrite IH. unfold js_length. rewrite length_app. lia.
Qed.

Lemma concat_nonempty_length {A} (l : list (list A)) :
  Forall (fun c => c <> []) l -> (length l <= length (concat l))%nat.
Proof.
  induction 1 as [|c l Hc Hl IH]; cbn [concat length]; [lia|].
  rewrite length_app. destruct c; [contradiction|]. cbn [length]. lia.
Qed.

(** X10.  [getStoreStats] changes nothing and counts the stored documents
    and the chunks an unfiltered query would rank: it reports no chunk
    exactly when such a query finds no candidate, and on a well-formed store
    at least as many chunks as documents. *)
Theorem getStoreStats_counts w :
  getStoreStats w
  = (Returned (js_length (vectorStore (svc w)),
               js_length (collect_chunks (vectorStore (svc w)) None)), w)
  /\ (js_length (collect_chunks (vectorStore (svc w)) None) = 0
      <-> collect_chunks (vectorStore (svc w)) None = [])
  /\ (store_well_formed (vectorStore (svc w)) ->
      js_length (vectorStore (svc w))
      <= js_length (collect_chunks (vectorStore (svc w)) None)).
Proof.
  split; [|split].
  - unfold getStoreStats, bind, this, ret, map_size. cbn beta iota.
    rewrite fold_left_total_chunks, collect_chunks_all. reflexivity.
  - unfold js_length. destruct (collect_chunks _ _); cbn [length];
      split; try reflexivity; try discriminate; lia.
  - intros [_ Hwf]. rewrite collect_chunks_all. unfold js_length, map_values.
    apply inj_le. rewrite <- (length_map snd (vectorStore (svc w))).
    apply concat_nonempty_length.
    apply Forall_map. eapply Forall_impl; [|exact Hwf].
    now intros entry [Hne _].
Qed.

(** X11.  Reading never writes: a query, whatever comes of it, leaves the
    service (store and settings) as it was, and the two statistics and
    [isAvailable] leave the whole world as it was. *)
Theorem queries_do_not_write (question : jsstring)
        (documentIds : option (list jsstring)) (topK_arg : option Z)
        (blobId : jsstring) w :
  svc (snd (queryDocuments embeddings_create chat_completions_create
                           question documentIds topK_arg w)) = svc w
  /\ snd (getDocumentStats blobId w) = w
  /\ snd (getStoreStats w) = w
  /\ snd (isAvailable w) = w.
Proof.
  split; [apply queryDocuments_service|]. repeat split.
Qed.

(** What an ingestion can do to the service: nothing, or set a well-formed
    document. *)
Lemma processDocument_store_cases (fuel : nat) (blobId : jsstring)
      (content : Buffer) (filename : jsstring) (metadata_ : CallerMeta)
      w (r : Outcome IngestResult) w' :
  processDocument pdf embeddings_create toString_utf8 toLowerCase
                  fuel blobId content filename metadata_ w = (r, w') ->
  svc w' = svc w
  \/ exists documentChunks : list (Chunk CallerMeta),
      document_well_formed (blobId, documentChunks)
      /\ svc w' = with_store (svc w)
                             (map_set (vectorStore (svc w)) blobId
                                      documentChunks).
Proof.
  intros Hrun.
  destruct (processDocument_cases _ _ _ _ _ _ _ _ _ _ _ _ Hrun)
    as [evs [_ [[_ [-> _]]|[_ [t [w1 [Hext Hcases]]]]]]]; [now left|].
  pose proof (extractText_returns pdf toString_utf8 toLowerCase
                                  content filename w) as Hret.
  rewrite Hext in Hret.
  destruct Hret as [t' [w1' [evs1 [[= <- <-] [Hsvc1 _]]]]].
  destruct Hcases as [[Hblank [-> _]]
                     |[[Hne [Hsplit [-> _]]]
                      |[Hne [chunks [Hsplit
                          [[e [pre [last [Hsvc _]]]]
                          |[dcs [Htext [Hnorej [Hsvc Hr]]]]]]]]]];
    [now left|now left|now left|].
  right. exists dcs. split; [|exact Hsvc].
  subst r.
  destruct (processDocument_success_records _ _ _ _ _ _ _ _ Hrun (eq_refl true))
    as [t' [w1' [chunks' [dcs' [_ [_ [Hnil [Hget [Htext' [Hidx [Hmd _]]]]]]]]]]].
  rewrite Hsvc in Hget. cbn [with_store vectorStore] in Hget.
  rewrite map_get_set_same in Hget. injection Hget as <-.
  unfold document_well_formed. cbn [fst snd].
  assert (Hcount : length dcs = length chunks')
    by (rewrite <- Htext'; now rewrite length_map).
  split; [|split].
  - intros ->. now destruct chunks'.
  - now rewrite Hcount.
  - eapply Forall_impl; [|exact Hmd]. cbn beta. now intros c ->.
Qed.

(** Serving a request keeps the store well formed. *)
Lemma serve_well_formed (req : Request CallerMeta) w :
  store_well_formed (vectorStore (svc w)) ->
  store_well_formed
    (vectorStore (svc (snd (serve pdf embeddings_create chat_completions_create
                                  toString_utf8 toLowerCase req w)))).
Proof.
  intros [Hnd Hwf]. destruct req as [fuel blobId content filename metadata_
                                    |question documentIds topK_arg
                                    |blobId]; cbn [serve].
  - destruct (processDocument _ _ _ _ _ _ _ _ _ w) as [r w'] eqn:Hrun.
    cbn [snd].
    destruct (processDocument_store_cases _ _ _ _ _ _ _ _ Hrun)
      as [->|[dcs [Hdoc ->]]]; [now split|].
    cbn [with_store vectorStore]. split.
    + now apply map_set_NoDup.
    + now apply map_set_Forall.
  - pose proof (queryDocuments_service embeddings_create chat_completions_create
                                       question documentIds topK_arg w) as Hsvc.
    destruct (queryDocuments _ _ _ _ _ w) as [r w']. cbn [snd] in *.
    rewrite Hsvc. now split.
  - rewrite deleteDocument_run. cbn [snd svc with_store vectorStore]. split.
    + now apply map_delete_NoDup.
    + now apply map_delete_Forall.
Qed.

(** X9.  Whatever requests a freshly constructed service has served, no
    document id is stored twice and every stored document has at least one
    chunk, its chunks numbered 0, 1, 2, ... in order and each carrying the id
    it is stored under. *)
Theorem store_always_well_formed (cfg : Config) (openai_constructed : bool)
        (x : Ext)
        (reqs : list (Request CallerMeta)) :
  store_well_formed
    (vectorStore
       (svc (serve_all pdf embeddings_create chat_completions_create
                       toString_utf8 toLowerCase reqs
                       {| svc := RAGService_new cfg openai_constructed; ext := x;
                          trace := [] |}))).
Proof.
  assert (Hinv : forall (reqs : list (Request CallerMeta)) w,
             store_well_formed (vectorStore (svc w)) ->
             store_well_formed
               (vectorStore
                  (svc (serve_all pdf embeddings_create chat_completions_create
                                  toString_utf8 toLowerCase reqs w)))).
  { clear. intros reqs. induction reqs as [|req rest IH]; intros w Hwf;
      cbn [serve_all]; [exact Hwf|].
    pose proof (serve_well_formed req w Hwf) as Hstep.
    destruct (serve _ _ _ _ _ req w) as [back w']. cbn [snd] in Hstep.
    destruct back; [now apply IH|exact Hstep]. }
  apply Hinv. split; [constructor|constructor].
Qed.

End StoreClaims.
(** ** Queries *)

Lemma js_slice_from_0 {A} (l : list A) (k : Z) :
  exists m : nat,
    js_slice l 0 k = firstn m l
    /\ (m <= length l)%nat
    /\ Z.of_nat m = if k <? 0 then Z.max (js_length l + k) 0
                    else Z.min k (js_length l).
Proof.
  pose proof (js_length_nonneg l) as Hl. unfold js_slice. cbv zeta.
  replace (0 <? 0) with false by reflexivity.
  rewrite (Z.min_l 0) by exact Hl. cbn [Z.to_nat skipn]. rewrite Z.sub_0_r.
  set (to := if k <? 0 then Z.max (js_length l + k) 0
             else Z.min k (js_length l)).
  assert (Hto : 0 <= to <= js_length l).
  { unfold to. destruct (k <? 0) eqn:Hk.
    - apply Z.ltb_lt in Hk. split; [apply Z.le_max_r|].
      apply Z.max_lub; lia.
    - apply Z.ltb_ge in Hk. split; [apply Z.min_glb; lia|apply Z.le_min_r]. }
  exists (Z.to_nat to). split; [reflexivity|]. unfold js_length in Hto. split; lia.
Qed.

Lemma In_firstn_incl {A} (m : nat) (l : list A) (x : A) :
  In x (firstn m l) -> In x l.
Proof.
  intros Hin. rewrite <- (firstn_skipn m l). apply in_or_app. now left.
Qed.

Lemma In_nth_error_seq {A} (f : A -> nat) (l : list A) (c : A) :
  map f l = seq 0 (length l) -> In c l -> nth_error l (f c) = Some c.
Proof.
  intros Hseq Hin. apply In_nth_error in Hin as [n Hn].
  assert (Hlt : (n < length l)%nat)
    by (apply nth_error_Some; rewrite Hn; discriminate).
  pose proof (map_nth_error f _ _ Hn) as Hf.
  rewrite Hseq in Hf. rewrite nth_error_nth' with (d := 0%nat) in Hf
    by (now rewrite length_seq).
  rewrite seq_nth in Hf by exact Hlt. cbn in Hf. injection Hf as Hf.
  now rewrite <- Hf.
Qed.

Lemma map_get_of_In {V} (m : JSMap V) (k : jsstring) (v : V) :
  NoDup (map fst m) -> In (k, v) m -> map_get m k = Some v.
Proof.
  induction m as [|[k' v'] m IH]; cbn; [tauto|].
  intros Hnd Hin. inversion Hnd as [|? ? Hnotin Hnd']; subst.
  destruct Hin as [[= -> ->]|Hin].
  - now rewrite jsstring_eqb_refl.
  - destruct (jsstring_eqb k k') eqn:E; [|now apply IH].
    apply jsstring_eqb_eq in E. subst k'. exfalso. apply Hnotin.
    now apply (in_map fst) in Hin.
Qed.

Lemma trim_start_nil (s : jsstring) :
  trim_start s = [] <-> forallb is_js_whitespace s = true.
Proof.
  induction s as [|c s IH]; cbn [trim_start forallb]; [tauto|].
  destruct (is_js_whitespace c); cbn [andb]; [exact IH|].
  split; discriminate.
Qed.

(** [trim] leaves nothing exactly of the strings made of white space. *)
Lemma trim_blank_iff (t : jsstring) :
  js_length (trim t) = 0 <-> forallb is_js_whitespace t = true.
Proof.
  unfold trim, js_length. rewrite length_rev. split.
  - intros Hlen.
    assert (Hnil : trim_start (rev (trim_start t)) = [])
      by (destruct (trim_start (rev (trim_start t))); [reflexivity|discriminate]).
    apply trim_start_nil in Hnil. apply trim_start_nil.
    rewrite forallb_forall in Hnil.
    destruct (trim_start t) as [|c s] eqn:E; [reflexivity|].
    assert (Hc : is_js_whitespace c = true)
      by (apply Hnil; apply -> in_rev; now left).
    exfalso. clear Hnil Hlen. induction t as [|c' t IH]; [discriminate|].
    cbn [trim_start] in E. destruct (is_js_whitespace c') eqn:Hc'; [now apply IH|].
    injection E as -> _. congruence.
  - intros Hall. apply trim_start_nil in Hall. now rewrite Hall.
Qed.

Section QueryClaims.

Context {CallerMeta Ext : Type}.
Variable pdf : Buffer -> Ext -> Settled jsstring * Ext.
Variable embeddings_create : jsstring -> jsstring -> Ext -> Settled (list number) * Ext.
Variable chat_completions_create : ChatRequest -> Ext -> Settled jsstring * Ext.
Variable toString_utf8 : Buffer -> jsstring.
Variable toLowerCase : jsstring -> jsstring.

Implicit Types w : World CallerMeta Ext.

(** The candidate chunks come from the store: each is a chunk of a stored
    document, one of the listed documents when the filter is in force. *)
Lemma collect_chunks_stored (store : JSMap (list (Chunk CallerMeta)))
      (documentIds : option (list jsstring)) (c : Chunk CallerMeta) :
  NoDup (map fst store) ->
  In c (collect_chunks store documentIds) ->
  exists (docId : jsstring) (chunks : list (Chunk CallerMeta)),
    map_get store docId = Some chunks /\ In c chunks
    /\ forall ids, documentIds = Some ids -> ids <> [] -> In docId ids.
Proof.
  intros Hnd Hin.
  assert (Hall : In c (collect_chunks store None) ->
                 exists docId chunks, map_get store docId = Some chunks
                                      /\ In c chunks).
  { rewrite collect_chunks_all. intros Hc. apply in_concat in Hc as [chunks [Hm Hc]].
    unfold map_values in Hm. apply in_map_iff in Hm as [[docId chunks'] [<- Hm]].
    exists docId, chunks'. split; [now apply map_get_of_In|exact Hc]. }
  destruct documentIds as [[|id ids]|].
  - rewrite collect_chunks_empty_filter in Hin.
    destruct (Hall Hin) as [docId [chunks [Hget Hc]]].
    exists docId, chunks. repeat split; auto. now intros ids [= <-].
  - rewrite collect_chunks_filter in Hin.
    apply in_flat_map in Hin as [docId [Hid Hc]].
    unfold chunks_of in Hc. destruct (map_get store docId) as [chunks|] eqn:Hget;
      [|contradiction].
    exists docId, chunks. repeat split; auto. now intros ids' [= <-].
  - destruct (Hall Hin) as [docId [chunks [Hget Hc]]].
    exists docId, chunks. repeat split; auto. discriminate.
Qed.

(** What a query that returns has done. *)
Lemma queryDocuments_returned (question : jsstring)
      (documentIds : option (list jsstring)) (topK_arg : option Z)
      w (res : QueryResult) w' :
  queryDocuments embeddings_create chat_completions_create
                 question documentIds topK_arg w = (Returned res, w') ->
  available (svc w) = true
  /\ qr_question res = question
  /\ exists questionEmbedding : list number,
      fst (embeddings_create embedding_model question (ext w))
      = Fulfilled questionEmbedding
      /\ qr_sources res
         = map format_source
               (js_slice
                  (js_sort by_score
                           (score_chunks questionEmbedding
                              (collect_chunks (vectorStore (svc w)) documentIds)))
                  0 (topK_or_default (svc w) topK_arg)).
Proof.
  rewrite queryDocuments_run.
  destruct (available (svc w)); [|discriminate]. cbv zeta.
  destruct (fst (embeddings_create embedding_model question (ext w)))
    as [qe|e]; [|discriminate].
  destruct (js_length (collect_chunks (vectorStore (svc w)) documentIds) =? 0)
    eqn:Hn.
  - intros [= <- _]. cbn. repeat split. exists qe. split; [reflexivity|].
    apply Z.eqb_eq in Hn. unfold js_length in Hn.
    destruct (collect_chunks (vectorStore (svc w)) documentIds);
      [|discriminate].
    unfold score_chunks. cbn [map js_sort].
    destruct (js_slice_from_0 (@nil (ScoredChunk CallerMeta))
                              (topK_or_default (svc w) topK_arg)) as [m [-> _]].
    now rewrite firstn_nil.
  - destruct (fst (chat_completions_create _ _)) as [answer|e]; [|discriminate].
    intros [= <- _]. cbn. repeat split. exists qe. split; reflexivity.
Qed.

Lemma score_chunks_chunks (qe : list number) (chunks : list (Chunk CallerMeta)) :
  map (@sc_chunk CallerMeta) (score_chunks qe chunks) = chunks.
Proof.
  unfold score_chunks. rewrite map_map. cbn. apply map_id.
Qed.

Lemma score_chunks_scored (qe : list number) (chunks : list (Chunk CallerMeta)) :
  Forall (fun s => s = {| sc_chunk := sc_chunk s;
                          score := cosineSimilarity qe (embedding (sc_chunk s)) |})
         (score_chunks qe chunks).
Proof.
  unfold score_chunks. apply Forall_forall. intros s Hs.
  apply in_map_iff in Hs as [c [<- _]]. reflexivity.
Qed.

(** X14.  The sources of an answer are drawn from the candidate chunks, each
    candidate at most as often as it was gathered and each with its own
    cosine similarity to the embedding of the question; with [k] the
    effective [topK] and [n] candidates there are [min k n] of them, or
    [max (n + k) 0] when [k] is negative.  The question comes back as it
    was asked. *)
Theorem queryDocuments_sources_from_candidates (question : jsstring)
        (documentIds : option (list jsstring)) (topK_arg : option Z)
        w (res : QueryResult) w' :
  queryDocuments embeddings_create chat_completions_create
                 question documentIds topK_arg w = (Returned res, w') ->
  qr_question res = question
  /\ exists (questionEmbedding : list number)
            (cited left_out : list (Chunk CallerMeta)),
      fst (embeddings_create embedding_model question (ext w))
      = Fulfilled questionEmbedding
      /\ Permutation (cited ++ left_out)
                     (collect_chunks (vectorStore (svc w)) documentIds)
      /\ qr_sources res
         = map (fun c =>
                  format_source
                    {| sc_chunk := c;
                       score := cosineSimilarity questionEmbedding (embedding c) |})
               cited
      /\ js_length (qr_sources res)
         = let n := js_length (collect_chunks (vectorStore (svc w)) documentIds) in
           let k := topK_or_default (svc w) topK_arg in
           if k <? 0 then Z.max (n + k) 0 else Z.min k n.
Proof.
  intros Hrun.
  destruct (queryDocuments_returned _ _ _ _ _ _ Hrun)
    as [_ [Hq [qe [Hqe Hsrc]]]].
  split; [exact Hq|].
  set (candidates := collect_chunks (vectorStore (svc w)) documentIds) in *.
  set (sorted := js_sort by_score (score_chunks qe candidates)) in *.
  destruct (js_slice_from_0 sorted (topK_or_default (svc w) topK_arg))
    as [m [Hslice [Hm Hcount]]].
  pose proof (js_sort_perm by_score (score_chunks qe candidates)) as Hperm.
  fold sorted in Hperm.
  exists qe, (map (@sc_chunk _) (firstn m sorted)),
         (map (@sc_chunk _) (skipn m sorted)).
  split; [exact Hqe|]. split; [|split].
  - rewrite <- map_app, firstn_skipn.
    rewrite <- (score_chunks_chunks qe candidates). now apply Permutation_map.
  - rewrite Hsrc, Hslice, map_map. apply map_ext_in. intros s Hs.
    f_equal.
    assert (Hall : Forall (fun s => s = {| sc_chunk := sc_chunk s;
                             score := cosineSimilarity qe (embedding (sc_chunk s)) |})
                          sorted).
    { apply Forall_forall. intros s' Hs'.
      pose proof (score_chunks_scored qe candidates) as Hsc.
      rewrite Forall_forall in Hsc. apply Hsc.
      eapply Permutation_in; eauto. }
    rewrite Forall_forall in Hall. apply Hall.
    eapply In_firstn_incl; eauto.
  - cbv zeta. rewrite Hsrc, Hslice. unfold js_length at 1.
    rewrite length_map, length_firstn, Nat.min_l by exact Hm.
    rewrite Hcount. unfold js_length.
    rewrite (Permutation_length Hperm). unfold score_chunks.
    now rewrite length_map.
Qed.

(** X15.  On a well-formed store every source of an answer points to a
    stored chunk: the document named by the source is stored, its chunk
    with the number given by the source is the one excerpted and scored,
    and when a non-empty filter was given the document is one of the
    filter. *)
Theorem queryDocuments_sources_point_to_store (question : jsstring)
        (documentIds : option (list jsstring)) (topK_arg : option Z)
        w (res : QueryResult) w' :
  store_well_formed (vectorStore (svc w)) ->
  queryDocuments embeddings_create chat_completions_create
                 question documentIds topK_arg w = (Returned res, w') ->
  exists questionEmbedding : list number,
    fst (embeddings_create embedding_model question (ext w))
    = Fulfilled questionEmbedding
    /\ Forall
         (fun src =>
            exists (chunks : list (Chunk CallerMeta)) (c : Chunk CallerMeta),
              map_get (vectorStore (svc w)) (src_blobId src) = Some chunks
              /\ nth_error chunks (src_chunkIndex src) = Some c
              /\ src = format_source
                         {| sc_chunk := c;
                            score := cosineSimilarity questionEmbedding
                                                      (embedding c) |}
              /\ forall ids, documentIds = Some ids -> ids <> [] ->
                             In (src_blobId src) ids)
         (qr_sources res).
Proof.
  intros [Hnd Hwf] Hrun.
  destruct (queryDocuments_returned _ _ _ _ _ _ Hrun)
    as [_ [_ [qe [Hqe Hsrc]]]].
  exists qe. split; [exact Hqe|]. rewrite Hsrc.
  set (candidates := collect_chunks (vectorStore (svc w)) documentIds) in *.
  destruct (js_slice_from_0 (js_sort by_score (score_chunks qe candidates))
                            (topK_or_default (svc w) topK_arg))
    as [m [-> _]].
  apply Forall_forall. intros src Hin.
  apply in_map_iff in Hin as [s [<- Hs]].
  apply In_firstn_incl in Hs.
  apply (Permutation_in _ (js_sort_perm by_score (score_chunks qe candidates)))
    in Hs.
  pose proof (score_chunks_scored qe candidates) as Hsc.
  rewrite Forall_forall in Hsc. pose proof (Hsc s Hs) as Hshape.
  apply (in_map (@sc_chunk _)) in Hs. rewrite score_chunks_chunks in Hs.
  destruct (collect_chunks_stored _ _ _ Hnd Hs)
    as [docId [chunks [Hget [Hc Hfilter]]]].
  rewrite Forall_forall in Hwf.
  destruct (Hwf _ (map_get_In _ _ _ Hget)) as [_ [Hidx Hmd]].
  cbn [fst snd] in Hidx, Hmd. rewrite Forall_forall in Hmd.
  exists chunks, (sc_chunk s). cbn [format_source src_blobId src_chunkIndex].
  rewrite (Hmd _ Hc). split; [exact Hget|]. split; [|split].
  - now apply In_nth_error_seq.
  - now rewrite <- Hshape.
  - exact Hfilter.
Qed.

(** How the calls of a query end: all fulfilled when it returns, the last
    one rejected when an available service throws. *)
Lemma queryDocuments_last_event (question : jsstring)
      (documentIds : option (list jsstring)) (topK_arg : option Z) w :
  let '(r, w') := queryDocuments embeddings_create chat_completions_create
                                 question documentIds topK_arg w in
  match r with
  | Returned res => forallb ev_fulfilled (new_events w w') = true
  | Thrown e =>
      available (svc w) = false
      \/ exists (pre : list Event) (last : Event),
          new_events w w' = pre ++ [last] /\ ev_fulfilled last = false
  | OutOfFuel => False
  end.
Proof.
  rewrite queryDocuments_run.
  destruct (available (svc w)) eqn:Hav; [|now left]. cbv zeta.
  destruct (fst (embeddings_create embedding_model question (ext w)))
    as [qe|e] eqn:Hqe.
  - destruct (js_length (collect_chunks (vectorStore (svc w)) documentIds) =? 0).
    + now rewrite (new_events_app w _ [_]) by reflexivity.
    + destruct (fst (chat_completions_create _ _)) as [answer|e].
      * now rewrite (new_events_app w _ [_; _])
          by (cbn; now rewrite <- app_assoc).
      * right. eexists [_], _.
        rewrite (new_events_app w _ [_; _]) by (cbn; now rewrite <- app_assoc).
        split; reflexivity.
  - right. eexists [], _.
    rewrite (new_events_app w _ [_]) by reflexivity. split; reflexivity.
Qed.

(** An available service throws from a query only what a rejected call of
    the provider gave it: the embedding of the question, or the completion
    asked after that embedding was fulfilled. *)
Lemma queryDocuments_thrown (question : jsstring)
      (documentIds : option (list jsstring)) (topK_arg : option Z)
      w (e : exn) w' :
  available (svc w) = true ->
  queryDocuments embeddings_create chat_completions_create
                 question documentIds topK_arg w = (Thrown e, w') ->
  fst (embeddings_create embedding_model question (ext w)) = Rejected e
  \/ exists (req : ChatRequest) (questionEmbedding : list number),
      fst (embeddings_create embedding_model question (ext w))
      = Fulfilled questionEmbedding
      /\ fst (chat_completions_create
                req (snd (embeddings_create embedding_model question (ext w))))
         = Rejected e.
Proof.
  intros Hav. rewrite queryDocuments_run, Hav. cbv zeta.
  destruct (fst (embeddings_create embedding_model question (ext w)))
    as [qe|e'] eqn:Hqe.
  - destruct (js_length (collect_chunks (vectorStore (svc w)) documentIds) =? 0);
      [discriminate|].
    match goal with
    | |- context [chat_completions_create ?r ?x] =>
        set (req := r); set (x1 := x)
    end.
    destruct (fst (chat_completions_create req x1)) as [answer|e'] eqn:Hanswer;
      [discriminate|].
    intros [= -> _]. right. exists req, qe. split; [reflexivity|exact Hanswer].
  - intros [= -> _]. now left.
Qed.


(** X23.  When there are candidates, a query that returns has awaited
    exactly two calls, the embedding of the question and one completion,
    both fulfilled; the sources it returns are the chunks the completion
    request showed to the model, in the same order; the request carries the
    fixed system prompt and the temperature of the configuration; and the
    answer is the reply of the provider, unchanged. *)
Theorem queryDocuments_answer_from_shown_sources (question : jsstring)
        (documentIds : option (list jsstring)) (topK_arg : option Z)
        w (res : QueryResult) w' :
  queryDocuments embeddings_create chat_completions_create
                 question documentIds topK_arg w = (Returned res, w') ->
  collect_chunks (vectorStore (svc w)) documentIds <> [] ->
  exists (topChunks : list (ScoredChunk CallerMeta)) (req : ChatRequest),
    new_events w w'
    = [{| ev_call := Embedding embedding_model question; ev_fulfilled := true |};
       {| ev_call := ChatCompletion req; ev_fulfilled := true |}]
    /\ cr_user req = userPrompt (build_context topChunks) question
    /\ cr_system req = systemPrompt
    /\ cr_temperature req = temperature (svc w)
    /\ qr_sources res = map format_source topChunks
    /\ fst (chat_completions_create
              req (snd (embeddings_create embedding_model question (ext w))))
       = Fulfilled (qr_answer res).
Proof.
  rewrite queryDocuments_run.
  destruct (available (svc w)) eqn:Hav; [|discriminate]. cbv zeta.
  destruct (fst (embeddings_create embedding_model question (ext w)))
    as [qe|e] eqn:Hqe; [|discriminate].
  destruct (js_length (collect_chunks (vectorStore (svc w)) documentIds) =? 0)
    eqn:Hn.
  - intros _ Hne. exfalso. apply Hne. apply Z.eqb_eq in Hn.
    unfold js_length in Hn.
    destruct (collect_chunks (vectorStore (svc w)) documentIds);
      [reflexivity|discriminate].
  - match goal with
    | |- context [chat_completions_create ?r ?x] =>
        set (req := r); set (x1 := x)
    end.
    destruct (fst (chat_completions_create req x1)) as [answer|e] eqn:Hanswer;
      [|discriminate].
    intros [= <- <-] _.
    exists (top_chunks qe (collect_chunks (vectorStore (svc w)) documentIds)
                       (topK_or_default (svc w) topK_arg)), req.
    split; [|repeat split; exact Hanswer].
    now rewrite (new_events_app w _ [_; _]) by (cbn; now rewrite <- app_assoc).
Qed.

(** A service that is not available does nothing on any request. *)
Lemma serve_unavailable (req : Request CallerMeta) w :
  available (svc w) = false ->
  let w' := snd (serve pdf embeddings_create chat_completions_create
                       toString_utf8 toLowerCase req w) in
  fst (serve pdf embeddings_create chat_completions_create
             toString_utf8 toLowerCase req w) = true
  /\ available (svc w') = false /\ ext w' = ext w /\ trace w' = trace w
  /\ (vectorStore (svc w) = [] -> w' = w).
Proof.
  intros Hav. destruct req as [fuel blobId content filename metadata_
                              |question documentIds topK_arg
                              |blobId]; cbn [serve].
  - unfold processDocument, bind, this. cbn beta iota. rewrite Hav. cbn.
    repeat split; auto.
  - rewrite queryDocuments_run, Hav. cbn. repeat split; auto.
  - rewrite deleteDocument_run. cbn. repeat split; auto.
    intros Hempty. rewrite Hempty. cbn. destruct w as [s x tr]. cbn in *.
    f_equal. destruct s. cbn in *. now subst.
Qed.

(** X12.  A service that is not available (no API key, or the client could
    not be constructed) serves every sequence of requests without awaiting
    any external call; deletions are all it does to the store, and when the
    store is empty, as after construction, the world stays exactly as it
    was. *)
Theorem unavailable_service_inert (reqs : list (Request CallerMeta)) w :
  available (svc w) = false ->
  let w' := serve_all pdf embeddings_create chat_completions_create
                      toString_utf8 toLowerCase reqs w in
  available (svc w') = false /\ ext w' = ext w /\ trace w' = trace w
  /\ (vectorStore (svc w) = [] -> w' = w).
Proof.
  revert w. induction reqs as [|req rest IH]; intros w Hav; cbn [serve_all].
  - repeat split; auto.
  - destruct (serve_unavailable req w Hav) as [Hback [Hav' [Hext [Htr Hsame]]]].
    destruct (serve _ _ _ _ _ req w) as [back w1]. cbn [fst snd] in *.
    subst back. destruct (IH w1 Hav') as [Hav2 [Hext2 [Htr2 Hsame2]]].
    split; [exact Hav2|]. split; [congruence|]. split; [congruence|].
    intros Hempty. specialize (Hsame Hempty). subst w1. now apply Hsame2.
Qed.

(** X17.  An available service refuses a document with [No text content
    extracted], awaiting no embedding, exactly when the extracted text
    consists of white space only (the empty text included). *)
Theorem processDocument_refuses_blank_iff (fuel : nat) (blobId : jsstring)
        (content : Buffer) (filename : jsstring) (metadata_ : CallerMeta)
        w (t : jsstring) (w1 : World CallerMeta Ext) :
  available (svc w) = true ->
  extractText pdf toString_utf8 toLowerCase content filename w
  = (Returned t, w1) ->
  processDocument pdf embeddings_create toString_utf8 toLowerCase
                  fuel blobId content filename metadata_ w
  = (Returned (ingest_failure blobId (lit "No text content extracted")), w1)
  <-> forallb is_js_whitespace t = true.
Proof.
  intros Hav Hext. rewrite <- trim_blank_iff.
  destruct (processDocument pdf embeddings_create toString_utf8 toLowerCase
                            fuel blobId content filename metadata_ w)
    as [r w'] eqn:Hrun.
  destruct (processDocument_cases _ _ _ _ _ _ _ _ _ _ _ _ Hrun)
    as [evs [Htr [[Hav' _]|[_ [t' [w1' [Hext' Hcases]]]]]]]; [congruence|].
  rewrite Hext in Hext'. injection Hext' as <- <-.
  pose proof (extractText_returns pdf toString_utf8 toLowerCase
                                  content filename w) as Hret.
  rewrite Hext in Hret.
  destruct Hret as [t' [w1' [evs1 [[= <- <-] [Hsvc1 [Htr1 Hemb1]]]]]].
  destruct Hcases as [[Hblank [-> [_ ->]]]
                     |[[Hne [_ [_ [_ ->]]]]
                      |[Hne [chunks [_
                          [[e [pre [last [_ [Hevs [Hlast ->]]]]]]
                          |[dcs [_ [_ [_ ->]]]]]]]]]].
  - tauto.
  - split; [discriminate|contradiction].
  - split; [|contradiction]. intros [= _ ->]. exfalso.
    rewrite Htr1 in Htr. apply app_inv_head in Htr. subst evs1.
    rewrite Hevs, existsb_app in Hemb1. cbn in Hemb1.
    unfold is_rejected_embedding in Hlast.
    apply andb_prop in Hlast as [Hlast _]. rewrite Hlast in Hemb1.
    now rewrite orb_true_r in Hemb1.
  - split; [discriminate|contradiction].
Qed.

End QueryClaims.

(** X16.  The excerpt of a source is the text of the chunk when it has at
    most 200 code units, and its first 200 code units followed by three dots
    otherwise; it never has more than 203 code units. *)
Theorem format_source_excerpt {CallerMeta} (chunk : ScoredChunk CallerMeta) :
  let t := text (sc_chunk chunk) in
  let excerpt := src_excerpt (format_source chunk) in
  (js_length t <= 200 -> excerpt = t)
  /\ (200 < js_length t -> excerpt = firstn 200 t ++ lit "...")
  /\ js_length excerpt <= 203
  /\ firstn 200 excerpt = firstn 200 t.
Proof.
  cbv zeta. unfold format_source. cbn [src_excerpt].
  set (t := text (sc_chunk chunk)).
  destruct (js_slice_from_0 t 200) as [m [-> [Hm Hcount]]].
  replace (200 <? 0) with false in Hcount by reflexivity.
  pose proof (js_length_nonneg t) as Hl. unfold js_length in *.
  destruct (200 <? Z.of_nat (length t)) eqn:Hlong.
  - apply Z.ltb_lt in Hlong. rewrite Z.min_l in Hcount by lia.
    assert (Hm200 : m = 200%nat) by lia. subst m.
    split; [lia|]. split; [reflexivity|]. split.
    + rewrite length_app, length_firstn. cbn [lit length map list_ascii_of_string].
      lia.
    + rewrite firstn_app, length_firstn, Nat.min_l by lia.
      rewrite Nat.sub_diag, firstn_firstn, Nat.min_id. cbn [firstn].
      now rewrite app_nil_r.
  - apply Z.ltb_ge in Hlong. rewrite Z.min_r in Hcount by lia.
    assert (Hmlen : m = length t) by lia. subst m.
    rewrite firstn_all, app_nil_r. split; [reflexivity|]. split; [lia|].
    split; [lia|reflexivity].
Qed.
(** ** The routes *)

Section RouteClaims.

Context {Ext : Type}.
Variable pdf : Buffer -> Ext -> Settled jsstring * Ext.
Variable embeddings_create : jsstring -> jsstring -> Ext -> Settled (list number) * Ext.
Variable chat_completions_create : ChatRequest -> Ext -> Settled jsstring * Ext.
Variable toString_utf8 : Buffer -> jsstring.
Variable toLowerCase : jsstring -> jsstring.
Variable uploadBlob : Buffer -> Ext -> Settled WalrusResult * Ext.
Variable Date_now : Ext -> Z.
Variables suiPackageId suiModuleName : jsstring.

(** An ingestion never throws, and one that fails leaves the service as it
    was and reports no chunk. *)
Lemma processDocument_failure {CallerMeta} (fuel : nat) (blobId : jsstring)
      (content : Buffer) (filename : jsstring) (metadata_ : CallerMeta)
      (w : World CallerMeta Ext) (r : Outcome IngestResult) w' :
  processDocument pdf embeddings_create toString_utf8 toLowerCase
                  fuel blobId content filename metadata_ w = (r, w') ->
  match r with
  | Returned res =>
      ir_success res = false -> svc w' = svc w /\ ir_chunksCreated res = 0
  | Thrown _ => False
  | OutOfFuel => svc w' = svc w
  end.
Proof.
  intros Hrun.
  destruct (processDocument_cases _ _ _ _ _ _ _ _ _ _ _ _ Hrun)
    as [evs [_ [[_ [-> ->]]|[_ [t [w1 [Hext Hcases]]]]]]]; [now split|].
  pose proof (extractText_returns pdf toString_utf8 toLowerCase
                                  content filename w) as Hret.
  rewrite Hext in Hret.
  destruct Hret as [t' [w1' [evs1 [[= <- <-] [Hsvc1 _]]]]].
  destruct Hcases as [[_ [-> [_ ->]]]
                     |[[_ [_ [-> [_ ->]]]]
                      |[_ [chunks [_
                          [[e [pre [last [Hsvc [_ [_ ->]]]]]]
                          |[dcs [_ [_ [_ ->]]]]]]]]]];
    [now split|exact Hsvc1|now split|discriminate].
Qed.



(** X20.  On a well-formed store [GET /stats/:blobId] and
    [DELETE /documents/:blobId] agree: both answer 200, the deletion reports
    as deleted the number of chunks the statistics gave, the statistics
    report the document as existing exactly when that number is positive,
    and after the deletion the statistics of the document say that it does
    not exist and has no chunk.  Neither awaits an external call. *)
Theorem delete_then_stats {CallerMeta} (blobId : jsstring)
        (w : World CallerMeta Ext) :
  store_well_formed (vectorStore (svc w)) ->
  exists (n : Z) (w' : World CallerMeta Ext),
    get_stats blobId w
    = (Returned {| status := 200; body := StatsBody blobId n (0 <? n) |}, w)
    /\ delete_documents blobId w
       = (Returned {| status := 200;
                      body := DeleteBody (lit "Document embeddings deleted")
                                         blobId n |}, w')
    /\ get_stats blobId w'
       = (Returned {| status := 200; body := StatsBody blobId 0 false |}, w')
    /\ ext w' = ext w /\ trace w' = trace w.
Proof.
  intros [Hnd Hwf].
  exists (js_length (chunks_of (vectorStore (svc w)) blobId)).
  unfold delete_documents, get_stats, try_catch, bind.
  rewrite deleteDocument_run. eexists. split; [|split; [|split]].
  - unfold getDocumentStats, bind, this, ret, chunks_of. cbn beta iota.
    destruct (map_get (vectorStore (svc w)) blobId) as [chunks|] eqn:Hget;
      [|reflexivity].
    rewrite Forall_forall in Hwf.
    destruct (Hwf _ (map_get_In _ _ _ Hget)) as [Hne _]. cbn [snd] in Hne.
    cbn. do 3 f_equal. unfold js_length. destruct chunks; [contradiction|].
    reflexivity.
  - unfold ret, chunks_of.
    destruct (map_get (vectorStore (svc w)) blobId); reflexivity.
  - unfold getDocumentStats, bind, this, ret. cbn beta iota.
    cbn [svc with_store vectorStore].
    now rewrite (map_get_delete_same _ _ Hnd).
  - split; reflexivity.
Qed.

End RouteClaims.
(** ** Ingestion followed by a query or a deletion *)

Lemma NoDup_firstn {A} (m : nat) (l : list A) : NoDup l -> NoDup (firstn m l).
Proof.
  intros Hnd. rewrite <- (firstn_skipn m l) in Hnd.
  now apply NoDup_app_remove_r in Hnd.
Qed.

Lemma map_delete_set_absent {V} (m : JSMap V) (k : jsstring) (v : V) :
  map_get m k = None -> map_delete (map_set m k v) k = m.
Proof.
  induction m as [|[k' v'] m IH]; cbn.
  - now rewrite jsstring_eqb_refl.
  - destruct (jsstring_eqb k k') eqn:E; [discriminate|]. cbn. rewrite E.
    intros Hnone. now rewrite IH.
Qed.

Section Composition.

Context {CallerMeta Ext : Type}.
Variable pdf : Buffer -> Ext -> Settled jsstring * Ext.
Variable embeddings_create : jsstring -> jsstring -> Ext -> Settled (list number) * Ext.
Variable chat_completions_create : ChatRequest -> Ext -> Settled jsstring * Ext.
Variable toString_utf8 : Buffer -> jsstring.
Variable toLowerCase : jsstring -> jsstring.

Implicit Types w : World CallerMeta Ext.

(** X21.  A query restricted to a document that was just ingested cites
    that document only: with a positive [topK] there are as many sources as
    the smaller of [topK] and the number of chunks created, each names the
    document and one of its chunk numbers, and no chunk is cited twice. *)
Theorem ingest_then_query (fuel : nat) (blobId : jsstring) (content : Buffer)
        (filename : jsstring) (metadata_ : CallerMeta)
        (question : jsstring) (topK_arg : option Z)
        w (res : IngestResult) w1 (answer : QueryResult) w2 :
  processDocument pdf embeddings_create toString_utf8 toLowerCase
                  fuel blobId content filename metadata_ w = (Returned res, w1) ->
  ir_success res = true ->
  queryDocuments embeddings_create chat_completions_create
                 question (Some [blobId]) topK_arg w1 = (Returned answer, w2) ->
  0 < topK_or_default (svc w) topK_arg ->
  js_length (qr_sources answer)
  = Z.min (topK_or_default (svc w) topK_arg) (ir_chunksCreated res)
  /\ Forall (fun src => src_blobId src = blobId
                        /\ Z.of_nat (src_chunkIndex src) < ir_chunksCreated res)
            (qr_sources answer)
  /\ NoDup (map src_chunkIndex (qr_sources answer)).
Proof.
  intros Hrun Hok Hquery Hk.
  destruct (processDocument_success_records _ _ _ _ _ _ _ _ _ _ _ _ Hrun Hok)
    as [t [w0 [chunks [dcs [_ [_ [_ [Hget [Htext [Hidx [Hmd [Hcount _]]]]]]]]]]]].
  assert (HtopK : topK_or_default (svc w1) topK_arg
                  = topK_or_default (svc w) topK_arg).
  { destruct (processDocument_service _ _ _ _ _ _ _ _ _ _ _ _ Hrun)
      as [->|[? [? [? [_ [_ [_ ->]]]]]]]; reflexivity. }
  assert (Hlen : length dcs = length chunks)
    by (rewrite <- Htext; now rewrite length_map).
  rewrite <- Hlen in Hidx.
  destruct (queryDocuments_returned _ _ _ _ _ _ _ _ Hquery)
    as [_ [_ [qe [_ Hsrc]]]].
  rewrite HtopK, collect_chunks_filter in Hsrc. cbn [flat_map] in Hsrc.
  unfold chunks_of in Hsrc. rewrite Hget, app_nil_r in Hsrc.
  set (k := topK_or_default (svc w) topK_arg) in *.
  pose proof (js_sort_perm by_score (score_chunks qe dcs)) as Hperm.
  set (sorted := js_sort by_score (score_chunks qe dcs)) in *.
  destruct (js_slice_from_0 sorted k) as [m [Hslice [Hm Hcut]]].
  replace (k <? 0) with false in Hcut by (symmetry; apply Z.ltb_ge; lia).
  assert (Hsorted_len : length sorted = length dcs).
  { rewrite (Permutation_length Hperm). unfold score_chunks.
    now rewrite length_map. }
  assert (Hindices : Permutation (map (fun s => chunkIndex (sc_chunk s)) sorted)
                                 (seq 0 (length dcs))).
  { rewrite <- Hidx, <- (score_chunks_chunks qe dcs) at 1.
    rewrite map_map. now apply Permutation_map. }
  rewrite Hsrc, Hslice, Hcount. split; [|split].
  - unfold js_length at 1.
    rewrite length_map, length_firstn, Nat.min_l by exact Hm.
    rewrite Hcut. unfold js_length. now rewrite Hsorted_len.
  - apply Forall_forall. intros src Hin.
    apply in_map_iff in Hin as [s [<- Hs]]. apply In_firstn_incl in Hs.
    cbn [format_source src_blobId src_chunkIndex]. split.
    + apply (Permutation_in _ Hperm) in Hs.
      apply (in_map (@sc_chunk _)) in Hs. rewrite score_chunks_chunks in Hs.
      rewrite Forall_forall in Hmd. now rewrite (Hmd _ Hs).
    + apply (in_map (fun s => chunkIndex (sc_chunk s))) in Hs.
      apply (Permutation_in _ Hindices) in Hs. apply in_seq in Hs.
      unfold js_length. lia.
  - rewrite map_map. cbn [format_source src_chunkIndex].
    rewrite <- firstn_map. apply NoDup_firstn.
    eapply Permutation_NoDup; [symmetry; exact Hindices|apply seq_NoDup].
Qed.

(** X22.  Deleting a document right after its ingestion reports as deleted
    the number of chunks the ingestion created, and when the id was not
    stored before, the service is back to what it was before the
    ingestion. *)
Theorem ingest_then_delete (fuel : nat) (blobId : jsstring) (content : Buffer)
        (filename : jsstring) (metadata_ : CallerMeta)
        w (res : IngestResult) w1 :
  processDocument pdf embeddings_create toString_utf8 toLowerCase
                  fuel blobId content filename metadata_ w = (Returned res, w1) ->
  ir_success res = true ->
  exists w2 : World CallerMeta Ext,
    deleteDocument blobId w1
    = (Returned {| dr_success := true;
                   dr_deletedChunks := ir_chunksCreated res |}, w2)
    /\ ext w2 = ext w1 /\ trace w2 = trace w1
    /\ (map_get (vectorStore (svc w)) blobId = None -> svc w2 = svc w).
Proof.
  intros Hrun Hok.
  destruct (processDocument_success_records _ _ _ _ _ _ _ _ _ _ _ _ Hrun Hok)
    as [t [w0 [chunks [dcs [_ [_ [_ [Hget [_ [_ [_ [Hcount _]]]]]]]]]]]].
  rewrite deleteDocument_run, Hget, Hcount. eexists.
  split; [reflexivity|]. cbn [svc ext trace]. repeat split.
  intros Hnone.
  destruct (processDocument_service _ _ _ _ _ _ _ _ _ _ _ _ Hrun)
    as [Hsvc|[? [? [dcs' [_ [_ [_ Hsvc]]]]]]].
  - rewrite Hsvc in Hget. congruence.
  - rewrite Hsvc. cbn [with_store vectorStore available chunkSize chunkOverlap
                                  topK temperature].
    rewrite (map_delete_set_absent _ _ _ Hnone). now destruct (svc w).
Qed.

End Composition.
(** ** The further facts on examples *)

(** X6, on an example: chunks of 4 with an overlap of 1 cut the 13 code
    units of the file into 5 chunks, each of which is embedded. *)
Lemma processDocument_stores_all_chunks_witness :
  let w := fresh_world 4 1
             [Fulfilled [1; 0]%float; Fulfilled [0; 1]%float;
              Fulfilled [1; 1]%float; Fulfilled [1; 0]%float;
              Fulfilled [0; 1]%float] [] in
  let run := scripted_processDocument 9 (lit "blob-1")
               (buffer_of "abcdefghijklm") (lit "notes.txt") tt w in
  exists res : IngestResult,
    fst run = Returned res /\ ir_success res = true
    /\ ir_chunksCreated res = 5
    /\ exists documentChunks : list (Chunk unit),
        map_get (vectorStore (svc (snd run))) (lit "blob-1")
        = Some documentChunks
        /\ ir_chunksCreated res = js_length documentChunks
        /\ map chunkIndex documentChunks
           = seq 0 (length (map text documentChunks)).
Proof.
  intros w run.
  assert (Hrun : exists res, run = (Returned res, snd run)
                             /\ ir_success res = true
                             /\ ir_chunksCreated res = 5)
    by (vm_compute; eexists; repeat split).
  destruct Hrun as [res [Hrun [Hok Hfive]]]. exists res.
  split; [now rewrite Hrun|]. split; [exact Hok|]. split; [exact Hfive|].
  destruct (processDocument_stores_all_chunks
              scripted_pdf scripted_embeddings_create
              ascii_toString ascii_toLowerCase
              9 (lit "blob-1") (buffer_of "abcdefghijklm") (lit "notes.txt") tt
              w res (snd run) Hrun Hok)
    as [t [w1 [chunks [dcs [_ [_ [_ [Hget [Htext [Hidx [_ [Hcount _]]]]]]]]]]]].
  exists dcs. split; [exact Hget|]. split; [exact Hcount|].
  now rewrite Htext.
Defined.

(** X7, on an example: a second document is ingested beside [blob-1]. *)
Lemma processDocument_keeps_other_documents_witness :
  let w := scripted_world (service_with [stored_chunk 0 "alpha" [1; 0]%float])
                          [Fulfilled [0; 1]%float] [] in
  let run := scripted_processDocument 9 (lit "blob-2")
               (buffer_of "abcdefghijklm") (lit "more.txt") tt w in
  map_get (vectorStore (svc (snd run))) (lit "blob-1")
  = map_get (vectorStore (svc w)) (lit "blob-1")
  /\ map fst (vectorStore (svc (snd run))) = [lit "blob-1"; lit "blob-2"].
Proof.
  intros w run.
  assert (Hrun : run = (fst run, snd run)) by apply surjective_pairing.
  assert (Hne : lit "blob-1" <> lit "blob-2") by (vm_compute; discriminate).
  destruct (processDocument_keeps_other_documents
              scripted_pdf scripted_embeddings_create
              ascii_toString ascii_toLowerCase
              9 (lit "blob-2") (buffer_of "abcdefghijklm") (lit "more.txt") tt
              w (fst run) (snd run) Hrun) as [Hother _].
  split; [exact (Hother _ Hne)|]. vm_compute. reflexivity.
Defined.

(** X8, on an example: a document of two chunks is deleted. *)
Lemma deleteDocument_removes_witness :
  let w := scripted_world (service_with [stored_chunk 0 "alpha" [1; 0]%float;
                                         stored_chunk 1 "beta" [0; 1]%float])
                          [] [] in
  NoDup (map fst (vectorStore (svc w)))
  /\ exists w' : World unit Script,
      deleteDocument (lit "blob-1") w
      = (Returned {| dr_success := true; dr_deletedChunks := 2 |}, w')
      /\ map_get (vectorStore (svc w')) (lit "blob-1") = None
      /\ deleteDocument (lit "blob-1") w'
         = (Returned {| dr_success := true; dr_deletedChunks := 0 |}, w').
Proof.
  intros w.
  assert (Hnd : NoDup (map fst (vectorStore (svc w))))
    by (repeat constructor; intros []).
  split; [exact Hnd|].
  destruct (deleteDocument_removes (lit "blob-1") w Hnd)
    as [w' [Hdel [Hgone [_ [_ Hagain]]]]].
  exists w'. split; [exact Hdel|]. split; [exact Hgone|exact Hagain].
Defined.

(** X12, on an example: a service constructed without an API key is asked
    to ingest, to answer and to delete. *)
Lemma unavailable_service_inert_witness :
  let w := {| svc := RAGService_new (default_config []) true;
              ext := {| embedding_replies := [Fulfilled [1; 0]%float];
                        completion_replies := [Fulfilled (lit "An answer.")];
                        pdf_replies := [] |};
              trace := [] |} in
  let reqs := [ReqProcess 9 (lit "blob-1") (buffer_of "abcdefghijklm")
                          (lit "notes.txt") tt;
               ReqQuery (lit "What is alpha?") None None;
               ReqDelete (lit "blob-1")] in
  available (svc w) = false
  /\ serve_all scripted_pdf scripted_embeddings_create
               scripted_chat_completions_create
               ascii_toString ascii_toLowerCase reqs w = w.
Proof.
  intros w reqs.
  assert (Hav : available (svc w) = false) by reflexivity.
  split; [exact Hav|].
  destruct (unavailable_service_inert
              scripted_pdf scripted_embeddings_create
              scripted_chat_completions_create
              ascii_toString ascii_toLowerCase reqs w Hav)
    as [_ [_ [_ Hsame]]].
  apply Hsame. reflexivity.
Defined.

(** X14, on an example: three candidates and [topK = 2]. *)
Lemma queryDocuments_sources_from_candidates_witness :
  let w := scripted_world
             (service_with [stored_chunk 0 "alpha" [1; 0]%float;
                            stored_chunk 1 "beta" [0; 1]%float;
                            stored_chunk 2 "gamma" [1; 1]%float])
             [Fulfilled [1; 0]%float] [Fulfilled (lit "An answer.")] in
  let run := scripted_queryDocuments (lit "What is alpha?") None (Some 2) w in
  exists res : QueryResult,
    fst run = Returned res
    /\ qr_question res = lit "What is alpha?"
    /\ js_length (qr_sources res) = 2.
Proof.
  intros w run.
  assert (Hrun : exists res, run = (Returned res, snd run))
    by (vm_compute; eexists; reflexivity).
  destruct Hrun as [res Hrun]. exists res. split; [now rewrite Hrun|].
  destruct (queryDocuments_sources_from_candidates
              scripted_embeddings_create scripted_chat_completions_create
              (lit "What is alpha?") None (Some 2) w res (snd run) Hrun)
    as [Hq [qe [cited [left_out [_ [_ [_ Hcount]]]]]]].
  split; [exact Hq|]. rewrite Hcount. reflexivity.
Defined.

(** X15, on an example: the same query; every source points into
    [blob-1]. *)
Lemma queryDocuments_sources_point_to_store_witness :
  let w := scripted_world
             (service_with [stored_chunk 0 "alpha" [1; 0]%float;
                            stored_chunk 1 "beta" [0; 1]%float;
                            stored_chunk 2 "gamma" [1; 1]%float])
             [Fulfilled [1; 0]%float] [Fulfilled (lit "An answer.")] in
  let run := scripted_queryDocuments (lit "What is alpha?")
                                     (Some [lit "blob-1"]) (Some 2) w in
  store_well_formed (vectorStore (svc w))
  /\ exists res : QueryResult,
      fst run = Returned res
      /\ Forall (fun src => In (src_blobId src) [lit "blob-1"])
                (qr_sources res).
Proof.
  intros w run.
  assert (Hwf : store_well_formed (vectorStore (svc w))).
  { split; [repeat constructor; intros []|].
    repeat constructor; cbn; discriminate. }
  split; [exact Hwf|].
  assert (Hrun : exists res, run = (Returned res, snd run))
    by (vm_compute; eexists; reflexivity).
  destruct Hrun as [res Hrun]. exists res. split; [now rewrite Hrun|].
  destruct (queryDocuments_sources_point_to_store
              scripted_embeddings_create scripted_chat_completions_create
              (lit "What is alpha?") (Some [lit "blob-1"]) (Some 2)
              w res (snd run) Hwf Hrun) as [qe [_ Hall]].
  eapply Forall_impl; [|exact Hall]. cbn beta.
  intros src [chunks [c [_ [_ [_ Hfilter]]]]].
  apply (Hfilter [lit "blob-1"]); [reflexivity|discriminate].
Defined.

(** X17, on an example: a file of blanks and line ends. *)
Lemma processDocument_refuses_blank_iff_witness :
  let w := fresh_world 1000 200 [Fulfilled [1; 0]%float] [] in
  let content := map byte_of_ascii [" "; "010"; " "; "009"]%char in
  available (svc w) = true
  /\ scripted_extractText content (lit "blank.txt") w
     = (Returned (ascii_toString content), w)
  /\ scripted_processDocument 9 (lit "blob-1") content (lit "blank.txt") tt w
     = (Returned (ingest_failure (lit "blob-1")
                                 (lit "No text content extracted")), w).
Proof.
  intros w content.
  assert (Hav : available (svc w) = true) by reflexivity.
  assert (Hext : scripted_extractText content (lit "blank.txt") w
                 = (Returned (ascii_toString content), w))
    by (vm_compute; reflexivity).
  split; [exact Hav|]. split; [exact Hext|].
  apply (proj2 (processDocument_refuses_blank_iff
                  scripted_pdf scripted_embeddings_create
                  ascii_toString ascii_toLowerCase
                  9 (lit "blob-1") content (lit "blank.txt") tt
                  w (ascii_toString content) w Hav Hext)).
  vm_compute. reflexivity.
Defined.

(** X20, on an example: the statistics of a document of two chunks, its
    deletion, and the statistics again. *)
Lemma delete_then_stats_witness :
  let w := scripted_world (service_with [stored_chunk 0 "alpha" [1; 0]%float;
                                         stored_chunk 1 "beta" [0; 1]%float])
                          [] [] in
  store_well_formed (vectorStore (svc w))
  /\ exists (n : Z) (w' : World unit Script),
      get_stats (lit "blob-1") w
      = (Returned {| status := 200;
                     body := StatsBody (lit "blob-1") n (0 <? n) |}, w)
      /\ delete_documents (lit "blob-1") w
         = (Returned {| status := 200;
                        body := DeleteBody (lit "Document embeddings deleted")
                                           (lit "blob-1") n |}, w')
      /\ get_stats (lit "blob-1") w'
         = (Returned {| status := 200;
                        body := StatsBody (lit "blob-1") 0 false |}, w').
Proof.
  intros w.
  assert (Hwf : store_well_formed (vectorStore (svc w))).
  { split; [repeat constructor; intros []|].
    repeat constructor; cbn; discriminate. }
  split; [exact Hwf|].
  destruct (delete_then_stats (lit "blob-1") w Hwf)
    as [n [w' [Hstats [Hdel [Hafter _]]]]].
  exists n, w'. split; [exact Hstats|]. split; [exact Hdel|exact Hafter].
Defined.

(** X21, on an example: the file of 13 code units is ingested in 5 chunks
    and the document is then asked a question with [topK = 2]. *)
Lemma ingest_then_query_witness :
  let w := fresh_world 4 1
             [Fulfilled [1; 0]%float; Fulfilled [0; 1]%float;
              Fulfilled [1; 1]%float; Fulfilled [1; 0]%float;
              Fulfilled [0; 1]%float; Fulfilled [1; 0]%float]
             [Fulfilled (lit "An answer.")] in
  let ingest := scripted_processDocument 9 (lit "blob-1")
                  (buffer_of "abcdefghijklm") (lit "notes.txt") tt w in
  let query := scripted_queryDocuments (lit "What is alpha?")
                                       (Some [lit "blob-1"]) (Some 2)
                                       (snd ingest) in
  exists (res : IngestResult) (answer : QueryResult),
    fst ingest = Returned res /\ ir_success res = true
    /\ fst query = Returned answer
    /\ 0 < topK_or_default (svc w) (Some 2)
    /\ js_length (qr_sources answer) = 2
    /\ NoDup (map src_chunkIndex (qr_sources answer)).
Proof.
  intros w ingest query.
  assert (Hingest : exists res, ingest = (Returned res, snd ingest)
                                /\ ir_success res = true
                                /\ ir_chunksCreated res = 5)
    by (vm_compute; eexists; repeat split).
  destruct Hingest as [res [Hingest [Hok Hfive]]].
  assert (Hquery : exists answer, query = (Returned answer, snd query))
    by (vm_compute; eexists; reflexivity).
  destruct Hquery as [answer Hquery].
  assert (Hk : 0 < topK_or_default (svc w) (Some 2)) by reflexivity.
  exists res, answer. split; [now rewrite Hingest|]. split; [exact Hok|].
  split; [now rewrite Hquery|]. split; [exact Hk|].
  destruct (ingest_then_query
              scripted_pdf scripted_embeddings_create
              scripted_chat_completions_create
              ascii_toString ascii_toLowerCase
              9 (lit "blob-1") (buffer_of "abcdefghijklm") (lit "notes.txt") tt
              (lit "What is alpha?") (Some 2)
              w res (snd ingest) answer (snd query) Hingest Hok Hquery Hk)
    as [Hcount [_ Hnodup]].
  split; [|exact Hnodup]. rewrite Hcount, Hfive. reflexivity.
Defined.

(** X22, on an example: the same file is ingested and deleted again. *)
Lemma ingest_then_delete_witness :
  let w := fresh_world 4 1
             [Fulfilled [1; 0]%float; Fulfilled [0; 1]%float;
              Fulfilled [1; 1]%float; Fulfilled [1; 0]%float;
              Fulfilled [0; 1]%float] [] in
  let ingest := scripted_processDocument 9 (lit "blob-1")
                  (buffer_of "abcdefghijklm") (lit "notes.txt") tt w in
  exists (res : IngestResult) (w2 : World unit Script),
    fst ingest = Returned res /\ ir_success res = true
    /\ deleteDocument (lit "blob-1") (snd ingest)
       = (Returned {| dr_success := true; dr_deletedChunks := 5 |}, w2)
    /\ svc w2 = svc w.
Proof.
  intros w ingest.
  assert (Hingest : exists res, ingest = (Returned res, snd ingest)
                                /\ ir_success res = true
                                /\ ir_chunksCreated res = 5)
    by (vm_compute; eexists; repeat split).
  destruct Hingest as [res [Hingest [Hok Hfive]]].
  destruct (ingest_then_delete
              scripted_pdf scripted_embeddings_create
              ascii_toString ascii_toLowerCase
              9 (lit "blob-1") (buffer_of "abcdefghijklm") (lit "notes.txt") tt
              w res (snd ingest) Hingest Hok)
    as [w2 [Hdel [_ [_ Hback]]]].
  exists res, w2. split; [now rewrite Hingest|]. split; [exact Hok|].
  split; [now rewrite <- Hfive|]. apply Hback. reflexivity.
Defined.

(** X23, on an example: the query over three candidates with [topK = 2]. *)
Lemma queryDocuments_answer_from_shown_sources_witness :
  let w := scripted_world
             (service_with [stored_chunk 0 "alpha" [1; 0]%float;
                            stored_chunk 1 "beta" [0; 1]%float;
                            stored_chunk 2 "gamma" [1; 1]%float])
             [Fulfilled [1; 0]%float] [Fulfilled (lit "An answer.")] in
  let run := scripted_queryDocuments (lit "What is alpha?") None (Some 2) w in
  collect_chunks (vectorStore (svc w)) None <> []
  /\ exists (res : QueryResult) (topChunks : list (ScoredChunk unit))
            (req : ChatRequest),
      fst run = Returned res
      /\ new_events w (snd run)
         = [{| ev_call := Embedding embedding_model (lit "What is alpha?");
               ev_fulfilled := true |};
            {| ev_call := ChatCompletion req; ev_fulfilled := true |}]
      /\ cr_user req
         = userPrompt (build_context topChunks) (lit "What is alpha?")
      /\ qr_sources res = map format_source topChunks.
Proof.
  intros w run.
  assert (Hcand : collect_chunks (vectorStore (svc w)) None <> [])
    by (vm_compute; discriminate).
  split; [exact Hcand|].
  assert (Hrun : exists res, run = (Returned res, snd run))
    by (vm_compute; eexists; reflexivity).
  destruct Hrun as [res Hrun].
  destruct (queryDocuments_answer_from_shown_sources
              scripted_embeddings_create scripted_chat_completions_create
              (lit "What is alpha?") None (Some 2) w res (snd run) Hrun Hcand)
    as [topChunks [req [Hevents [Huser [_ [_ [Hsources _]]]]]]].
  exists res, topChunks, req. split; [now rewrite Hrun|].
  split; [exact Hevents|]. split; [exact Huser|exact Hsources].
Defined.
